(** * A shallow embedding of the bit-bang JTAG/SWD driver

    The development follows [src/jtag/drivers/bitbang.c]: the TAP driver
    ([bitbang_state_move], [bitbang_scan], ...), the queue executor
    ([bitbang_execute_queue]), the serial micro-protocol
    ([bitbang_exchange]) and the SWD engine ([bitbang_swd_read_reg],
    [bitbang_swd_write_reg], [bitbang_swd_run_queue]).

    C integers are integers of [Z]; conversions to a narrower unsigned
    type are written out ([u8], [u32]).  Arrays are lists of bytes, and an
    access outside the list is the fault [Undefined].  Global variables of
    the driver are the fields of a state record which every function
    threads through; the calls made on the outside world (pins, byte
    stream, log) are recorded in that state in the order they happen. *)

From stdpp Require Import base list strings.
From Stdlib Require Import ZArith Lia.

Local Open Scope Z_scope.

(** ** Outcomes of a call *)

(** The ways in which a call does not return to its caller. *)
Inductive fault : Type :=
| ProcessExit    (* exit(-1) *)
| AssertFailed   (* a failed assert() *)
| Undefined      (* an array access outside its object *)
| Starved.       (* every further read() times out with the count waited for
                    not reached: the read loop never ends *)

Inductive outcome (S A : Type) : Type :=
| Ret (a : A) (s : S)
| Stop (f : fault) (s : S).
Arguments Ret {S A} a s.
Arguments Stop {S A} f s.

Definition M (S A : Type) : Type := S -> outcome S A.

Definition ret {S A} (a : A) : M S A := fun s => Ret a s.

Definition bind {S A B} (m : M S A) (k : A -> M S B) : M S B :=
  fun s => match m s with
           | Ret a s' => k a s'
           | Stop f s' => Stop f s'
           end.

Definition stop {S A} (f : fault) : M S A := fun s => Stop f s.

Notation "x <- m ;; k" := (bind m (fun x => k))
  (at level 100, m at next level, right associativity).
Notation "m ;;; k" := (bind m (fun _ => k))
  (at level 100, right associativity).

(** [for (i = lo; i < hi; i++) a = body(i, a);] *)
Fixpoint iter_from {S A} (n : nat) (i : Z) (body : Z -> A -> M S A) (a : A) : M S A :=
  match n with
  | O => ret a
  | Datatypes.S n' => a' <- body i a ;; iter_from n' (i + 1) body a'
  end.

Definition for_range {S A} (lo hi : Z) (body : Z -> A -> M S A) (a : A) : M S A :=
  iter_from (Z.to_nat (hi - lo)) lo body a.

(** ** Integer conversions and bits of a byte array *)

Definition u8 (x : Z) : Z := x mod 256.
Definition u32 (x : Z) : Z := x mod 2 ^ 32.

(** [DIV_ROUND_UP(m, n)] of helper/types.h, [((m) + (n) - 1) / (n)], on
    unsigned operands. *)
Definition DIV_ROUND_UP (m n : Z) : Z := u32 (m + n - 1) / n.

(** [a[i]] for a C array held as a list; [None] outside the array. *)
Definition at_index (a : list Z) (i : Z) : option Z :=
  if i <? 0 then None else a !! Z.to_nat i.

(** [a[i] = v]. *)
Definition set_index (a : list Z) (i : Z) (v : Z) : list Z :=
  <[Z.to_nat i := v]> a.

(** The statement pair that occurs three times in the driver,
    [if (v) buf[bytec] |= bcval; else buf[bytec] &= ~bcval;]
    with [bytec = i/8] and [bcval = 1 << (i % 8)]. *)
Definition store_bit (buf : list Z) (i : Z) (v : bool) : option (list Z) :=
  let bytec := i / 8 in
  let bcval := Z.shiftl 1 (i mod 8) in
  match at_index buf bytec with
  | Some b =>
      Some (set_index buf bytec
              (if v then u8 (Z.lor b bcval) else u8 (Z.land b (Z.lnot bcval))))
  | None => None
  end.

(** [buf[i/8] & (1 << (i % 8))] as a truth value. *)
Definition load_bit (buf : list Z) (i : Z) : option bool :=
  match at_index buf (i / 8) with
  | Some b => Some (negb (Z.land b (Z.shiftl 1 (i mod 8)) =? 0))
  | None => None
  end.

(** Bit [i] of a byte array, for statements ([false] outside the array). *)
Definition bit_of (buf : list Z) (i : Z) : bool :=
  match at_index buf (i / 8) with
  | Some b => Z.testbit b (i mod 8)
  | None => false
  end.

(** ** The log *)

Inductive log_arg : Type :=
| ArgZ (z : Z)
| ArgS (s : string).

Inductive log_line : Type :=
| LOG_ERROR (fmt : string) (args : list log_arg)
| LOG_DEBUG (fmt : string) (args : list log_arg).

(** ** The TAP state and its oracle *)

(** The sixteen states of the IEEE 1149.1 TAP controller, with the names
    of jtag/jtag.h. *)
Inductive tap_state_t : Type :=
| TAP_DREXIT2 | TAP_DREXIT1 | TAP_DRSHIFT | TAP_DRPAUSE
| TAP_IRSELECT | TAP_DRUPDATE | TAP_DRCAPTURE | TAP_DRSELECT
| TAP_IREXIT2 | TAP_IREXIT1 | TAP_IRSHIFT | TAP_IRPAUSE
| TAP_IDLE | TAP_IRUPDATE | TAP_IRCAPTURE | TAP_RESET.

Global Instance tap_state_eq_dec : EqDecision tap_state_t.
Proof. solve_decision. Defined.

(** What the driver takes from the error codes of helper/log.h and
    jtag/jtag.h. *)
Class ErrorCodes : Type := {
  ERROR_OK : Z;
  ERROR_FAIL : Z;
  ERROR_JTAG_QUEUE_FAILED : Z;
}.

Inductive scan_type : Type := SCAN_IN | SCAN_OUT | SCAN_IO.

Global Instance scan_type_eq_dec : EqDecision scan_type.
Proof. solve_decision. Defined.

(** A scan command: the two members the driver reads itself, and the
    field list, which only the helpers of jtag/commands.c look into. *)
Record scan_command (F : Type) : Type := {
  ir_scan : bool;
  scan_end_state : tap_state_t;
  scan_fields : F;
}.
Arguments ir_scan {F} _.
Arguments scan_end_state {F} _.
Arguments scan_fields {F} _.

(** The functions of jtag/interface.c and jtag/commands.c that the driver
    calls: the TAP state table and the scan buffer helpers.  They are not
    part of the driver and stay abstract. *)
Class JtagCore (F : Type) : Type := {
  tap_is_state_stable : tap_state_t -> bool;
  tap_get_tms_path : tap_state_t -> tap_state_t -> Z;
  tap_get_tms_path_len : tap_state_t -> tap_state_t -> Z;
  tap_state_transition : tap_state_t -> bool -> tap_state_t;
  tap_state_name : tap_state_t -> string;
  (* tap_state_t as the integer printed by "%i" *)
  tap_state_code : tap_state_t -> Z;
  (* jtag_get_reset_config() & RESET_SRST_PULLS_TRST *)
  srst_pulls_trst : bool;
  (* the buffer and the scan size that jtag_build_buffer() yields *)
  jtag_build_buffer : scan_command F -> list Z * Z;
  jtag_scan_type : scan_command F -> scan_type;
  (* the status of jtag_read_buffer() on the buffer after the scan *)
  jtag_read_buffer : list Z -> scan_command F -> Z;
}.

(** ** The pins *)

(** Calls on [bitbang_interface] and [jtag_sleep], in the order made. *)
Inductive pin_event : Type :=
| bb_write (tck tms tdi : Z)
| bb_read
| bb_reset (trst srst : Z)
| bb_blink (on : Z)
| ev_sleep (us : Z).

(** What [*bitbang_interface] answers: the value of the k-th call of
    [read()], and whether the optional [blink] member is set. *)
Record bitbang_interface_t : Type := {
  bb_tdo : nat -> Z;
  bb_has_blink : bool;
}.

(** The session: [tap_get_state()], [tap_get_end_state()], the calls made
    on the pins, the number of [read()] calls so far, and the log. *)
Record jtag_state : Type := {
  cur_state : tap_state_t;
  end_state : tap_state_t;
  pins : list pin_event;
  samples : nat;
  jlog : list log_line;
}.

Definition J (A : Type) : Type := M jtag_state A.

Definition tap_get_state : J tap_state_t := fun s => Ret (cur_state s) s.
Definition tap_get_end_state : J tap_state_t := fun s => Ret (end_state s) s.

Definition tap_set_state (t : tap_state_t) : J unit := fun s =>
  Ret tt {| cur_state := t; end_state := end_state s; pins := pins s;
            samples := samples s; jlog := jlog s |}.

Definition tap_set_end_state (t : tap_state_t) : J unit := fun s =>
  Ret tt {| cur_state := cur_state s; end_state := t; pins := pins s;
            samples := samples s; jlog := jlog s |}.

Definition emit (e : pin_event) : J unit := fun s =>
  Ret tt {| cur_state := cur_state s; end_state := end_state s;
            pins := pins s ++ [e]; samples := samples s; jlog := jlog s |}.

Definition jlog_add (l : log_line) : J unit := fun s =>
  Ret tt {| cur_state := cur_state s; end_state := end_state s;
            pins := pins s; samples := samples s; jlog := jlog s ++ [l] |}.

(** [bitbang_interface->write(tck, tms, tdi)] *)
Definition bb_do_write (tck tms tdi : Z) : J unit := emit (bb_write tck tms tdi).

(** [bitbang_interface->read()] *)
Definition bb_do_read (bb : bitbang_interface_t) : J Z := fun s =>
  Ret (bb_tdo bb (samples s))
      {| cur_state := cur_state s; end_state := end_state s;
         pins := pins s ++ [bb_read]; samples := Datatypes.S (samples s);
         jlog := jlog s |}.

Definition CLOCK_IDLE : Z := 0.

Section TapDriver.
Context {F : Type} {EC : ErrorCodes} {JC : JtagCore F}.
Variable bb : bitbang_interface_t.

Definition bitbang_end_state (state : tap_state_t) : J unit :=
  if tap_is_state_stable state then tap_set_end_state state
  else
    jlog_add (LOG_ERROR "BUG: %i is not a valid end state"
                [ArgZ (tap_state_code state)]) ;;;
    stop ProcessExit.

(** One turn of the loops that clock a TMS value: both edges of TCK. *)
Definition clock_tms (tms : Z) : J Z :=
  bb_do_write 0 tms 0 ;;; bb_do_write 1 tms 0 ;;; ret tms.

Definition bitbang_state_move (skip : Z) : J unit :=
  from <- tap_get_state ;;
  to <- tap_get_end_state ;;
  let tms_scan := u8 (tap_get_tms_path from to) in
  let tms_count := tap_get_tms_path_len from to in
  tms <- for_range skip tms_count
           (fun i _ => clock_tms (Z.land (Z.shiftr tms_scan i) 1)) 0 ;;
  bb_do_write CLOCK_IDLE tms 0 ;;;
  to' <- tap_get_end_state ;;
  tap_set_state to'.

(** [struct tms_command]: [num_bits] and the array [bits]. *)
Definition bitbang_execute_tms (num_bits : Z) (bits : list Z) : J Z :=
  tms <- for_range 0 num_bits
           (fun i _ =>
              match at_index bits (i / 8) with
              | Some b => clock_tms (Z.land (Z.shiftr b (i mod 8)) 1)
              | None => stop Undefined
              end) 0 ;;
  bb_do_write CLOCK_IDLE tms 0 ;;;
  ret ERROR_OK.

(** The [while (num_states)] loop; [path] holds the [num_states] states. *)
Fixpoint path_move_loop (path : list tap_state_t) (tms : Z) : J Z :=
  match path with
  | [] => ret tms
  | next :: rest =>
      cur <- tap_get_state ;;
      tms' <- (if decide (tap_state_transition cur false = next) then ret 0
               else if decide (tap_state_transition cur true = next) then ret 1
               else
                 jlog_add (LOG_ERROR "BUG: %s -> %s isn't a valid TAP transition"
                             [ArgS (tap_state_name cur); ArgS (tap_state_name next)]) ;;;
                 stop ProcessExit) ;;
      bb_do_write 0 tms' 0 ;;;
      bb_do_write 1 tms' 0 ;;;
      tap_set_state next ;;;
      path_move_loop rest tms'
  end.

Definition bitbang_path_move (path : list tap_state_t) : J unit :=
  tms <- path_move_loop path 0 ;;
  bb_do_write CLOCK_IDLE tms 0 ;;;
  cur <- tap_get_state ;;
  tap_set_end_state cur.

Definition bitbang_runtest (num_cycles : Z) : J unit :=
  saved_end_state <- tap_get_end_state ;;
  cur <- tap_get_state ;;
  (if decide (cur = TAP_IDLE) then ret tt
   else bitbang_end_state TAP_IDLE ;;; bitbang_state_move 0) ;;;
  for_range 0 num_cycles
    (fun _ _ => bb_do_write 0 0 0 ;;; bb_do_write 1 0 0) tt ;;;
  bb_do_write CLOCK_IDLE 0 0 ;;;
  bitbang_end_state saved_end_state ;;;
  cur' <- tap_get_state ;;
  to <- tap_get_end_state ;;
  if decide (cur' = to) then ret tt else bitbang_state_move 0.

Definition bitbang_stableclocks (num_cycles : Z) : J unit :=
  cur <- tap_get_state ;;
  let tms := if decide (cur = TAP_RESET) then 1 else 0 in
  for_range 0 num_cycles
    (fun _ _ => bb_do_write 1 tms 0 ;;; bb_do_write 0 tms 0) tt.

(** The body of the shift loop of [bitbang_scan] for bit [bit_cnt]. *)
Definition scan_bit (type : scan_type) (scan_size : Z)
    (bit_cnt : Z) (buffer : list Z) : J (list Z) :=
  let tms := if decide (bit_cnt = scan_size - 1) then 1 else 0 in
  tdi <- (if decide (type = SCAN_IN) then ret 0
          else match load_bit buffer bit_cnt with
               | Some true => ret 1
               | Some false => ret 0
               | None => stop Undefined
               end) ;;
  bb_do_write 0 tms tdi ;;;
  val <- (if decide (type = SCAN_OUT) then ret 0 else bb_do_read bb) ;;
  bb_do_write 1 tms tdi ;;;
  if decide (type = SCAN_OUT) then ret buffer
  else match store_bit buffer bit_cnt (negb (val =? 0)) with
       | Some buffer' => ret buffer'
       | None => stop Undefined
       end.

(** The shift loop, [for (bit_cnt = 0; bit_cnt < scan_size; bit_cnt++)]. *)
Definition bitbang_scan_bits (type : scan_type) (buffer : list Z)
    (scan_size : Z) : J (list Z) :=
  for_range 0 scan_size (scan_bit type scan_size) buffer.

(** Returns the buffer as the call leaves it. *)
Definition bitbang_scan (ir : bool) (type : scan_type) (buffer : list Z)
    (scan_size : Z) : J (list Z) :=
  saved_end_state <- tap_get_end_state ;;
  cur <- tap_get_state ;;
  (if negb ((negb ir && bool_decide (cur = TAP_DRSHIFT))
            || (ir && bool_decide (cur = TAP_IRSHIFT)))
   then
     (if ir then bitbang_end_state TAP_IRSHIFT
      else bitbang_end_state TAP_DRSHIFT) ;;;
     bitbang_state_move 0 ;;;
     bitbang_end_state saved_end_state
   else ret tt) ;;;
  buffer' <- bitbang_scan_bits type buffer scan_size ;;
  cur' <- tap_get_state ;;
  to <- tap_get_end_state ;;
  (if decide (cur' = to) then ret tt else bitbang_state_move 1) ;;;
  ret buffer'.

End TapDriver.

(** ** The queue executor *)

Inductive jtag_command (F : Type) : Type :=
| JTAG_RESET (trst srst : Z)
| JTAG_RUNTEST (num_cycles : Z) (end_st : tap_state_t)
| JTAG_STABLECLOCKS (num_cycles : Z)
| JTAG_TLR_RESET (end_st : tap_state_t)
| JTAG_PATHMOVE (path : list tap_state_t)
| JTAG_SCAN (scan : scan_command F)
| JTAG_SLEEP (us : Z)
| JTAG_TMS (num_bits : Z) (bits : list Z)
| JTAG_OTHER (type : Z).   (* any tag the switch has no case for *)
Arguments JTAG_RESET {F} trst srst.
Arguments JTAG_RUNTEST {F} num_cycles end_st.
Arguments JTAG_STABLECLOCKS {F} num_cycles.
Arguments JTAG_TLR_RESET {F} end_st.
Arguments JTAG_PATHMOVE {F} path.
Arguments JTAG_SCAN {F} scan.
Arguments JTAG_SLEEP {F} us.
Arguments JTAG_TMS {F} num_bits bits.
Arguments JTAG_OTHER {F} type.

Section QueueExecutor.
Context {F : Type} {EC : ErrorCodes} {JC : JtagCore F}.

(** One turn of [while (cmd)]: the [switch], from the value of [retval]
    before it to the value after it. *)
Definition execute_command (bb : bitbang_interface_t)
    (cmd : jtag_command F) (retval : Z) : J Z :=
  match cmd with
  | JTAG_RESET trst srst =>
      (if (trst =? 1) || (negb (srst =? 0) && srst_pulls_trst)
       then tap_set_state TAP_RESET else ret tt) ;;;
      emit (bb_reset trst srst) ;;;
      ret retval
  | JTAG_RUNTEST num_cycles end_st =>
      bitbang_end_state end_st ;;;
      bitbang_runtest num_cycles ;;;
      ret retval
  | JTAG_STABLECLOCKS num_cycles =>
      bitbang_stableclocks num_cycles ;;;
      ret retval
  | JTAG_TLR_RESET end_st =>
      bitbang_end_state end_st ;;;
      bitbang_state_move 0 ;;;
      ret retval
  | JTAG_PATHMOVE path =>
      bitbang_path_move path ;;;
      ret retval
  | JTAG_SCAN scan =>
      bitbang_end_state (scan_end_state scan) ;;;
      let '(buffer, scan_size) := jtag_build_buffer scan in
      let type := jtag_scan_type scan in
      buffer' <- bitbang_scan bb (ir_scan scan) type buffer scan_size ;;
      if decide (jtag_read_buffer buffer' scan = ERROR_OK) then ret retval
      else ret ERROR_JTAG_QUEUE_FAILED
  | JTAG_SLEEP us =>
      emit (ev_sleep us) ;;;
      ret retval
  | JTAG_TMS num_bits bits =>
      bitbang_execute_tms num_bits bits
  | JTAG_OTHER _ =>
      jlog_add (LOG_ERROR "BUG: unknown JTAG command type encountered" []) ;;;
      stop ProcessExit
  end.

Fixpoint execute_commands (bb : bitbang_interface_t)
    (queue : list (jtag_command F)) (retval : Z) : J Z :=
  match queue with
  | [] => ret retval
  | cmd :: next =>
      retval' <- execute_command bb cmd retval ;;
      execute_commands bb next retval'
  end.

(** [bitbang_interface] is [None] while the pointer is null;
    [jtag_command_queue] is the list the [next] pointers chain. *)
Definition bitbang_execute_queue (bitbang_interface : option bitbang_interface_t)
    (jtag_command_queue : list (jtag_command F)) : J Z :=
  match bitbang_interface with
  | None =>
      jlog_add (LOG_ERROR "BUG: Bitbang interface called, but not yet initialized" []) ;;;
      stop ProcessExit
  | Some bb =>
      (if bb_has_blink bb then emit (bb_blink 1) else ret tt) ;;;
      retval <- execute_commands bb jtag_command_queue ERROR_OK ;;
      (if bb_has_blink bb then emit (bb_blink 0) else ret tt) ;;;
      ret retval
  end.

End QueueExecutor.

(** ** The byte stream of the serial adapter *)

(** Calls on the descriptor [fd] that send something or wait, in the
    order made.  [write()] is taken to send all it is given. *)
Inductive stream_event : Type :=
| sys_write (fd : Z) (bytes : list Z)
| sys_usleep (us : Z).

(** The globals of the SWD half ([swd_mode], [fd], [queued_retval],
    [local_buf]), what the stream still has to deliver ([rx]: the k-th
    element is what the k-th coming call of [read()] stores into [hex],
    at most [sizeof hex] = 128 chars, none when the call times out or
    fails; once the list is used up every further call times out),
    what was sent ([tx]) and the log.  A char of [rx] is the value that
    [hex[i]] has as an [int]: [hex] is an array of plain [char], so a
    byte above 0x7F is the negative number that a signed [char] makes
    of it. *)
Record swd_state : Type := {
  swd_mode : bool;
  fd : Z;
  queued_retval : Z;
  local_buf : list Z;
  rx : list (list Z);
  tx : list stream_event;
  slog : list log_line;
}.

Definition W (A : Type) : Type := M swd_state A.

Definition set_queued_retval (v : Z) (s : swd_state) : swd_state :=
  {| swd_mode := swd_mode s; fd := fd s; queued_retval := v;
     local_buf := local_buf s; rx := rx s; tx := tx s; slog := slog s |}.
Definition set_local_buf (v : list Z) (s : swd_state) : swd_state :=
  {| swd_mode := swd_mode s; fd := fd s; queued_retval := queued_retval s;
     local_buf := v; rx := rx s; tx := tx s; slog := slog s |}.
Definition set_rx (v : list (list Z)) (s : swd_state) : swd_state :=
  {| swd_mode := swd_mode s; fd := fd s; queued_retval := queued_retval s;
     local_buf := local_buf s; rx := v; tx := tx s; slog := slog s |}.
Definition add_tx (e : stream_event) (s : swd_state) : swd_state :=
  {| swd_mode := swd_mode s; fd := fd s; queued_retval := queued_retval s;
     local_buf := local_buf s; rx := rx s; tx := tx s ++ [e]; slog := slog s |}.
Definition add_log (l : log_line) (s : swd_state) : swd_state :=
  {| swd_mode := swd_mode s; fd := fd s; queued_retval := queued_retval s;
     local_buf := local_buf s; rx := rx s; tx := tx s; slog := slog s ++ [l] |}.

Definition log_debug (fmt : string) (args : list log_arg) : W unit :=
  fun s => Ret tt (add_log (LOG_DEBUG fmt args) s).
Definition log_error (fmt : string) (args : list log_arg) : W unit :=
  fun s => Ret tt (add_log (LOG_ERROR fmt args) s).

(** [write(fd, bytes, n)] *)
Definition fd_write (bytes : list Z) : W unit :=
  fun s => Ret tt (add_tx (sys_write (fd s) bytes) s).
Definition usleep (us : Z) : W unit :=
  fun s => Ret tt (add_tx (sys_usleep us) s).

(** The character constants ['A'] and ['0']. *)
Definition chr_A : Z := 65.
Definition chr_0 : Z := 48.

Definition GET_UPPER_HEX (x : Z) : Z :=
  if 9 <? Z.land (Z.shiftr x 4) 15
  then Z.land (Z.shiftr x 4) 15 - 10 + chr_A
  else Z.land (Z.shiftr x 4) 15 + chr_0.

Definition GET_LOWER_HEX (x : Z) : Z :=
  if 9 <? Z.land x 15
  then Z.land x 15 - 10 + chr_A
  else Z.land x 15 + chr_0.

Definition HEX_TO_INT (x : Z) : Z :=
  if chr_A <=? x then x - chr_A + 10 else x - chr_0.

(** The [for (i = 0; i < n; i++)] loop over the chars a [read()] stored:
    two hex digits make one byte of [local_buf]. *)
Fixpoint assemble (hex : list Z) (data_cnt : Z) (lbuf : list Z) : option (Z * list Z) :=
  match hex with
  | [] => Some (data_cnt, lbuf)
  | c :: rest =>
      match at_index lbuf (data_cnt / 2) with
      | Some old =>
          assemble rest (data_cnt + 1)
            (set_index lbuf (data_cnt / 2)
               (if Z.land data_cnt 1 =? 0
                then u8 (Z.shiftl (HEX_TO_INT c) 4)
                else u8 (Z.lor old (Z.shiftl (HEX_TO_INT c) 0))))
      | None => None
      end
  end.

(** The [while (1)] loops of [bitbang_exchange]: read, assemble, and leave
    once [data_cnt / 2 == want]; the result is [data_cnt] at that point.
    With nothing left to deliver, [read()] stores nothing and the test
    is made on the count as it is: the loop ends there, or never. *)
Fixpoint receive_loop (chunks : list (list Z)) (data_cnt want : Z)
    (s : swd_state) : outcome swd_state Z :=
  match chunks with
  | [] =>
      if data_cnt / 2 =? want then Ret data_cnt (set_rx [] s)
      else Stop Starved (set_rx [] s)
  | hex :: rest =>
      match assemble hex data_cnt (local_buf s) with
      | Some (data_cnt', lbuf) =>
          let s' := set_local_buf lbuf (set_rx rest s) in
          if data_cnt' / 2 =? want then Ret data_cnt' s'
          else receive_loop rest data_cnt' want s'
      | None => Stop Undefined (set_rx rest s)
      end
  end.

Definition receive (want : Z) : W Z :=
  fun s => receive_loop (rx s) 0 want s.

(** The body of the loop that copies bit [i] of [local_buf] into [buf];
    [i] is an [int]. *)
Definition copy_bit (i : Z) (buf : list Z) : W (list Z) := fun s =>
  if 2 ^ 31 <=? i then Stop Undefined s
  else match load_bit (local_buf s) i with
       | Some v =>
           match store_bit buf i v with
           | Some buf' => Ret buf' s
           | None => Stop Undefined s
           end
       | None => Stop Undefined s
       end.

(** The body of the loop that sends the payload: byte [i] of [buf] as
    two hex digits, in a [write()] of its own. *)
Definition send_byte (buf : list Z) (i : Z) (_ : unit) : W unit :=
  match at_index buf i with
  | Some x => fd_write [GET_UPPER_HEX x; GET_LOWER_HEX x]
  | None => stop Undefined
  end.

(** The 7 chars of a request; [op] is 0xF1 or 0xF0. *)
Definition exchange_header (op : Z) (has_buf : bool) (offset bit_cnt : Z) : list Z :=
  let data_len := DIV_ROUND_UP (bit_cnt + offset) 8 in
  [op; GET_UPPER_HEX bit_cnt; GET_LOWER_HEX bit_cnt;
   GET_UPPER_HEX offset; GET_LOWER_HEX offset;
   if has_buf then GET_UPPER_HEX data_len else chr_0;
   if has_buf then GET_LOWER_HEX data_len else chr_0].

(** [buf] is [None] for a null pointer, else the bytes it points to; the
    result is the same after the call.  [offset] and [bit_cnt] are
    [unsigned int]. *)
Definition bitbang_exchange (rnw : bool) (buf : option (list Z))
    (offset bit_cnt : Z) : W (option (list Z)) :=
  log_debug "bitbang_exchange" [] ;;;
  let data_len := DIV_ROUND_UP (bit_cnt + offset) 8 in
  if rnw then
    fd_write (exchange_header 241 (bool_decide (buf <> None)) offset bit_cnt) ;;;
    match buf with
    | None => usleep 10000 ;;; ret None
    | Some b =>
        receive data_len ;;;
        b' <- for_range offset (u32 (bit_cnt + offset)) copy_bit b ;;
        ret (Some b')
    end
  else
    fd_write (exchange_header 240 (bool_decide (buf <> None)) offset bit_cnt) ;;;
    match buf with
    | None => ret tt
    | Some b => for_range 0 data_len (send_byte b) tt
    end ;;;
    receive 1 ;;;
    ret buf.

(** [write(fd, hex, 1)] returns 1, so "What?" is not logged. *)
Definition bitbang_interface_swdio_drive (out : bool) : W unit :=
  if out then fd_write [225] else fd_write [224].

(** ** The SWD engine *)

(** What the driver takes from jtag/swd.h, target/arm_adi_v5.h and
    helper/binarybuffer.h, which are not part of it: constants, the
    command builder, the bit field accessors of a byte array, the
    parity of a word and the three line sequences.  [trn_uninit] is what
    the array [trn_ack_data_parity_trn] holds where it is declared,
    before anything is stored into it. *)
Class SwdCore : Type := {
  SWD_CMD_START : Z;
  SWD_CMD_APnDP : Z;
  SWD_CMD_RnW : Z;
  SWD_CMD_A32 : Z;
  SWD_ACK_OK : Z;
  SWD_ACK_WAIT : Z;
  SWD_ACK_FAULT : Z;
  DP_ABORT : Z;
  STKCMPCLR : Z;
  STKERRCLR : Z;
  WDERRCLR : Z;
  ORUNERRCLR : Z;
  swd_cmd : bool -> bool -> Z -> Z;
  buf_get_u32 : list Z -> Z -> Z -> Z;
  buf_set_u32 : list Z -> Z -> Z -> Z -> list Z;
  parity_u32 : Z -> Z;
  swd_seq_line_reset : list Z;
  swd_seq_line_reset_len : Z;
  swd_seq_jtag_to_swd : list Z;
  swd_seq_jtag_to_swd_len : Z;
  swd_seq_swd_to_jtag : list Z;
  swd_seq_swd_to_jtag_len : Z;
  trn_uninit : list Z;
}.

Inductive swd_special_seq : Type :=
| LINE_RESET
| JTAG_TO_SWD
| SWD_TO_JTAG
| SEQ_OTHER (seq : Z).   (* any value the switch has no case for *)

(** The content of an array after [bitbang_exchange] was given a pointer
    to it. *)
Definition pointee (old : list Z) (r : option (list Z)) : list Z :=
  match r with
  | Some b => b
  | None => old
  end.

(** A call that may not have the fuel to finish: [None] is "not enough
    fuel", never a behaviour of the driver. *)
Definition after {A B} (r : outcome swd_state A)
    (k : A -> swd_state -> option (outcome swd_state B))
    : option (outcome swd_state B) :=
  match r with
  | Ret a s => k a s
  | Stop f s => Some (Stop f s)
  end.

Section SwdEngine.
Context {EC : ErrorCodes} {SC : SwdCore}.


Definition bitbang_swd_switch_seq (seq : swd_special_seq) : W Z :=
  log_debug "bitbang_swd_switch_seq" [] ;;;
  match seq with
  | LINE_RESET =>
      log_debug "SWD line reset" [] ;;;
      bitbang_exchange false (Some swd_seq_line_reset) 0 swd_seq_line_reset_len ;;;
      ret ERROR_OK
  | JTAG_TO_SWD =>
      log_debug "JTAG-to-SWD" [] ;;;
      bitbang_exchange false (Some swd_seq_jtag_to_swd) 0 swd_seq_jtag_to_swd_len ;;;
      ret ERROR_OK
  | SWD_TO_JTAG =>
      log_debug "SWD-to-JTAG" [] ;;;
      bitbang_exchange false (Some swd_seq_swd_to_jtag) 0 swd_seq_swd_to_jtag_len ;;;
      ret ERROR_OK
  | SEQ_OTHER seq =>
      log_error "Sequence %d not supported" [ArgZ seq] ;;;
      ret ERROR_FAIL
  end.


Definition ack_name (ack : Z) : string :=
  if decide (ack = SWD_ACK_OK) then "OK"
  else if decide (ack = SWD_ACK_WAIT) then "WAIT"
  else if decide (ack = SWD_ACK_FAULT) then "FAULT"
  else "JUNK".

(** The [LOG_DEBUG] between the exchanges and the [switch (ack)]. *)
Definition log_transfer (ack cmd data : Z) : W unit :=
  log_debug "%s %s %s reg %X = %08x"
    [ArgS (ack_name ack);
     ArgS (if Z.land cmd SWD_CMD_APnDP =? 0 then "DP" else "AP");
     ArgS (if Z.land cmd SWD_CMD_RnW =? 0 then "write" else "read");
     ArgZ (Z.shiftr (Z.land cmd SWD_CMD_A32) 1);
     ArgZ data].

(** [if (cmd & SWD_CMD_APnDP) bitbang_exchange(true, NULL, 0, ap_delay_clk);] *)
Definition ap_delay (cmd ap_delay_clk : Z) : W unit :=
  if Z.land cmd SWD_CMD_APnDP =? 0 then ret tt
  else bitbang_exchange true None 0 ap_delay_clk ;;; ret tt.

(** One turn of [for (;;)] in [bitbang_swd_write_reg], up to the
    [switch (ack)]: the command byte as sent and the array. *)
Definition write_reg_transfer (cmd value : Z) : W (Z * list Z) :=
  let trn := buf_set_u32 trn_uninit (1 + 3 + 1) 32 value in
  let trn := buf_set_u32 trn (1 + 3 + 1 + 32) 1 (parity_u32 value) in
  let cmd := u8 (Z.lor cmd (Z.lor SWD_CMD_START (Z.shiftl 1 7))) in
  bitbang_exchange false (Some [cmd]) 0 8 ;;;
  bitbang_interface_swdio_drive false ;;;
  r <- bitbang_exchange true (Some trn) 0 (1 + 3 + 1) ;;
  let trn := pointee trn r in
  bitbang_interface_swdio_drive true ;;;
  bitbang_exchange false (Some trn) (1 + 3 + 1) (32 + 1) ;;;
  log_transfer (buf_get_u32 trn 1 3) cmd (buf_get_u32 trn (1 + 3 + 1) 32) ;;;
  ret (cmd, trn).

(** What [bitbang_swd_write_reg] does before its loop, the loop being
    [loop]. *)
Definition write_reg_entry
    (loop : Z -> Z -> Z -> swd_state -> option (outcome swd_state unit))
    (cmd value ap_delay_clk : Z) (s : swd_state)
    : option (outcome swd_state unit) :=
  let s := add_log (LOG_DEBUG "bitbang_swd_write_reg" []) s in
  if negb (Z.land cmd SWD_CMD_RnW =? 0) then Some (Stop AssertFailed s)
  else if decide (queued_retval s <> ERROR_OK) then
    Some (Ret tt (add_log (LOG_DEBUG "Skip bitbang_swd_write_reg because queued_retval=%d"
                             [ArgZ (queued_retval s)]) s))
  else loop cmd value ap_delay_clk s.

(** [swd_clear_sticky_errors], given [bitbang_swd_write_reg]. *)
Definition clear_sticky_errors_by
    (write_reg : Z -> Z -> Z -> swd_state -> option (outcome swd_state unit))
    : swd_state -> option (outcome swd_state unit) :=
  write_reg (swd_cmd false false DP_ABORT)
    (Z.lor (Z.lor (Z.lor STKCMPCLR STKERRCLR) WDERRCLR) ORUNERRCLR) 0.

(** The [for (;;)] of [bitbang_swd_write_reg]; a turn that ends in
    [break] calls the function itself and then takes the next turn. *)
Fixpoint write_reg_loop (fuel : nat) (cmd value ap_delay_clk : Z)
    (s : swd_state) : option (outcome swd_state unit) :=
  match fuel with
  | O => None
  | Datatypes.S fuel' =>
      after (write_reg_transfer cmd value s) (fun '(cmd, trn) s =>
        let ack := buf_get_u32 trn 1 3 in
        if decide (ack = SWD_ACK_OK) then
          Some (ap_delay cmd ap_delay_clk s)
        else if decide (ack = SWD_ACK_WAIT) then
          match clear_sticky_errors_by (write_reg_entry (write_reg_loop fuel'))
                  (add_log (LOG_DEBUG "SWD_ACK_WAIT" []) s) with
          | Some (Ret _ s) => write_reg_loop fuel' cmd value ap_delay_clk s
          | other => other
          end
        else if decide (ack = SWD_ACK_FAULT) then
          Some (Ret tt (set_queued_retval ack
                          (add_log (LOG_DEBUG "SWD_ACK_FAULT" []) s)))
        else
          Some (Ret tt (set_queued_retval ack
                          (add_log (LOG_DEBUG "No valid acknowledge: ack=%d"
                                      [ArgZ ack]) s))))
  end.

(** Every turn of a loop reads the stream at least once, so one unit of
    fuel per pending element of [rx], and one more, is enough. *)
Definition bitbang_swd_write_reg (cmd value ap_delay_clk : Z) (s : swd_state)
    : option (outcome swd_state unit) :=
  write_reg_entry (write_reg_loop (Datatypes.S (length (rx s))))
    cmd value ap_delay_clk s.

Definition swd_clear_sticky_errors : swd_state -> option (outcome swd_state unit) :=
  clear_sticky_errors_by bitbang_swd_write_reg.

(** One turn of [for (;;)] in [bitbang_swd_read_reg], up to the
    [switch (ack)]. *)
Definition read_reg_transfer (cmd : Z) : W (Z * list Z) :=
  let cmd := u8 (Z.lor cmd (Z.lor SWD_CMD_START (Z.shiftl 1 7))) in
  bitbang_exchange false (Some [cmd]) 0 8 ;;;
  bitbang_interface_swdio_drive false ;;;
  r <- bitbang_exchange true (Some trn_uninit) 0 (1 + 3 + 32 + 1 + 1) ;;
  let trn := pointee trn_uninit r in
  bitbang_interface_swdio_drive true ;;;
  log_transfer (buf_get_u32 trn 1 3) cmd (buf_get_u32 trn (1 + 3) 32) ;;;
  ret (cmd, trn).

(** [value] is [None] for a null pointer, else what [*value] holds; the
    result is the same after the call. *)
Fixpoint read_reg_loop (fuel : nat) (cmd : Z) (value : option Z)
    (ap_delay_clk : Z) (s : swd_state) : option (outcome swd_state (option Z)) :=
  match fuel with
  | O => None
  | Datatypes.S fuel' =>
      after (read_reg_transfer cmd s) (fun '(cmd, trn) s =>
        let ack := buf_get_u32 trn 1 3 in
        let data := buf_get_u32 trn (1 + 3) 32 in
        let parity := buf_get_u32 trn (1 + 3 + 32) 1 in
        if decide (ack = SWD_ACK_OK) then
          if decide (parity <> parity_u32 data) then
            Some (Ret value (set_queued_retval ERROR_FAIL
                               (add_log (LOG_DEBUG "Wrong parity detected" []) s)))
          else
            Some ((ap_delay cmd ap_delay_clk ;;;
                   ret (match value with Some _ => Some data | None => None end)) s)
        else if decide (ack = SWD_ACK_WAIT) then
          match swd_clear_sticky_errors (add_log (LOG_DEBUG "SWD_ACK_WAIT" []) s) with
          | Some (Ret _ s) => read_reg_loop fuel' cmd value ap_delay_clk s
          | Some (Stop f s) => Some (Stop f s)
          | None => None
          end
        else if decide (ack = SWD_ACK_FAULT) then
          Some (Ret value (set_queued_retval ack
                             (add_log (LOG_DEBUG "SWD_ACK_FAULT" []) s)))
        else
          Some (Ret value (set_queued_retval ack
                             (add_log (LOG_DEBUG "No valid acknowledge: ack=%d"
                                         [ArgZ ack]) s))))
  end.

Definition bitbang_swd_read_reg (cmd : Z) (value : option Z)
    (ap_delay_clk : Z) (s : swd_state) : option (outcome swd_state (option Z)) :=
  let s := add_log (LOG_DEBUG "bitbang_swd_read_reg" []) s in
  if Z.land cmd SWD_CMD_RnW =? 0 then Some (Stop AssertFailed s)
  else if decide (queued_retval s <> ERROR_OK) then
    Some (Ret value (add_log (LOG_DEBUG "Skip bitbang_swd_read_reg because queued_retval=%d"
                                [ArgZ (queued_retval s)]) s))
  else read_reg_loop (Datatypes.S (length (rx s))) cmd value ap_delay_clk s.

Definition bitbang_swd_run_queue : W Z :=
  log_debug "bitbang_swd_run_queue" [] ;;;
  bitbang_exchange true None 0 8 ;;;
  fun s =>
    let retval := queued_retval s in
    Ret retval (add_log (LOG_DEBUG "SWD queue return value: %02x" [ArgZ retval])
                  (set_queued_retval ERROR_OK s)).

End SwdEngine.

(** * Vocabulary of the statements *)

(** The state a call ends in, whether it returns or not. *)
Definition final {S A} (o : outcome S A) : S :=
  match o with
  | Ret _ s => s
  | Stop _ s => s
  end.

(** The call ends the process through [exit()]. *)
Definition exits {S A} (o : outcome S A) : Prop :=
  match o with
  | Stop ProcessExit _ => True
  | _ => False
  end.

(** [m] relates every state to the state it ends in. *)
Definition keeps {S A} (R : relation S) (m : M S A) : Prop :=
  forall s, R s (final (m s)).

Definition never_exits {S A} (m : M S A) : Prop :=
  forall s, ~ exits (m s).

(** ** The pins *)

(** The indices a loop of [n] turns starting at [i] goes through. *)
Fixpoint indices (n : nat) (i : Z) : list Z :=
  match n with
  | O => []
  | Datatypes.S n' => i :: indices n' (i + 1)
  end.

(** The session after further calls on the pins, [k] of them calls of
    [read()]. *)
Definition advance (evs : list pin_event) (k : nat) (s : jtag_state) : jtag_state :=
  {| cur_state := cur_state s; end_state := end_state s;
     pins := pins s ++ evs; samples := (k + samples s)%nat; jlog := jlog s |}.

(** The number of low-to-high transitions of TCK in a run of calls, TCK
    being at [level] before it. *)
Fixpoint rising_edges (level : Z) (evs : list pin_event) : nat :=
  match evs with
  | [] => O
  | bb_write tck _ _ :: rest =>
      let edge := if (level =? 0) && negb (tck =? 0) then 1%nat else 0%nat in
      (edge + rising_edges tck rest)%nat
  | _ :: rest => rising_edges level rest
  end.

(** The two calls that clock one TMS value with TDI low. *)
Definition tms_clock (tms : Z) : list pin_event :=
  [bb_write 0 tms 0; bb_write 1 tms 0].

(** The levels of TMS and TDI while bit [i] of a scan of [scan_size] bits
    is shifted, and the calls made on the pins for that bit. *)
Definition shift_tms (scan_size i : Z) : Z :=
  if decide (i = scan_size - 1) then 1 else 0.

Definition shift_tdi (type : scan_type) (buffer : list Z) (i : Z) : Z :=
  if decide (type = SCAN_IN) then 0
  else if bit_of buffer i then 1 else 0.

Definition shift_clock (type : scan_type) (buffer : list Z) (scan_size i : Z)
    : list pin_event :=
  [bb_write 0 (shift_tms scan_size i) (shift_tdi type buffer i)]
  ++ (if decide (type = SCAN_OUT) then [] else [bb_read])
  ++ [bb_write 1 (shift_tms scan_size i) (shift_tdi type buffer i)].

(** The number of calls of [read()] per bit of a scan. *)
Definition shift_reads (type : scan_type) : nat :=
  if decide (type = SCAN_OUT) then 0%nat else 1%nat.

(** The level of TDI for bit [i] if it were low for scans that only send
    ([SCAN_OUT]) and taken from the buffer otherwise. *)
Definition tdi_low_when_sending (type : scan_type) (buffer : list Z) (i : Z) : Z :=
  if decide (type = SCAN_OUT) then 0
  else if bit_of buffer i then 1 else 0.

(** ** The byte stream *)

(** The codes of the characters of a string. *)
Fixpoint codes (s : string) : list Z :=
  match s with
  | EmptyString => []
  | String c rest => Z.of_nat (Stdlib.Strings.Ascii.nat_of_ascii c) :: codes rest
  end.

(** The upper-case hex digit of [d], for [d] from 0 to 15. *)
Definition hex_digit (d : Z) : Z :=
  nth (Z.to_nat d) (codes "0123456789ABCDEF") 0.

(** The low byte of [n] as two hex digits, the high one first. *)
Definition two_hex_digits (n : Z) : list Z :=
  [hex_digit (n / 16 mod 16); hex_digit (n mod 16)].


Definition add_txs (evs : list stream_event) (s : swd_state) : swd_state :=
  {| swd_mode := swd_mode s; fd := fd s; queued_retval := queued_retval s;
     local_buf := local_buf s; rx := rx s; tx := tx s ++ evs; slog := slog s |}.

(** The [write()] of one payload byte, and those of the payload loop. *)
Definition byte_write (fd : Z) (x : Z) : stream_event :=
  sys_write fd [GET_UPPER_HEX x; GET_LOWER_HEX x].

Definition payload_writes (fd : Z) (buf : option (list Z)) (data_len : Z)
    : list stream_event :=
  match buf with
  | Some b => map (byte_write fd) (take (Z.to_nat data_len) b)
  | None => []
  end.

Global Instance log_arg_eq_dec : EqDecision log_arg.
Proof. solve_decision. Defined.

Global Instance log_line_eq_dec : EqDecision log_line.
Proof. solve_decision. Defined.

(** The number of calls of [bitbang_swd_write_reg] a log records. *)
Definition write_reg_calls (l : list log_line) : nat :=
  length (filter (fun x => x = LOG_DEBUG "bitbang_swd_write_reg" []) l).

(** What an exchange on the stream can change: it adds to what was sent
    and to the log, and takes from the front of what is to be read; the
    descriptor, the mode flag and the error latch stay, and no call of
    [bitbang_swd_write_reg] is logged. *)
Record transport_step (s s' : swd_state) : Prop := {
  step_fd : fd s' = fd s;
  step_swd_mode : swd_mode s' = swd_mode s;
  step_latch : queued_retval s' = queued_retval s;
  step_tx : exists sent, tx s' = tx s ++ sent;
  step_rx : exists consumed, rx s = consumed ++ rx s';
  step_calls : write_reg_calls (slog s') = write_reg_calls (slog s);
}.

(** What any SWD operation leaves alone: the descriptor and the mode
    flag. *)
Record engine_step (s s' : swd_state) : Prop := {
  eng_fd : fd s' = fd s;
  eng_swd_mode : swd_mode s' = swd_mode s;
  eng_tx : exists sent, tx s' = tx s ++ sent;
  eng_rx : exists consumed, rx s = consumed ++ rx s';
}.

(** Nothing is sent. *)
Definition same_tx (s s' : swd_state) : Prop := tx s' = tx s.

(** Nothing but the log differs. *)
Definition only_logged (s s' : swd_state) : Prop :=
  swd_mode s' = swd_mode s /\ fd s' = fd s /\ queued_retval s' = queued_retval s /\
  local_buf s' = local_buf s /\ rx s' = rx s /\ tx s' = tx s.

(** The call has the fuel to finish, changes what an SWD operation may
    change, and does not end the process through [exit()]. *)
Definition finishes {A} (s : swd_state) (r : option (outcome swd_state A)) : Prop :=
  exists o, r = Some o /\ engine_step s (final o) /\ ~ exits o.

Section Waits.
Context {EC : ErrorCodes} {SC : SwdCore}.

(** The value [swd_clear_sticky_errors] writes. *)
Definition sticky_clear_value : Z :=
  Z.lor (Z.lor (Z.lor STKCMPCLR STKERRCLR) WDERRCLR) ORUNERRCLR.

(** [wait_turns transfer n cmd s cmd' s']: from [s], [n] turns in a row
    of the loop whose transaction is [transfer] are acknowledged WAIT,
    and the write to the abort register that each of them triggers is
    one write transaction, acknowledged OK; the loop is then about to
    send [cmd'] in state [s']. *)
Inductive wait_turns (transfer : Z -> W (Z * list Z))
    : nat -> Z -> swd_state -> Z -> swd_state -> Prop :=
| wait_turns_O cmd s : wait_turns transfer 0 cmd s cmd s
| wait_turns_S n cmd s cmd1 trn s1 acmd atrn s2 s3 cmd' s' :
    transfer cmd s = Ret (cmd1, trn) s1 ->
    buf_get_u32 trn 1 3 = SWD_ACK_WAIT ->
    write_reg_transfer (swd_cmd false false DP_ABORT) sticky_clear_value
      (add_log (LOG_DEBUG "bitbang_swd_write_reg" [])
         (add_log (LOG_DEBUG "SWD_ACK_WAIT" []) s1))
    = Ret (acmd, atrn) s2 ->
    buf_get_u32 atrn 1 3 = SWD_ACK_OK ->
    ap_delay acmd 0 s2 = Ret tt s3 ->
    wait_turns transfer n cmd1 s3 cmd' s' ->
    wait_turns transfer (Datatypes.S n) cmd s cmd' s'.
End Waits.

(** * Sample surroundings, for running the model *)

(** The values of helper/log.h and jtag/jtag.h. *)
Definition sample_error_codes : ErrorCodes :=
  {| ERROR_OK := 0; ERROR_FAIL := -4; ERROR_JTAG_QUEUE_FAILED := -104 |}.

(** The state diagram of IEEE 1149.1. *)
Definition sample_transition (s : tap_state_t) (tms : bool) : tap_state_t :=
  match s with
  | TAP_RESET => if tms then TAP_RESET else TAP_IDLE
  | TAP_IDLE => if tms then TAP_DRSELECT else TAP_IDLE
  | TAP_DRSELECT => if tms then TAP_IRSELECT else TAP_DRCAPTURE
  | TAP_DRCAPTURE => if tms then TAP_DREXIT1 else TAP_DRSHIFT
  | TAP_DRSHIFT => if tms then TAP_DREXIT1 else TAP_DRSHIFT
  | TAP_DREXIT1 => if tms then TAP_DRUPDATE else TAP_DRPAUSE
  | TAP_DRPAUSE => if tms then TAP_DREXIT2 else TAP_DRPAUSE
  | TAP_DREXIT2 => if tms then TAP_DRUPDATE else TAP_DRSHIFT
  | TAP_DRUPDATE => if tms then TAP_DRSELECT else TAP_IDLE
  | TAP_IRSELECT => if tms then TAP_RESET else TAP_IRCAPTURE
  | TAP_IRCAPTURE => if tms then TAP_IREXIT1 else TAP_IRSHIFT
  | TAP_IRSHIFT => if tms then TAP_IREXIT1 else TAP_IRSHIFT
  | TAP_IREXIT1 => if tms then TAP_IRUPDATE else TAP_IRPAUSE
  | TAP_IRPAUSE => if tms then TAP_IREXIT2 else TAP_IRPAUSE
  | TAP_IREXIT2 => if tms then TAP_IRUPDATE else TAP_IRSHIFT
  | TAP_IRUPDATE => if tms then TAP_DRSELECT else TAP_IDLE
  end.

Definition sample_stable (s : tap_state_t) : bool :=
  match s with
  | TAP_RESET | TAP_IDLE | TAP_DRSHIFT | TAP_DRPAUSE | TAP_IRSHIFT | TAP_IRPAUSE => true
  | _ => false
  end.

(** A TMS path between stable states, first value first: to RESET by
    seven ones, else to IDLE and from there on. *)
Definition sample_path (a b : tap_state_t) : list bool :=
  if decide (b = TAP_RESET) then replicate 7 true
  else if decide (a = b) then []
  else
    match a with
    | TAP_RESET => [false]
    | TAP_IDLE => []
    | _ => [true; true; false]
    end
    ++
    match b with
    | TAP_DRSHIFT => [true; false; false]
    | TAP_DRPAUSE => [true; false; true; false]
    | TAP_IRSHIFT => [true; true; false; false]
    | TAP_IRPAUSE => [true; true; false; true; false]
    | _ => []
    end.

(** The integer whose bit [k] is the [k]-th element. *)
Fixpoint bits_value (l : list bool) : Z :=
  match l with
  | [] => 0
  | b :: rest => Z.b2z b + 2 * bits_value rest
  end.

Definition sample_state_code (s : tap_state_t) : Z :=
  match s with
  | TAP_DREXIT2 => 0 | TAP_DREXIT1 => 1 | TAP_DRSHIFT => 2 | TAP_DRPAUSE => 3
  | TAP_IRSELECT => 4 | TAP_DRUPDATE => 5 | TAP_DRCAPTURE => 6 | TAP_DRSELECT => 7
  | TAP_IREXIT2 => 8 | TAP_IREXIT1 => 9 | TAP_IRSHIFT => 10 | TAP_IRPAUSE => 11
  | TAP_IDLE => 12 | TAP_IRUPDATE => 13 | TAP_IRCAPTURE => 14 | TAP_RESET => 15
  end.

Definition sample_state_name (s : tap_state_t) : string :=
  match s with
  | TAP_DREXIT2 => "DREXIT2" | TAP_DREXIT1 => "DREXIT1" | TAP_DRSHIFT => "DRSHIFT"
  | TAP_DRPAUSE => "DRPAUSE" | TAP_IRSELECT => "IRSELECT" | TAP_DRUPDATE => "DRUPDATE"
  | TAP_DRCAPTURE => "DRCAPTURE" | TAP_DRSELECT => "DRSELECT" | TAP_IREXIT2 => "IREXIT2"
  | TAP_IREXIT1 => "IREXIT1" | TAP_IRSHIFT => "IRSHIFT" | TAP_IRPAUSE => "IRPAUSE"
  | TAP_IDLE => "RUN/IDLE" | TAP_IRUPDATE => "IRUPDATE" | TAP_IRCAPTURE => "IRCAPTURE"
  | TAP_RESET => "RESET"
  end.

(** A scan command reduced to what the helpers make of it: the buffer
    and size built, the scan type, and the check run on the buffer that
    comes back. *)
Record sample_fields : Type := {
  sf_buffer : list Z;
  sf_size : Z;
  sf_type : scan_type;
  sf_check : list Z -> Z;
}.

Definition sample_jtag_core : JtagCore sample_fields :=
  {| tap_is_state_stable := sample_stable;
     tap_get_tms_path := fun a b => bits_value (sample_path a b);
     tap_get_tms_path_len := fun a b => Z.of_nat (length (sample_path a b));
     tap_state_transition := sample_transition;
     tap_state_name := sample_state_name;
     tap_state_code := sample_state_code;
     srst_pulls_trst := true;
     jtag_build_buffer := fun c => (sf_buffer (scan_fields c), sf_size (scan_fields c));
     jtag_scan_type := fun c => sf_type (scan_fields c);
     jtag_read_buffer := fun buffer c => sf_check (scan_fields c) buffer |}.

(** Pins whose TDO alternates, starting high, with a [blink] member. *)
Definition sample_interface : bitbang_interface_t :=
  {| bb_tdo := fun k => if Nat.even k then 1 else 0; bb_has_blink := true |}.

Definition sample_session (cur : tap_state_t) : jtag_state :=
  {| cur_state := cur; end_state := cur; pins := []; samples := 0; jlog := [] |}.

(** A scan command whose check rejects whatever comes back. *)
Definition sample_failing_scan : scan_command sample_fields :=
  {| ir_scan := false;
     scan_end_state := TAP_IDLE;
     scan_fields := {| sf_buffer := [5]; sf_size := 3; sf_type := SCAN_IO;
                       sf_check := fun _ => -104 |} |}.

(** Bits [first .. first+n-1] of a byte array as an integer, bit [first]
    the least significant. *)
Fixpoint sample_get_bits (buf : list Z) (first : Z) (n : nat) : Z :=
  match n with
  | O => 0
  | Datatypes.S n' => Z.b2z (bit_of buf first) + 2 * sample_get_bits buf (first + 1) n'
  end.

Fixpoint sample_set_bits (buf : list Z) (first : Z) (n : nat) (value : Z) : list Z :=
  match n with
  | O => buf
  | Datatypes.S n' =>
      sample_set_bits (default buf (store_bit buf first (Z.odd value)))
        (first + 1) n' (value / 2)
  end.

Fixpoint sample_parity (n : nat) (x : Z) : bool :=
  match n with
  | O => false
  | Datatypes.S n' => xorb (Z.odd x) (sample_parity n' (x / 2))
  end.

(** The request bits, acknowledges and ABORT bits that the ARM debug
    interface fixes; line sequences of the lengths it asks for. *)
Definition sample_swd_core : SwdCore :=
  {| SWD_CMD_START := 1;
     SWD_CMD_APnDP := 2;
     SWD_CMD_RnW := 4;
     SWD_CMD_A32 := 24;
     SWD_ACK_OK := 1;
     SWD_ACK_WAIT := 2;
     SWD_ACK_FAULT := 4;
     DP_ABORT := 0;
     STKCMPCLR := 2;
     STKERRCLR := 4;
     WDERRCLR := 8;
     ORUNERRCLR := 16;
     swd_cmd := fun is_read is_ap regnum =>
       let cmd := Z.lor (if is_ap then 2 else 0)
                    (Z.lor (if is_read then 4 else 0) (Z.shiftl (Z.land regnum 12) 1)) in
       if sample_parity 32 cmd then Z.lor cmd 32 else cmd;
     buf_get_u32 := fun buf first num => sample_get_bits buf first (Z.to_nat num);
     buf_set_u32 := fun buf first num value =>
       sample_set_bits buf first (Z.to_nat num) value;
     parity_u32 := fun x => Z.b2z (sample_parity 32 x);
     swd_seq_line_reset := replicate 7 255 ++ [3];
     swd_seq_line_reset_len := 51;
     swd_seq_jtag_to_swd := replicate 7 255 ++ [158; 231] ++ replicate 7 255 ++ [0];
     swd_seq_jtag_to_swd_len := 136;
     swd_seq_swd_to_jtag := replicate 7 255 ++ [60; 231; 255];
     swd_seq_swd_to_jtag_len := 80;
     trn_uninit := [170; 85; 170; 85; 170; 85] |}.

(** The SWD half as the program starts: globals zeroed, the stream still
    to deliver [pending]. *)
Definition sample_boot (pending : list (list Z)) : swd_state :=
  {| swd_mode := false; fd := 0; queued_retval := 0;
     local_buf := replicate 1024 0; rx := pending; tx := []; slog := [] |}.

(** What an adapter sends back: two hex digits per byte. *)
Definition hex_of_bytes (bytes : list Z) : list Z :=
  flat_map (fun b => [GET_UPPER_HEX b; GET_LOWER_HEX b]) bytes.

(** The [n] low bytes of [v], lowest first. *)
Fixpoint le_bytes (n : nat) (v : Z) : list Z :=
  match n with
  | O => []
  | Datatypes.S n' => v mod 256 :: le_bytes n' (v / 256)
  end.

(** The answers to the exchanges of one read transaction: the echo of
    the command byte, then turnaround, ACK, data and parity. *)
Definition sample_read_answer (ack data parity : Z) : list (list Z) :=
  [hex_of_bytes [0];
   hex_of_bytes (le_bytes 5 (2 * ack + 16 * data + 2 ^ 36 * parity))].

(** The answers to the exchanges of one write transaction. *)
Definition sample_write_answer (ack : Z) : list (list Z) :=
  [hex_of_bytes [0]; hex_of_bytes [2 * ack]; hex_of_bytes [0]].

(** The answers to a register read that is acknowledged WAIT twice and
    then OK, with the two writes to the abort register in between
    acknowledged OK; the value read is 0x12345678, whose parity is 1. *)
Definition sample_wait_wait_ok : list (list Z) :=
  sample_read_answer 2 0 0 ++ sample_write_answer 1 ++
  sample_read_answer 2 0 0 ++ sample_write_answer 1 ++
  sample_read_answer 1 305419896 1.

(** * Vocabulary of whole commands, drains and sequences of calls *)

(** ** The TAP driver *)

(** The session with the two TAP states replaced. *)
Definition at_states (c e : tap_state_t) (s : jtag_state) : jtag_state :=
  {| cur_state := c; end_state := e; pins := pins s; samples := samples s; jlog := jlog s |}.

(** The session after one more line of log. *)
Definition logged (l : log_line) (s : jtag_state) : jtag_state :=
  {| cur_state := cur_state s; end_state := end_state s; pins := pins s;
     samples := samples s; jlog := jlog s ++ [l] |}.

(** Bit [i] of a TMS path held in a [uint8_t]. *)
Definition path_bit (tms_scan i : Z) : Z := Z.land (Z.shiftr (u8 tms_scan) i) 1.

(** The calls of [bitbang_state_move(skip)] for a path of [tms_count]
    bits: both clock edges for each bit from [skip] on, then TCK low with
    the TMS of the last bit clocked (0 if none was). *)
Definition move_events (tms_scan tms_count skip : Z) : list pin_event :=
  flat_map (fun i => tms_clock (path_bit tms_scan i))
           (indices (Z.to_nat (tms_count - skip)) skip)
  ++ [bb_write 0 (match Z.to_nat (tms_count - skip) with
                  | O => 0
                  | Datatypes.S m => path_bit tms_scan (skip + Z.of_nat m)
                  end) 0].

(** The TMS levels present at the low-to-high transitions of TCK, that
    is, the levels a TAP controller acts on. *)
Fixpoint clocked_tms (level : Z) (evs : list pin_event) : list bool :=
  match evs with
  | [] => []
  | bb_write tck tms _ :: rest =>
      if (level =? 0) && negb (tck =? 0)
      then negb (tms =? 0) :: clocked_tms tck rest
      else clocked_tms tck rest
  | _ :: rest => clocked_tms level rest
  end.

(** The level of TCK after a run of calls, TCK being at [level] before. *)
Fixpoint tck_after (level : Z) (evs : list pin_event) : Z :=
  match evs with
  | [] => level
  | bb_write tck _ _ :: rest => tck_after tck rest
  | _ :: rest => tck_after level rest
  end.

Section Walk.
Context {F : Type} {JC : JtagCore F}.

(** The states a TAP controller goes through from [cur] under the
    given TMS levels. *)
Fixpoint follow (cur : tap_state_t) (tms : list bool) : list tap_state_t :=
  match tms with
  | [] => []
  | b :: rest => tap_state_transition cur b :: follow (tap_state_transition cur b) rest
  end.

(** Each state of [path] is one transition away from the one before,
    the first from [cur]. *)
Fixpoint is_walk (cur : tap_state_t) (path : list tap_state_t) : Prop :=
  match path with
  | [] => True
  | next :: rest => (exists b, tap_state_transition cur b = next) /\ is_walk next rest
  end.
End Walk.

Section Moves.
Context {F : Type} {JC : JtagCore F}.

(** The calls of the state move from [a] to [b] that skips the first
    [skip] bits of the path; none when [a] is [b] already. *)
Definition move_unless_there (a b : tap_state_t) (skip : Z) : list pin_event :=
  if decide (a = b) then []
  else move_events (tap_get_tms_path a b) (tap_get_tms_path_len a b) skip.
End Moves.

(** The shift state of a scan. *)
Definition shift_state (ir : bool) : tap_state_t :=
  if ir then TAP_IRSHIFT else TAP_DRSHIFT.

(** ** The queue executor *)

(** The call is [blink()]. *)
Definition is_blink (e : pin_event) : bool :=
  match e with
  | bb_blink _ => true
  | _ => false
  end.

(** Calls on the pins none of which is [blink()]. *)
Definition blink_free (evs : list pin_event) : Prop :=
  Forall (fun e => is_blink e = false) evs.

(** From [s] to [s'] calls were only added, none of them [blink()]. *)
Definition pins_grow (s s' : jtag_state) : Prop :=
  exists evs, pins s' = pins s ++ evs /\ blink_free evs.

(** The call [blink(on)] that brackets a drain, if the interface has the
    member. *)
Definition blink_call (bb : bitbang_interface_t) (on : Z) : list pin_event :=
  if bb_has_blink bb then [bb_blink on] else [].

(** The command is a TMS command. *)
Definition is_tms_command {F} (cmd : jtag_command F) : bool :=
  match cmd with
  | JTAG_TMS _ _ => true
  | _ => false
  end.

(** What the SCAN case of the executor does before it calls
    [jtag_read_buffer]; the result is the buffer as the scan leaves it. *)
Definition scan_of {F} `{ErrorCodes} `{JtagCore F} (bb : bitbang_interface_t)
    (scan : scan_command F) : J (list Z) :=
  bitbang_end_state (scan_end_state scan) ;;;
  bitbang_scan bb (ir_scan scan) (jtag_scan_type scan)
    (fst (jtag_build_buffer scan)) (snd (jtag_build_buffer scan)).

(** The session in which the first command of a drain is run: after
    [blink(1)], if the interface has the member. *)
Definition drain_start (bb : bitbang_interface_t) (s : jtag_state) : jtag_state :=
  if bb_has_blink bb then advance [bb_blink 1] 0 s else s.

(** The line a command logs before it ends the process without touching
    the pins: a tag the switch does not know, or an end state that is
    not stable. *)
Definition fatal_line {F} `{JtagCore F} (cmd : jtag_command F) : option log_line :=
  let end_state_line e :=
    if tap_is_state_stable e then None
    else Some (LOG_ERROR "BUG: %i is not a valid end state" [ArgZ (tap_state_code e)]) in
  match cmd with
  | JTAG_RUNTEST _ e => end_state_line e
  | JTAG_TLR_RESET e => end_state_line e
  | JTAG_SCAN scan => end_state_line (scan_end_state scan)
  | JTAG_OTHER _ => Some (LOG_ERROR "BUG: unknown JTAG command type encountered" [])
  | _ => None
  end.

(** ** The byte stream *)

(** [lbuf] with [bytes] stored from index [k] on. *)
Definition overlay (lbuf : list Z) (k : nat) (bytes : list Z) : list Z :=
  take k lbuf ++ bytes ++ drop (k + length bytes) lbuf.

(** The number of bytes an exchange waits for. *)
Definition wanted_bytes (rnw : bool) (offset bit_cnt : Z) : Z :=
  if rnw then DIV_ROUND_UP (bit_cnt + offset) 8 else 1.

(** ** The SWD engine *)

(** A call through [bitbang_swd.read_reg] or [bitbang_swd.write_reg];
    the variable behind [value] of a read is not followed up. *)
Inductive swd_call : Type :=
| call_read (cmd : Z) (value : option Z) (ap_delay_clk : Z)
| call_write (cmd value ap_delay_clk : Z).

Section Calls.
Context {EC : ErrorCodes} {SC : SwdCore}.

(** The command has the direction bit its operation asserts. *)
Definition well_directed (c : swd_call) : Prop :=
  match c with
  | call_read cmd _ _ => Z.land cmd SWD_CMD_RnW <> 0
  | call_write cmd _ _ => Z.land cmd SWD_CMD_RnW = 0
  end.

(** One call; what a read hands back through [value] is dropped. *)
Definition run_call (c : swd_call) (s : swd_state) : option (outcome swd_state unit) :=
  match c with
  | call_read cmd value d =>
      match bitbang_swd_read_reg cmd value d s with
      | Some (Ret _ s') => Some (Ret tt s')
      | Some (Stop f s') => Some (Stop f s')
      | None => None
      end
  | call_write cmd value d => bitbang_swd_write_reg cmd value d s
  end.

(** Calls made one after the other. *)
Fixpoint run_calls (calls : list swd_call) (s : swd_state)
    : option (outcome swd_state unit) :=
  match calls with
  | [] => Some (Ret tt s)
  | c :: rest =>
      match run_call c s with
      | Some (Ret _ s') => run_calls rest s'
      | other => other
      end
  end.

(** What the [switch (ack)] logs for an acknowledge that is neither OK
    nor WAIT. *)
Definition bad_ack_line (ack : Z) : log_line :=
  if decide (ack = SWD_ACK_FAULT) then LOG_DEBUG "SWD_ACK_FAULT" []
  else LOG_DEBUG "No valid acknowledge: ack=%d" [ArgZ ack].

(** The state in which such an acknowledge leaves the operation. *)
Definition latched (ack : Z) (s : swd_state) : swd_state :=
  set_queued_retval ack (add_log (bad_ack_line ack) s).
End Calls.

(** An IR scan of three bits whose check accepts the buffer
    [expected] and no other. *)
Definition sample_checked_scan (expected : list Z) : scan_command sample_fields :=
  {| ir_scan := true;
     scan_end_state := TAP_IRPAUSE;
     scan_fields := {| sf_buffer := [2]; sf_size := 3; sf_type := SCAN_IO;
                       sf_check := fun b => if decide (b = expected) then 0 else -104 |} |}.

(** ** Retries, frames and requests *)

Section Turns.
Context {EC : ErrorCodes} {SC : SwdCore}.

(** [retry_turns transfer n cmd s cmd' s']: from [s], [n] turns in a
    row of the loop whose transaction is [transfer] are acknowledged
    WAIT, and the call of [swd_clear_sticky_errors] that each of them
    makes returns, whatever it does; the loop is then about to send
    [cmd'] in state [s']. *)
Inductive retry_turns (transfer : Z -> W (Z * list Z))
    : nat -> Z -> swd_state -> Z -> swd_state -> Prop :=
| retry_turns_O cmd s : retry_turns transfer 0 cmd s cmd s
| retry_turns_S n cmd s cmd1 trn s1 s2 cmd' s' :
    transfer cmd s = Ret (cmd1, trn) s1 ->
    buf_get_u32 trn 1 3 = SWD_ACK_WAIT ->
    swd_clear_sticky_errors (add_log (LOG_DEBUG "SWD_ACK_WAIT" []) s1)
    = Some (Ret tt s2) ->
    retry_turns transfer n cmd1 s2 cmd' s' ->
    retry_turns transfer (Datatypes.S n) cmd s cmd' s'.
End Turns.

(** *** What a transaction puts on the stream *)

(** The calls of [write()] and [usleep()] of one exchange that returns. *)
Definition exchange_calls (fd : Z) (rnw : bool) (buf : option (list Z))
    (offset bit_cnt : Z) : list stream_event :=
  sys_write fd (exchange_header (if rnw then 241 else 240)
                  (bool_decide (buf <> None)) offset bit_cnt)
  :: (if rnw then match buf with
                  | Some _ => []
                  | None => [sys_usleep 10000]
                  end
      else payload_writes fd buf (DIV_ROUND_UP (bit_cnt + offset) 8)).

Section Frames.
Context {SC : SwdCore}.

(** The command byte as both loops send it: [cmd |= SWD_CMD_START | (1 << 7)]
    in a [uint8_t]. *)
Definition command_byte (cmd : Z) : Z :=
  u8 (Z.lor cmd (Z.lor SWD_CMD_START (Z.shiftl 1 7))).

(** The request that sends the command byte [c]. *)
Definition command_calls (fd c : Z) : list stream_event :=
  [sys_write fd (exchange_header 240 true 0 8); byte_write fd c].

(** One read transaction: the command, the line released, the request
    for turnaround, acknowledge, data, parity and turnaround, the line
    driven again. *)
Definition read_frame (fd c : Z) : list stream_event :=
  command_calls fd c
  ++ [sys_write fd [224];
      sys_write fd (exchange_header 241 true 0 (1 + 3 + 32 + 1 + 1));
      sys_write fd [225]].

(** One write transaction: the command, the line released, the request
    for turnaround, acknowledge and turnaround, the line driven again,
    and the data and parity out of the first five bytes of the array. *)
Definition write_frame (fd c : Z) (trn : list Z) : list stream_event :=
  command_calls fd c
  ++ [sys_write fd [224];
      sys_write fd (exchange_header 241 true 0 (1 + 3 + 1));
      sys_write fd [225];
      sys_write fd (exchange_header 240 true (1 + 3 + 1) (32 + 1))]
  ++ map (byte_write fd) (take 5 trn).

(** The idle clocks after an AP access. *)
Definition delay_calls (fd c ap_delay_clk : Z) : list stream_event :=
  if Z.land c SWD_CMD_APnDP =? 0 then []
  else [sys_write fd (exchange_header 241 false 0 ap_delay_clk); sys_usleep 10000].

(** A write to the abort register as [swd_clear_sticky_errors] makes it,
    acknowledged OK at once, after a transaction acknowledged WAIT. *)
Definition abort_frame (fd : Z) (atrn : list Z) : list stream_event :=
  write_frame fd (command_byte (swd_cmd false false DP_ABORT)) atrn
  ++ delay_calls fd (command_byte (swd_cmd false false DP_ABORT)) 0.
End Frames.

Section AbortTurns.
Context {SC : SwdCore}.

(** The two arrays of a turn acknowledged WAIT: [t.1] is the array of
    a transaction of the access itself, acknowledged WAIT; [t.2] is
    the array of a write transaction of the clear value to the abort
    register, acknowledged OK. *)
Definition abort_turn (transfer : Z -> W (Z * list Z)) (t : list Z * list Z) : Prop :=
  (exists cmd s cmd1 s1, transfer cmd s = Ret (cmd1, t.1) s1) /\
  buf_get_u32 t.1 1 3 = SWD_ACK_WAIT /\
  exists acmd s s2,
    write_reg_transfer (swd_cmd false false DP_ABORT) sticky_clear_value s
    = Ret (acmd, t.2) s2 /\
    buf_get_u32 t.2 1 3 = SWD_ACK_OK.
End AbortTurns.

(** The answers to a register read that is acknowledged WAIT twice and
    then OK, the write to the abort register after the first WAIT being
    acknowledged FAULT. *)
Definition sample_wait_fault_wait_ok : list (list Z) :=
  sample_read_answer 2 0 0 ++ sample_write_answer 4 ++
  sample_read_answer 2 0 0 ++ sample_read_answer 1 305419896 1.


Section SwitchFrames.
Context {SC : SwdCore}.

(** The request a switch sequence starts with; none for a sequence the
    [switch] has no case for. *)
Definition switch_seq_request (seq : swd_special_seq) : option (list Z) :=
  match seq with
  | LINE_RESET => Some (exchange_header 240 true 0 swd_seq_line_reset_len)
  | JTAG_TO_SWD => Some (exchange_header 240 true 0 swd_seq_jtag_to_swd_len)
  | SWD_TO_JTAG => Some (exchange_header 240 true 0 swd_seq_swd_to_jtag_len)
  | SEQ_OTHER _ => None
  end.
End SwitchFrames.

(** * Properties *)

Ltac Zify.zify_post_hook ::= Z.to_euclidean_division_equations.

(** ** Calls in sequence *)

Lemma bind_Ret {S A B} (m : M S A) (k : A -> M S B) s b s' :
  bind m k s = Ret b s' -> exists a s1, m s = Ret a s1 /\ k a s1 = Ret b s'.
Proof.
  unfold bind. destruct (m s) as [a s1|]; [|discriminate]. eauto.
Qed.

Lemma keeps_Ret {S A} (R : relation S) (m : M S A) s a s' :
  keeps R m -> m s = Ret a s' -> R s s'.
Proof. intros H E. specialize (H s). by rewrite E in H. Qed.

Section Keeps.
Context {S : Type} (R : relation S) `{!PreOrder R}.

Lemma keeps_ret {A} (a : A) : keeps R (ret a).
Proof. intros s. simpl. reflexivity. Qed.

Lemma keeps_stop {A} f : keeps R (@stop S A f).
Proof. intros s. simpl. reflexivity. Qed.

Lemma keeps_bind {A B} (m : M S A) (k : A -> M S B) :
  keeps R m -> (forall a, keeps R (k a)) -> keeps R (bind m k).
Proof.
  intros Hm Hk s. unfold bind. specialize (Hm s).
  destruct (m s) as [a s'|f s']; simpl in *; [|done].
  etransitivity; [exact Hm|apply Hk].
Qed.

Lemma keeps_iter {A} (body : Z -> A -> M S A) :
  (forall i a, keeps R (body i a)) ->
  forall n i a, keeps R (iter_from n i body a).
Proof.
  intros Hb. induction n as [|n IH]; intros i a; simpl.
  - apply keeps_ret.
  - apply keeps_bind; [apply Hb|]. intros a'. apply IH.
Qed.
End Keeps.

Lemma never_exits_ret {S A} (a : A) : never_exits (@ret S A a).
Proof. intros s. simpl. auto. Qed.

Lemma never_exits_bind {S A B} (m : M S A) (k : A -> M S B) :
  never_exits m -> (forall a, never_exits (k a)) -> never_exits (bind m k).
Proof.
  intros Hm Hk s. unfold bind. specialize (Hm s).
  destruct (m s) as [a s'|f s']; [apply Hk|done].
Qed.

Lemma never_exits_iter {S A} (body : Z -> A -> M S A) :
  (forall i a, never_exits (body i a)) ->
  forall n i a, never_exits (iter_from n i body a).
Proof.
  intros Hb. induction n as [|n IH]; intros i a; simpl.
  - apply never_exits_ret.
  - apply never_exits_bind; [apply Hb|]. intros a'. apply IH.
Qed.

(** ** Bits of a byte array *)

Lemma testbit_1 n : Z.testbit 1 n = bool_decide (n = 0).
Proof. destruct n; reflexivity. Qed.

Lemma testbit_shiftl_1 k n : 0 <= k -> 0 <= n ->
  Z.testbit (Z.shiftl 1 k) n = bool_decide (n = k).
Proof.
  intros Hk Hn. rewrite Z.shiftl_spec, testbit_1 by lia.
  apply bool_decide_ext. lia.
Qed.

Lemma land_bit b k : 0 <= k ->
  (Z.land b (Z.shiftl 1 k) =? 0) = negb (Z.testbit b k).
Proof.
  intros Hk. destruct (Z.testbit b k) eqn:E; simpl.
  - apply Z.eqb_neq. intros H0.
    assert (Z.testbit (Z.land b (Z.shiftl 1 k)) k = true) as H1.
    { rewrite Z.land_spec, E, testbit_shiftl_1 by lia. by rewrite bool_decide_eq_true_2. }
    rewrite H0, Z.testbit_0_l in H1. discriminate.
  - apply Z.eqb_eq. apply Z.bits_inj'. intros n Hn.
    rewrite Z.land_spec, testbit_shiftl_1, Z.testbit_0_l by lia.
    case_bool_decide; subst; [by rewrite E | by rewrite andb_false_r].
Qed.

Lemma testbit_u8 x k : 0 <= k < 8 -> Z.testbit (u8 x) k = Z.testbit x k.
Proof. intros Hk. unfold u8. change 256 with (2 ^ 8). apply Z.mod_pow2_bits_low. lia. Qed.

Lemma at_index_Some (a : list Z) i :
  0 <= i < Z.of_nat (length a) -> exists b, at_index a i = Some b.
Proof.
  intros Hi. unfold at_index. destruct (Z.ltb_spec i 0); [lia|].
  destruct (lookup_lt_is_Some_2 a (Z.to_nat i)) as [b Hb]; [lia|]. eauto.
Qed.

Lemma at_index_bounds (a : list Z) i b :
  at_index a i = Some b -> 0 <= i < Z.of_nat (length a).
Proof.
  unfold at_index. destruct (Z.ltb_spec i 0); [discriminate|].
  intros Hb. apply lookup_lt_Some in Hb. lia.
Qed.

Lemma at_index_set_eq (a : list Z) i v :
  0 <= i < Z.of_nat (length a) -> at_index (set_index a i v) i = Some v.
Proof.
  intros Hi. unfold at_index, set_index. destruct (Z.ltb_spec i 0); [lia|].
  apply list_lookup_insert_eq. lia.
Qed.

Lemma at_index_set_ne (a : list Z) i j v :
  0 <= i -> i <> j -> at_index (set_index a i v) j = at_index a j.
Proof.
  intros Hi Hne. unfold at_index, set_index. destruct (Z.ltb_spec j 0); [done|].
  apply list_lookup_insert_ne. lia.
Qed.

Lemma length_set_index (a : list Z) i v : length (set_index a i v) = length a.
Proof. apply length_insert. Qed.

Lemma load_bit_bit_of buf i :
  0 <= i < 8 * Z.of_nat (length buf) -> load_bit buf i = Some (bit_of buf i).
Proof.
  intros Hi. unfold load_bit, bit_of.
  destruct (at_index_Some buf (i / 8)) as [b ->]; [lia|].
  rewrite land_bit by lia. by rewrite negb_involutive.
Qed.

Lemma load_bit_Some buf i v :
  0 <= i -> load_bit buf i = Some v ->
  v = bit_of buf i /\ i < 8 * Z.of_nat (length buf).
Proof.
  intros Hi H.
  assert (Hr : 0 <= i < 8 * Z.of_nat (length buf)).
  { unfold load_bit in H. destruct (at_index buf (i / 8)) as [b|] eqn:E; [|discriminate].
    apply at_index_bounds in E. lia. }
  rewrite load_bit_bit_of in H by done. inversion H. split; [done|lia].
Qed.

(** Storing bit [i] sets it and leaves every other bit. *)
Lemma store_bit_spec buf i v :
  0 <= i < 8 * Z.of_nat (length buf) ->
  exists buf', store_bit buf i v = Some buf' /\
    length buf' = length buf /\
    bit_of buf' i = v /\
    forall j, j <> i -> bit_of buf' j = bit_of buf j.
Proof.
  intros Hi. unfold store_bit.
  destruct (at_index_Some buf (i / 8)) as [b Hb]; [lia|]. rewrite Hb.
  eexists. split; [reflexivity|]. split; [apply length_set_index|].
  assert (Hk : 0 <= i mod 8 < 8) by lia.
  split.
  - unfold bit_of. rewrite at_index_set_eq by lia.
    destruct v; rewrite testbit_u8 by lia.
    + rewrite Z.lor_spec, testbit_shiftl_1 by lia.
      rewrite bool_decide_eq_true_2 by done. apply orb_true_r.
    + rewrite Z.land_spec, Z.lnot_spec, testbit_shiftl_1 by lia.
      rewrite bool_decide_eq_true_2 by done. apply andb_false_r.
  - intros j Hj. unfold bit_of.
    destruct (decide (i / 8 = j / 8)) as [E|E].
    + rewrite <- E, at_index_set_eq, Hb by lia.
      assert (Hk' : 0 <= j mod 8 < 8) by lia.
      assert (j mod 8 <> i mod 8) by lia.
      destruct v; rewrite testbit_u8 by lia.
      * rewrite Z.lor_spec, testbit_shiftl_1 by lia.
        rewrite bool_decide_eq_false_2 by done. apply orb_false_r.
      * rewrite Z.land_spec, Z.lnot_spec, testbit_shiftl_1 by lia.
        rewrite bool_decide_eq_false_2 by done. apply andb_true_r.
    + rewrite at_index_set_ne by lia. done.
Qed.

(** ** The TAP driver *)

Lemma advance_nil s : advance [] 0 s = s.
Proof. destruct s; unfold advance; simpl. by rewrite app_nil_r. Qed.

Lemma advance_advance a j b k s :
  advance b k (advance a j s) = advance (a ++ b) (k + j) s.
Proof. unfold advance; simpl. f_equal; [by rewrite app_assoc|lia]. Qed.

Lemma clock_tms_run tms s : clock_tms tms s = Ret tms (advance (tms_clock tms) 0 s).
Proof.
  unfold clock_tms, bb_do_write, bind, ret, emit, advance; simpl.
  by rewrite <- app_assoc.
Qed.

(** A loop whose turns clock the TMS value [f i]. *)
Lemma iter_clock_tms (f : Z -> Z) n i a s :
  iter_from n i (fun i _ => clock_tms (f i)) a s =
  Ret (match n with O => a | Datatypes.S m => f (i + Z.of_nat m) end)
      (advance (flat_map (fun k => tms_clock (f k)) (indices n i)) 0 s).
Proof.
  revert i a s. induction n as [|n IH]; intros i a s; simpl.
  - unfold ret. by rewrite advance_nil.
  - unfold bind at 1. rewrite clock_tms_run, IH, advance_advance.
    f_equal. destruct n as [|m]; simpl; f_equal; lia.
Qed.

Lemma length_indices n i : length (indices n i) = n.
Proof. revert i. induction n; intros; simpl; auto. Qed.

Lemma rising_edges_clocks (f : Z -> Z) l level tms :
  rising_edges level (flat_map (fun k => tms_clock (f k)) l ++ [bb_write 0 tms 0])
  = length l.
Proof.
  revert level. induction l as [|k l IH]; intros level; simpl.
  - by destruct (level =? 0).
  - rewrite IH. by destruct (level =? 0).
Qed.

Lemma Forall_tms_clocks (f : Z -> Z) l :
  Forall (fun e => exists tck tms, e = bb_write tck tms 0)
         (flat_map (fun k => tms_clock (f k)) l).
Proof.
  induction l as [|k l IH]; simpl; [constructor|].
  repeat (constructor; [by eexists _, _|]). exact IH.
Qed.

(** C8: from any state [A] with any end state [B] (the stable ones among
    them) for which the oracle reports a path length that is not negative,
    [bitbang_state_move(0)] returns; the calls it makes on the pins
    contain exactly that many low-to-high transitions of TCK, whatever
    the level of TCK before; each of them is a write with TDI at 0; the
    last one writes TCK low; and the current state is [B] afterwards. *)
Theorem state_move_pulses_tdi_idle_end
    {F : Type} {JC : JtagCore F} (A B : tap_state_t)
    (before : list pin_event) (n : nat) (l : list log_line) :
  0 <= tap_get_tms_path_len A B ->
  exists evs s',
    bitbang_state_move 0
      {| cur_state := A; end_state := B; pins := before; samples := n; jlog := l |}
    = Ret tt s' /\
    pins s' = before ++ evs /\
    (forall level, Z.of_nat (rising_edges level evs) = tap_get_tms_path_len A B) /\
    Forall (fun e => exists tck tms, e = bb_write tck tms 0) evs /\
    (exists tms, last evs = Some (bb_write 0 tms 0)) /\
    cur_state s' = B /\ end_state s' = B.
Proof.
  intros Hlen.
  unfold bitbang_state_move, for_range.
  unfold bind at 1; simpl. unfold bind at 1; simpl.
  unfold bind at 1. rewrite iter_clock_tms.
  set (f := fun i => Z.land (Z.shiftr (u8 (tap_get_tms_path A B)) i) 1).
  set (k := Z.to_nat (tap_get_tms_path_len A B - 0)).
  set (tms := match k with O => 0 | Datatypes.S m => f (0 + Z.of_nat m) end).
  unfold bind, bb_do_write, emit, advance; simpl.
  eexists _, _. split; [reflexivity|]. simpl.
  split; [by rewrite <- app_assoc|].
  split.
  { intros level. unfold CLOCK_IDLE. rewrite rising_edges_clocks, length_indices.
    subst k. lia. }
  split.
  { apply Forall_app. split; [apply Forall_tms_clocks|].
    constructor; [by eexists _, _|constructor]. }
  split; [|done].
  exists tms. by rewrite last_snoc.
Qed.

(** The move from Run-Test/Idle to Shift-DR under the sample oracle: three
    pulses. *)
Lemma state_move_pulses_tdi_idle_end_witness :
  0 <= tap_get_tms_path_len (JtagCore := sample_jtag_core) TAP_IDLE TAP_DRSHIFT /\
  exists evs s',
    bitbang_state_move (JC := sample_jtag_core) 0
      {| cur_state := TAP_IDLE; end_state := TAP_DRSHIFT; pins := [];
         samples := 0; jlog := [] |}
    = Ret tt s' /\
    pins s' = [] ++ evs /\
    (forall level, Z.of_nat (rising_edges level evs) = 3) /\
    Forall (fun e => exists tck tms, e = bb_write tck tms 0) evs /\
    (exists tms, last evs = Some (bb_write 0 tms 0)) /\
    cur_state s' = TAP_DRSHIFT /\ end_state s' = TAP_DRSHIFT.
Proof.
  assert (H : 0 <= tap_get_tms_path_len (JtagCore := sample_jtag_core) TAP_IDLE TAP_DRSHIFT)
    by (simpl; lia).
  split; [exact H|].
  exact (state_move_pulses_tdi_idle_end (JC := sample_jtag_core)
           TAP_IDLE TAP_DRSHIFT [] 0 [] H).
Defined.

(** The paths of the sample oracle lead where they should. *)
Lemma sample_path_sound a b :
  sample_stable a = true -> sample_stable b = true ->
  foldl sample_transition a (sample_path a b) = b.
Proof. destruct a, b; simpl; intros; try discriminate; reflexivity. Qed.

Lemma shift_clock_ext type b1 b2 N i :
  bit_of b1 i = bit_of b2 i -> shift_clock type b1 N i = shift_clock type b2 N i.
Proof. intros E. unfold shift_clock, shift_tdi. by rewrite E. Qed.

(** One turn of the shift loop. *)
Lemma scan_bit_run bb type scan_size i cur s :
  0 <= i < 8 * Z.of_nat (length cur) ->
  exists cur',
    scan_bit bb type scan_size i cur s
    = Ret cur' (advance (shift_clock type cur scan_size i) (shift_reads type) s) /\
    length cur' = length cur /\
    (type = SCAN_OUT -> cur' = cur) /\
    (type <> SCAN_OUT ->
     bit_of cur' i = negb (bb_tdo bb (samples s) =? 0) /\
     forall j, j <> i -> bit_of cur' j = bit_of cur j).
Proof.
  intros Hi. unfold scan_bit, shift_clock, shift_reads, shift_tdi, shift_tms.
  set (tms := if decide (i = scan_size - 1) then 1 else 0).
  destruct (store_bit_spec cur i (negb (bb_tdo bb (samples s) =? 0)) Hi)
    as (cur' & Hst & Hlen & Hbit & Hframe).
  destruct type; simpl.
  - exists cur'. unfold bind, ret, bb_do_write, bb_do_read, emit; simpl.
    rewrite Hst. split; [|done].
    unfold advance; simpl. by rewrite <- !app_assoc.
  - exists cur. rewrite load_bit_bit_of by done.
    destruct (bit_of cur i); (split; [|done]);
      unfold bind, ret, bb_do_write, emit, advance; simpl;
      by rewrite <- !app_assoc.
  - exists cur'. rewrite load_bit_bit_of by done.
    split; [|done].
    destruct (bit_of cur i);
      unfold bind, ret, bb_do_write, bb_do_read, emit, advance; simpl;
      rewrite Hst; by rewrite <- !app_assoc.
Qed.

(** The shift loop from bit [i] on, [cur] agreeing with the buffer of the
    call on the bits not yet shifted. *)
Lemma scan_loop bb type scan_size buffer n :
  forall i cur s,
    0 <= i -> i + Z.of_nat n <= 8 * Z.of_nat (length cur) ->
    (forall j, i <= j -> bit_of cur j = bit_of buffer j) ->
    exists cur',
      iter_from n i (scan_bit bb type scan_size) cur s
      = Ret cur' (advance (flat_map (shift_clock type buffer scan_size) (indices n i))
                    (n * shift_reads type) s) /\
      length cur' = length cur /\
      (type = SCAN_OUT -> cur' = cur) /\
      (forall j, j < i \/ i + Z.of_nat n <= j -> bit_of cur' j = bit_of cur j) /\
      (type <> SCAN_OUT -> forall j, i <= j < i + Z.of_nat n ->
         bit_of cur' j = negb (bb_tdo bb (samples s + Z.to_nat (j - i)) =? 0)).
Proof.
  induction n as [|n IH]; intros i cur s Hi Hlen Hcur.
  - exists cur. simpl. unfold ret. rewrite advance_nil.
    repeat split; auto. intros _ j Hj. lia.
  - destruct (scan_bit_run bb type scan_size i cur s) as (cur1 & Hrun & Hl1 & Hout & Hin); [lia|].
    assert (Hcur1 : forall j, i + 1 <= j -> bit_of cur1 j = bit_of buffer j).
    { intros j Hj. rewrite <- Hcur by lia.
      destruct (decide (type = SCAN_OUT)) as [E|E].
      - by rewrite (Hout E).
      - apply (Hin E). lia. }
    destruct (IH (i + 1) cur1
                (advance (shift_clock type cur scan_size i) (shift_reads type) s))
      as (cur' & Hloop & Hl' & Hout' & Hframe & Hbits); [lia|rewrite Hl1; lia|done|].
    exists cur'. split.
    { simpl. unfold bind at 1. rewrite Hrun, Hloop, advance_advance.
      rewrite (shift_clock_ext type cur buffer) by (apply Hcur; lia).
      do 2 f_equal. lia. }
    split; [congruence|].
    split; [intros E; rewrite (Hout' E); auto|].
    split.
    { intros j Hj. rewrite Hframe by lia.
      destruct (decide (type = SCAN_OUT)) as [E|E].
      - by rewrite (Hout E).
      - apply (Hin E). lia. }
    intros E j Hj. destruct (decide (j = i)) as [->|Hne].
    + rewrite Hframe by lia. rewrite (proj1 (Hin E)).
      replace (samples s + Z.to_nat (i - i))%nat with (samples s) by lia. done.
    + rewrite (Hbits E) by lia. simpl. unfold shift_reads.
      rewrite decide_False by done.
      do 3 f_equal. lia.
Qed.

(** C5, as the code has it: the shift loop of a scan of [scan_size] bits
    over a buffer that holds them returns; for each bit index [i] from 0
    on, in order, it writes TCK low, calls [read()] unless the scan only
    sends ([SCAN_OUT]), and writes TCK high, TMS being 1 in both writes if
    and only if [i = scan_size - 1], and TDI being bit [i] of the buffer
    as the call received it unless the scan only receives ([SCAN_IN]), in
    which case TDI is 0; unless the scan only sends, bit [i] of the buffer
    ends up set exactly when the [read()] of that bit returned non-zero;
    no other bit of the buffer changes. *)
Theorem scan_shift_bits (bb : bitbang_interface_t) (type : scan_type)
    (buffer : list Z) (scan_size : Z) (s : jtag_state) :
  scan_size <= 8 * Z.of_nat (length buffer) ->
  exists buffer',
    bitbang_scan_bits bb type buffer scan_size s
    = Ret buffer'
        (advance (flat_map (shift_clock type buffer scan_size)
                    (indices (Z.to_nat scan_size) 0))
           (Z.to_nat scan_size * shift_reads type) s) /\
    length buffer' = length buffer /\
    (forall i, 0 <= i < scan_size -> type <> SCAN_OUT ->
       bit_of buffer' i = negb (bb_tdo bb (samples s + Z.to_nat i) =? 0)) /\
    (forall i, 0 <= i < scan_size -> type = SCAN_OUT ->
       bit_of buffer' i = bit_of buffer i) /\
    (forall i, i < 0 \/ scan_size <= i -> bit_of buffer' i = bit_of buffer i).
Proof.
  intros Hlen. unfold bitbang_scan_bits, for_range.
  destruct (scan_loop bb type scan_size buffer (Z.to_nat (scan_size - 0)) 0 buffer s)
    as (buffer' & Hrun & Hl & Hout & Hframe & Hbits); [lia|lia|done|].
  exists buffer'. rewrite Z.sub_0_r in *.
  split; [done|]. split; [done|].
  split.
  { intros i Hi E. rewrite (Hbits E) by lia. by rewrite Z.sub_0_r. }
  split.
  { intros i Hi E. by rewrite (Hout E). }
  intros i Hi. apply Hframe. lia.
Qed.

(** A three-bit scan in both directions over the byte 0b101, TDO
    alternating from high: the byte comes back the same. *)
Lemma scan_shift_bits_witness :
  3 <= 8 * Z.of_nat (length [5]) /\
  exists buffer',
    bitbang_scan_bits sample_interface SCAN_IO [5] 3 (sample_session TAP_DRSHIFT)
    = Ret buffer'
        (advance (flat_map (shift_clock SCAN_IO [5] 3) (indices (Z.to_nat 3) 0))
           (Z.to_nat 3 * shift_reads SCAN_IO) (sample_session TAP_DRSHIFT)) /\
    length buffer' = length [5] /\
    (forall i, 0 <= i < 3 -> SCAN_IO <> SCAN_OUT ->
       bit_of buffer' i
       = negb (bb_tdo sample_interface
                 (samples (sample_session TAP_DRSHIFT) + Z.to_nat i) =? 0)) /\
    (forall i, 0 <= i < 3 -> SCAN_IO = SCAN_OUT -> bit_of buffer' i = bit_of [5] i) /\
    (forall i, i < 0 \/ 3 <= i -> bit_of buffer' i = bit_of [5] i).
Proof.
  assert (H : 3 <= 8 * Z.of_nat (length [5])) by (simpl; lia).
  split; [exact H|].
  exact (scan_shift_bits sample_interface SCAN_IO [5] 3 (sample_session TAP_DRSHIFT) H).
Defined.

(** C5 as stated fails: in a scan that only sends, TDI carries bit 0 of
    the buffer, here a 1, and is not held at 0; in a scan that only
    receives, TDI is 0 although bit 0 of the buffer is 1. *)
Lemma scan_tdi_direction_counterexample :
  (exists s',
     bitbang_scan_bits sample_interface SCAN_OUT [1] 1 (sample_session TAP_DRSHIFT)
       = Ret [1] s' /\
     pins s' = [bb_write 0 1 1; bb_write 1 1 1] /\
     tdi_low_when_sending SCAN_OUT [1] 0 = 0) /\
  (exists s',
     bitbang_scan_bits sample_interface SCAN_IN [1] 1 (sample_session TAP_DRSHIFT)
       = Ret [1] s' /\
     pins s' = [bb_write 0 1 0; bb_read; bb_write 1 1 0] /\
     tdi_low_when_sending SCAN_IN [1] 0 = 1).
Proof. split; (eexists; split; [reflexivity|split; reflexivity]). Qed.

(** ** The queue executor *)

Section Queue.
Context {F : Type} {EC : ErrorCodes} {JC : JtagCore F}.

Lemma execute_commands_app bb (q1 q2 : list (jtag_command F)) r s :
  execute_commands bb (q1 ++ q2) r s =
  (r' <- execute_commands bb q1 r ;; execute_commands bb q2 r') s.
Proof.
  revert r s. induction q1 as [|c q1 IH]; intros r s; simpl.
  - reflexivity.
  - unfold bind. destruct (execute_command bb c r s) as [r1 s1|f s1]; [|done].
    by rewrite IH.
Qed.

Lemma execute_tms_status num_bits bits s r s' :
  bitbang_execute_tms num_bits bits s = Ret r s' -> r = ERROR_OK.
Proof.
  unfold bitbang_execute_tms. intros H.
  apply bind_Ret in H as (tms & s1 & _ & H).
  apply bind_Ret in H as (u & s2 & _ & H). by inversion H.
Qed.

(** A scan whose check fails sets the status and returns like any
    other: the commands after it are run. *)
Lemma failed_scan_returns bb (scan : scan_command F) retval s buffer' s' :
  (bitbang_end_state (scan_end_state scan) ;;;
   bitbang_scan bb (ir_scan scan) (jtag_scan_type scan)
     (fst (jtag_build_buffer scan)) (snd (jtag_build_buffer scan))) s
    = Ret buffer' s' ->
  jtag_read_buffer buffer' scan <> ERROR_OK ->
  execute_command bb (JTAG_SCAN scan) retval s = Ret ERROR_JTAG_QUEUE_FAILED s'.
Proof.
  intros H Hf. simpl. destruct (jtag_build_buffer scan) as [buffer scan_size]. simpl in H.
  apply bind_Ret in H as (u & s1 & H1 & H).
  unfold bind at 1. rewrite H1. unfold bind at 1. rewrite H.
  by rewrite decide_False.
Qed.

(** Commands other than a TMS command never turn a failed status back
    into success. *)
Lemma failure_kept_by_other_commands bb (cmd : jtag_command F) s r s' :
  (forall num_bits bits, cmd <> JTAG_TMS num_bits bits) ->
  execute_command bb cmd ERROR_JTAG_QUEUE_FAILED s = Ret r s' ->
  r = ERROR_JTAG_QUEUE_FAILED.
Proof.
  intros Hc H. destruct cmd; simpl in H.
  - apply bind_Ret in H as (? & ? & _ & H).
    apply bind_Ret in H as (? & ? & _ & H). by inversion H.
  - apply bind_Ret in H as (? & ? & _ & H).
    apply bind_Ret in H as (? & ? & _ & H). by inversion H.
  - apply bind_Ret in H as (? & ? & _ & H). by inversion H.
  - apply bind_Ret in H as (? & ? & _ & H).
    apply bind_Ret in H as (? & ? & _ & H). by inversion H.
  - apply bind_Ret in H as (? & ? & _ & H). by inversion H.
  - apply bind_Ret in H as (? & ? & _ & H).
    destruct (jtag_build_buffer scan) as [buffer scan_size].
    apply bind_Ret in H as (b' & ? & _ & H).
    destruct (decide (jtag_read_buffer b' scan = ERROR_OK)); by inversion H.
  - apply bind_Ret in H as (? & ? & _ & H). by inversion H.
  - by destruct (Hc num_bits bits).
  - apply bind_Ret in H as (? & ? & _ & H). discriminate.
Qed.

(** C1, where the code departs from it: a queue that ends in a TMS
    command and is drained to the end returns [ERROR_OK], whatever the
    checks of the scans before it reported, because the status of
    [bitbang_execute_tms] is stored over the status so far. *)
Theorem tms_command_resets_queue_status
    (bb : bitbang_interface_t) (queue : list (jtag_command F))
    (num_bits : Z) (bits : list Z) (s : jtag_state) (r : Z) (s' : jtag_state) :
  bitbang_execute_queue (Some bb) (queue ++ [JTAG_TMS num_bits bits]) s = Ret r s' ->
  r = ERROR_OK.
Proof.
  unfold bitbang_execute_queue. intros H.
  apply bind_Ret in H as (u & s1 & _ & H).
  apply bind_Ret in H as (r1 & s2 & H2 & H).
  apply bind_Ret in H as (u' & s3 & _ & H). inversion H; subst r1 s3; clear H.
  rewrite execute_commands_app in H2.
  apply bind_Ret in H2 as (r0 & s4 & _ & H2). simpl in H2.
  apply bind_Ret in H2 as (r1 & s5 & H5 & H2). inversion H2; subst r1 s5; clear H2.
  by apply execute_tms_status in H5.
Qed.

(** Called while [bitbang_interface] is null, the executor logs and
    exits, and does nothing else. *)
Lemma execute_queue_uninitialized (queue : list (jtag_command F)) s :
  bitbang_execute_queue None queue s =
  Stop ProcessExit
    {| cur_state := cur_state s; end_state := end_state s; pins := pins s;
       samples := samples s;
       jlog := jlog s ++ [LOG_ERROR "BUG: Bitbang interface called, but not yet initialized" []] |}.
Proof. reflexivity. Qed.
End Queue.

(** A scan whose check fails, then two TMS bits: the drain returns
    [ERROR_OK]. *)
Lemma tms_command_resets_queue_status_witness :
  exists r s',
    bitbang_execute_queue (EC := sample_error_codes) (JC := sample_jtag_core)
      (Some sample_interface) ([JTAG_SCAN sample_failing_scan] ++ [JTAG_TMS 2 [1]])
      (sample_session TAP_IDLE) = Ret r s' /\
    r = 0.
Proof.
  destruct (bitbang_execute_queue (EC := sample_error_codes) (JC := sample_jtag_core)
              (Some sample_interface) ([JTAG_SCAN sample_failing_scan] ++ [JTAG_TMS 2 [1]])
              (sample_session TAP_IDLE)) as [r s'|f s'] eqn:E.
  - exists r, s'. split; [reflexivity|].
    exact (tms_command_resets_queue_status (EC := sample_error_codes)
             (JC := sample_jtag_core) sample_interface [JTAG_SCAN sample_failing_scan]
             2 [1] (sample_session TAP_IDLE) r s' E).
  - vm_compute in E. discriminate.
Defined.

(** The same queue without the TMS command returns the failure, and the
    check of the scan did fail in both. *)
Lemma failed_scan_alone_reports_failure :
  (exists s',
     bitbang_execute_queue (EC := sample_error_codes) (JC := sample_jtag_core)
       (Some sample_interface) [JTAG_SCAN sample_failing_scan] (sample_session TAP_IDLE)
     = Ret (-104) s') /\
  (exists s',
     bitbang_execute_queue (EC := sample_error_codes) (JC := sample_jtag_core)
       (Some sample_interface) [JTAG_SCAN sample_failing_scan; JTAG_TMS 2 [1]]
       (sample_session TAP_IDLE)
     = Ret 0 s') /\
  forall buffer,
    jtag_read_buffer (JtagCore := sample_jtag_core) buffer sample_failing_scan
    <> ERROR_OK (ErrorCodes := sample_error_codes).
Proof.
  split; [|split].
  - eexists. vm_compute. reflexivity.
  - eexists. vm_compute. reflexivity.
  - intros buffer. simpl. discriminate.
Qed.

(** ** The byte stream *)

Lemma transport_step_refl s : transport_step s s.
Proof.
  split; auto.
  - exists []. by rewrite app_nil_r.
  - by exists [].
Qed.

Lemma transport_step_trans s1 s2 s3 :
  transport_step s1 s2 -> transport_step s2 s3 -> transport_step s1 s3.
Proof.
  intros [F1 M1 L1 [t1 T1] [c1 R1] C1] [F2 M2 L2 [t2 T2] [c2 R2] C2].
  split; try congruence.
  - exists (t1 ++ t2). rewrite T2, T1. by rewrite app_assoc.
  - exists (c1 ++ c2). rewrite R1, R2. by rewrite app_assoc.
Qed.

Lemma transport_step_rx_length s s' :
  transport_step s s' -> (length (rx s') <= length (rx s))%nat.
Proof. intros [_ _ _ _ [c ->] _]. rewrite length_app. lia. Qed.

Lemma write_reg_calls_app l1 l2 :
  write_reg_calls (l1 ++ l2) = (write_reg_calls l1 + write_reg_calls l2)%nat.
Proof. unfold write_reg_calls. by rewrite filter_app, length_app. Qed.

Lemma step_add_log s l :
  write_reg_calls [l] = 0%nat -> transport_step s (add_log l s).
Proof.
  intros H. split; simpl; auto.
  - exists []. by rewrite app_nil_r.
  - by exists [].
  - rewrite write_reg_calls_app, H. lia.
Qed.

Lemma step_add_tx s e : transport_step s (add_tx e s).
Proof.
  split; simpl; auto.
  - by exists [e].
  - by exists [].
Qed.

(* assemble *)
Lemma assemble_count hex : forall d lb d' lb',
  assemble hex d lb = Some (d', lb') ->
  d' = d + Z.of_nat (length hex) /\ length lb' = length lb.
Proof.
  induction hex as [|c hex IH]; intros d lb d' lb' H; simpl in H.
  - inversion H; subst. split; [simpl; lia|done].
  - destruct (at_index lb (d / 2)); [|discriminate].
    apply IH in H. rewrite length_set_index in H. simpl length. lia.
Qed.


(* receive *)
Lemma receive_loop_step chunks : forall d want s,
  rx s = chunks ->
  transport_step s (final (receive_loop chunks d want s)) /\
  ~ exits (receive_loop chunks d want s).
Proof.
  induction chunks as [|hex rest IH]; intros d want s Hrx; simpl.
  - assert (St : transport_step s (set_rx [] s)).
    { split; simpl; auto.
      - exists []. by rewrite app_nil_r.
      - exists []. by rewrite Hrx. }
    destruct (d / 2 =? want); (split; [exact St|simpl; auto]).
  - assert (St : transport_step s (set_rx rest s)).
    { split; simpl; auto.
      - exists []. by rewrite app_nil_r.
      - exists [hex]. by rewrite Hrx. }
    destruct (assemble hex d (local_buf s)) as [[d' lb]|]; [|split; [exact St|auto]].
    set (s' := set_local_buf lb (set_rx rest s)).
    assert (St' : transport_step s s').
    { eapply transport_step_trans; [exact St|].
      split; simpl; auto.
      - exists []. by rewrite app_nil_r.
      - by exists []. }
    destruct (d' / 2 =? want); [split; [exact St'|auto]|].
    destruct (IH d' want s') as [H1 H2]; [done|].
    split; [|done]. by eapply transport_step_trans.
Qed.

Lemma receive_loop_returns chunks : forall d want s r s',
  receive_loop chunks d want s = Ret r s' ->
  exists consumed,
    chunks = consumed ++ rx s' /\ (consumed <> [] \/ chunks = []) /\
    r = d + Z.of_nat (length (concat consumed)) /\ r / 2 = want.
Proof.
  induction chunks as [|hex rest IH]; intros d want s r s' H; simpl in H.
  { destruct (Z.eqb_spec (d / 2) want) as [Hw|Hw]; [|discriminate].
    inversion H; subst. exists []. simpl. split; [done|]. split; [by right|].
    split; [lia|done]. }
  destruct (assemble hex d (local_buf s)) as [[d' lb]|] eqn:E; [|discriminate].
  apply assemble_count in E as [-> _].
  destruct (Z.eqb_spec ((d + Z.of_nat (length hex)) / 2) want) as [Hw|Hw].
  - inversion H; subst. exists [hex]. simpl. rewrite app_nil_r.
    split; [done|]. split; [by left|done].
  - apply IH in H as (consumed & -> & _ & -> & Hr).
    exists (hex :: consumed). simpl. rewrite length_app. split; [done|].
    split; [by left|]. split; [lia|done].
Qed.


Global Instance transport_step_preorder : PreOrder transport_step.
Proof. split; [exact transport_step_refl|exact transport_step_trans]. Qed.

Global Instance same_tx_preorder : PreOrder same_tx.
Proof. split; [done|]. intros a b c; unfold same_tx; congruence. Qed.

(** *** The pieces of [bitbang_exchange] *)

Lemma step_log_debug fmt args :
  fmt <> "bitbang_swd_write_reg" -> keeps transport_step (log_debug fmt args).
Proof.
  intros Hne s. apply step_add_log.
  unfold write_reg_calls. rewrite filter_cons_False; [done|]. congruence.
Qed.


Lemma step_fd_write bytes : keeps transport_step (fd_write bytes).
Proof. intros s. apply step_add_tx. Qed.

Lemma step_usleep us : keeps transport_step (usleep us).
Proof. intros s. apply step_add_tx. Qed.

Lemma step_receive want : keeps transport_step (receive want).
Proof. intros s. unfold receive. by apply receive_loop_step. Qed.

Lemma never_exits_receive want : never_exits (receive want).
Proof. intros s. unfold receive. by apply receive_loop_step. Qed.

Lemma copy_bit_final i buf s : final (copy_bit i buf s) = s.
Proof.
  unfold copy_bit. destruct (2 ^ 31 <=? i); [done|].
  destruct (load_bit (local_buf s) i); [|done].
  by destruct (store_bit buf i b).
Qed.

Lemma never_exits_copy_bit i buf : never_exits (copy_bit i buf).
Proof.
  intros s. unfold copy_bit. destruct (2 ^ 31 <=? i); [auto|].
  destruct (load_bit (local_buf s) i); [|auto].
  destruct (store_bit buf i b); auto.
Qed.

(** The copy loop leaves the state as it is. *)
Lemma copy_loop_final n : forall i buf s, final (iter_from n i copy_bit buf s) = s.
Proof.
  induction n as [|n IH]; intros i buf s; simpl; [done|].
  unfold bind. pose proof (copy_bit_final i buf s) as E.
  destruct (copy_bit i buf s) as [b' s'|f s']; simpl in E; subst; [apply IH|done].
Qed.

Lemma step_send_byte b i u : keeps transport_step (send_byte b i u).
Proof.
  unfold send_byte. destruct (at_index b i); [apply step_fd_write|].
  apply (keeps_stop _).
Qed.

Lemma never_exits_send_byte b i u : never_exits (send_byte b i u).
Proof. unfold send_byte. intros s. destruct (at_index b i); simpl; auto. Qed.

Lemma exchange_unfold rnw buf offset bit_cnt s :
  bitbang_exchange rnw buf offset bit_cnt s =
  let s0 := add_log (LOG_DEBUG "bitbang_exchange" []) s in
  let data_len := DIV_ROUND_UP (bit_cnt + offset) 8 in
  if rnw then
    let s1 := add_tx (sys_write (fd s)
                (exchange_header 241 (bool_decide (buf <> None)) offset bit_cnt)) s0 in
    match buf with
    | None => Ret None (add_tx (sys_usleep 10000) s1)
    | Some b =>
        (receive data_len ;;;
         b' <- for_range offset (u32 (bit_cnt + offset)) copy_bit b ;;
         ret (Some b')) s1
    end
  else
    let s1 := add_tx (sys_write (fd s)
                (exchange_header 240 (bool_decide (buf <> None)) offset bit_cnt)) s0 in
    (match buf with
     | None => ret tt
     | Some b => for_range 0 data_len (send_byte b) tt
     end ;;;
     receive 1 ;;;
     ret buf) s1.
Proof. destruct rnw, buf; reflexivity. Qed.

Lemma step_exchange rnw buf offset bit_cnt :
  keeps transport_step (bitbang_exchange rnw buf offset bit_cnt).
Proof.
  intros s. rewrite exchange_unfold. cbv zeta.
  set (s0 := add_log _ s).
  assert (H0 : transport_step s s0) by (by apply step_add_log).
  destruct rnw.
  - set (s1 := add_tx _ s0).
    assert (H1 : transport_step s s1) by (etransitivity; [exact H0|apply step_add_tx]).
    destruct buf as [b|].
    + etransitivity; [exact H1|]. revert s1 H1. intros s1 _.
      apply (keeps_bind _); [apply step_receive|]. intros _.
      apply (keeps_bind _).
      * intros s2. unfold for_range. rewrite copy_loop_final. reflexivity.
      * intros b'. apply (keeps_ret _).
    + simpl. etransitivity; [exact H1|apply step_add_tx].
  - set (s1 := add_tx _ s0).
    assert (H1 : transport_step s s1) by (etransitivity; [exact H0|apply step_add_tx]).
    etransitivity; [exact H1|]. revert s1 H1. intros s1 _.
    apply (keeps_bind _).
    { destruct buf as [b|]; [|apply (keeps_ret _)].
      apply (keeps_iter _). intros i a. apply step_send_byte. }
    intros _. apply (keeps_bind _); [apply step_receive|].
    intros _. apply (keeps_ret _).
Qed.

Lemma never_exits_exchange rnw buf offset bit_cnt :
  never_exits (bitbang_exchange rnw buf offset bit_cnt).
Proof.
  intros s. rewrite exchange_unfold. cbv zeta.
  destruct rnw.
  - destruct buf as [b|]; [|simpl; auto].
    apply never_exits_bind; [apply never_exits_receive|]. intros _.
    apply never_exits_bind.
    + apply never_exits_iter. intros i a. apply never_exits_copy_bit.
    + intros b'. apply never_exits_ret.
  - apply never_exits_bind.
    { destruct buf as [b|]; [|apply never_exits_ret].
      apply never_exits_iter. intros i a. apply never_exits_send_byte. }
    intros _. apply never_exits_bind; [apply never_exits_receive|].
    intros _. apply never_exits_ret.
Qed.

Lemma step_drive out : keeps transport_step (bitbang_interface_swdio_drive out).
Proof. destruct out; apply step_fd_write. Qed.

Lemma never_exits_drive out : never_exits (bitbang_interface_swdio_drive out).
Proof. intros s. destruct out; simpl; auto. Qed.

(** A receive that returns after waiting for something has taken
    something off the stream. *)
Lemma receive_consumes want s r s' :
  receive want s = Ret r s' -> want <> 0 -> (length (rx s') < length (rx s))%nat.
Proof.
  unfold receive. intros H Hw.
  apply receive_loop_returns in H as (c & E & Hne & -> & Hr).
  rewrite E, length_app. destruct c as [|c0 c]; [|simpl; lia].
  destruct Hne as [|Hne]; [done|]. simpl in Hr. by subst want.
Qed.

Lemma exchange_consumes rnw buf offset bit_cnt s r s' :
  bitbang_exchange rnw buf offset bit_cnt s = Ret r s' ->
  rnw = false \/ (buf <> None /\ DIV_ROUND_UP (bit_cnt + offset) 8 <> 0) ->
  (length (rx s') < length (rx s))%nat.
Proof.
  rewrite exchange_unfold. cbv zeta. intros H Hc.
  destruct rnw.
  - destruct Hc as [|[Hc Hd]]; [done|]. destruct buf as [b|]; [|done].
    apply bind_Ret in H as (d & s3 & H3 & H).
    apply receive_consumes in H3; [|done]. simpl in H3.
    apply bind_Ret in H as (b' & s4 & H4 & H). inversion H; subst.
    pose proof (copy_loop_final (Z.to_nat (u32 (bit_cnt + offset) - offset)) offset b s3) as E.
    unfold for_range in H4. rewrite H4 in E. simpl in E. subst. lia.
  - apply bind_Ret in H as (u3 & s3 & H3 & H).
    apply bind_Ret in H as (d & s4 & H4 & H). inversion H; subst r s'.
    apply receive_consumes in H4; [|done].
    assert (St : transport_step
                   (add_tx (sys_write (fd s)
                      (exchange_header 240 (bool_decide (buf <> None)) offset bit_cnt))
                      (add_log (LOG_DEBUG "bitbang_exchange" []) s)) s3).
    { revert H3. apply keeps_Ret.
      destruct buf as [b|]; [|apply (keeps_ret _)].
      apply (keeps_iter _). intros i a. apply step_send_byte. }
    apply transport_step_rx_length in St. simpl in St. lia.
Qed.

Lemma bind_log_debug {B} fmt args (k : unit -> W B) s :
  bind (log_debug fmt args) k s = k tt (add_log (LOG_DEBUG fmt args) s).
Proof. reflexivity. Qed.

Lemma nibble_digit d :
  0 <= d < 16 -> (if 9 <? d then d - 10 + chr_A else d + chr_0) = hex_digit d.
Proof.
  intros Hd.
  assert (H : d = 0 \/ d = 1 \/ d = 2 \/ d = 3 \/ d = 4 \/ d = 5 \/ d = 6 \/ d = 7 \/
              d = 8 \/ d = 9 \/ d = 10 \/ d = 11 \/ d = 12 \/ d = 13 \/ d = 14 \/ d = 15)
    by lia.
  repeat (destruct H as [->|H]; [reflexivity|]). subst. reflexivity.
Qed.

Lemma GET_UPPER_HEX_digit x : GET_UPPER_HEX x = hex_digit (x / 16 mod 16).
Proof.
  unfold GET_UPPER_HEX.
  replace (Z.land (Z.shiftr x 4) 15) with (x / 16 mod 16).
  - apply nibble_digit. lia.
  - rewrite Z.shiftr_div_pow2 by lia. change 15 with (Z.ones 4).
    rewrite Z.land_ones by lia. reflexivity.
Qed.

Lemma GET_LOWER_HEX_digit x : GET_LOWER_HEX x = hex_digit (x mod 16).
Proof.
  unfold GET_LOWER_HEX.
  replace (Z.land x 15) with (x mod 16).
  - apply nibble_digit. lia.
  - change 15 with (Z.ones 4). rewrite Z.land_ones by lia. reflexivity.
Qed.

(** The two digits read back as hex give the byte. *)
Lemma two_hex_digits_value n :
  0 <= n < 256 ->
  exists hi lo, two_hex_digits n = [hi; lo] /\ 16 * HEX_TO_INT hi + HEX_TO_INT lo = n.
Proof.
  intros Hn. exists (hex_digit (n / 16 mod 16)), (hex_digit (n mod 16)).
  split; [done|].
  assert (Hd : forall d, 0 <= d < 16 -> HEX_TO_INT (hex_digit d) = d).
  { intros d Hd.
    assert (H : d = 0 \/ d = 1 \/ d = 2 \/ d = 3 \/ d = 4 \/ d = 5 \/ d = 6 \/ d = 7 \/
                d = 8 \/ d = 9 \/ d = 10 \/ d = 11 \/ d = 12 \/ d = 13 \/ d = 14 \/ d = 15)
      by lia.
    repeat (destruct H as [->|H]; [reflexivity|]). subst. reflexivity. }
  rewrite !Hd by lia. lia.
Qed.

Lemma exchange_header_digits op has_buf offset bit_cnt :
  exchange_header op has_buf offset bit_cnt =
  op :: two_hex_digits bit_cnt ++ two_hex_digits offset ++
        (if has_buf then two_hex_digits (DIV_ROUND_UP (bit_cnt + offset) 8)
         else codes "00").
Proof.
  unfold exchange_header, two_hex_digits.
  rewrite !GET_UPPER_HEX_digit, !GET_LOWER_HEX_digit. by destruct has_buf.
Qed.

Lemma same_tx_receive want : keeps same_tx (receive want).
Proof.
  intros s. unfold receive, same_tx.
  assert (H : forall chunks d s, tx (final (receive_loop chunks d want s)) = tx s).
  { induction chunks as [|hex rest IH]; intros d s0; simpl.
    { by destruct (d / 2 =? want). }
    destruct (assemble hex d (local_buf s0)) as [[d' lb]|]; [|done].
    destruct (d' / 2 =? want); [done|]. by rewrite IH. }
  apply H.
Qed.

Lemma add_txs_nil s : add_txs [] s = s.
Proof. destruct s; unfold add_txs; simpl. by rewrite app_nil_r. Qed.

Lemma send_loop_Ret b n : forall i s s',
  0 <= i ->
  iter_from n i (send_byte b) tt s = Ret tt s' ->
  s' = add_txs (map (byte_write (fd s)) (take n (drop (Z.to_nat i) b))) s /\
  length (take n (drop (Z.to_nat i) b)) = n.
Proof.
  induction n as [|n IH]; intros i s s' Hi H; simpl in H.
  - inversion H; subst. rewrite take_0. simpl. by rewrite add_txs_nil.
  - apply bind_Ret in H as ([] & s1 & H1 & H).
    unfold send_byte in H1. destruct (at_index b i) as [x|] eqn:E; [|discriminate].
    inversion H1; subst s1; clear H1.
    apply IH in H as [-> Hl]; [|lia].
    unfold at_index in E. destruct (Z.ltb_spec i 0); [lia|].
    rewrite (drop_S _ _ _ E). simpl.
    replace (Z.to_nat (i + 1)) with (Datatypes.S (Z.to_nat i)) in * by lia.
    split; [|by rewrite Hl].
    unfold add_txs, add_tx; simpl. f_equal. by rewrite <- app_assoc.
Qed.



Lemma copy_loop_frame n : forall i buf s b' s',
  0 <= i ->
  iter_from n i copy_bit buf s = Ret b' s' ->
  s' = s /\ length b' = length buf /\
  (forall j, j < i \/ i + Z.of_nat n <= j -> bit_of b' j = bit_of buf j) /\
  (forall j, i <= j < i + Z.of_nat n -> bit_of b' j = bit_of (local_buf s) j).
Proof.
  induction n as [|n IH]; intros i buf s b' s' Hi H; simpl in H.
  - inversion H; subst. repeat split; auto. intros j Hj. lia.
  - apply bind_Ret in H as (b1 & s1 & H1 & H).
    unfold copy_bit in H1. destruct (2 ^ 31 <=? i); [discriminate|].
    destruct (load_bit (local_buf s) i) as [v|] eqn:El; [|discriminate].
    destruct (store_bit buf i v) as [b1'|] eqn:Es; [|discriminate].
    inversion H1; subst b1' s1; clear H1.
    apply load_bit_Some in El as [-> _]; [|done].
    assert (Hr : 0 <= i < 8 * Z.of_nat (length buf)).
    { unfold store_bit in Es. destruct (at_index buf (i / 8)) eqn:E; [|discriminate].
      apply at_index_bounds in E. lia. }
    destruct (store_bit_spec buf i (bit_of (local_buf s) i) Hr) as (b1' & Es' & Hl & Hb & Hf).
    rewrite Es in Es'. inversion Es'; subst b1'; clear Es'.
    apply IH in H as (-> & Hl' & Hframe & Hbits); [|lia].
    split; [done|]. split; [congruence|]. split.
    + intros j Hj. rewrite Hframe by lia. apply Hf. lia.
    + intros j Hj. destruct (decide (j = i)) as [->|Hne].
      * rewrite Hframe by lia. done.
      * apply Hbits. lia.
Qed.

(** C10: a read-exchange with a capture buffer that returns leaves the
    buffer at its length and leaves every bit whose index is outside
    [offset, offset + bit_cnt) as it was; the bits from [offset] up to
    the loop bound are those of the bytes assembled from the answer. *)
Theorem read_exchange_frame (b : list Z) (offset bit_cnt : Z) (s : swd_state)
    (r : option (list Z)) (s' : swd_state) :
  0 <= offset -> 0 <= bit_cnt ->
  bitbang_exchange true (Some b) offset bit_cnt s = Ret r s' ->
  exists b',
    r = Some b' /\ length b' = length b /\
    (forall j, ~ (offset <= j < offset + bit_cnt) -> bit_of b' j = bit_of b j) /\
    (forall j, offset <= j < u32 (bit_cnt + offset) ->
               bit_of b' j = bit_of (local_buf s') j).
Proof.
  intros Ho Hb H. rewrite exchange_unfold in H. cbv zeta in H.
  apply bind_Ret in H as (d & s2 & H2 & H).
  apply bind_Ret in H as (b' & s3 & H3 & H). inversion H; subst r s'; clear H.
  unfold for_range in H3. apply copy_loop_frame in H3 as (-> & Hl & Hframe & Hbits); [|done].
  exists b'. split; [done|]. split; [done|].
  assert (Hu : u32 (bit_cnt + offset) <= bit_cnt + offset).
  { unfold u32. apply Z.mod_le; lia. }
  split.
  - intros j Hj. apply Hframe. lia.
  - intros j Hj. apply Hbits. lia.
Qed.



(** Three bits at offset 2 of a buffer of ones, the answer being the byte
    zero: bits 2 to 4 are cleared, nothing else. *)
Lemma read_exchange_frame_witness :
  exists r s',
    bitbang_exchange true (Some [255; 255]) 2 3 (sample_boot [codes "00"]) = Ret r s' /\
    exists b',
      r = Some b' /\ length b' = length [255; 255] /\
      (forall j, ~ (2 <= j < 2 + 3) -> bit_of b' j = bit_of [255; 255] j) /\
      (forall j, 2 <= j < u32 (3 + 2) -> bit_of b' j = bit_of (local_buf s') j).
Proof.
  destruct (bitbang_exchange true (Some [255; 255]) 2 3 (sample_boot [codes "00"]))
    as [r s'|f s'] eqn:E.
  - exists r, s'. split; [reflexivity|].
    apply (read_exchange_frame [255; 255] 2 3 (sample_boot [codes "00"]) r s');
      [lia|lia|exact E].
  - vm_compute in E. discriminate.
Defined.

Lemma read_exchange_frame_example :
  exists s',
    bitbang_exchange true (Some [255; 255]) 2 3 (sample_boot [codes "00"])
    = Ret (Some [227; 255]) s' /\
    rx s' = [] /\
    tx s' = [sys_write 0 (241 :: codes "030201")].
Proof. eexists. split; [vm_compute; reflexivity|]. split; reflexivity. Qed.

(** ** The SWD engine *)

Global Instance engine_step_preorder : PreOrder engine_step.
Proof.
  split.
  - intros s. split; auto; exists []; [by rewrite app_nil_r|done].
  - intros s1 s2 s3 [F1 M1 [t1 T1] [c1 R1]] [F2 M2 [t2 T2] [c2 R2]].
    split; try congruence.
    + exists (t1 ++ t2). rewrite T2, T1. by rewrite app_assoc.
    + exists (c1 ++ c2). rewrite R1, R2. by rewrite app_assoc.
Qed.

Lemma transport_engine_step s s' : transport_step s s' -> engine_step s s'.
Proof. intros [F M _ T R _]. by split. Qed.

Lemma engine_step_rx_length s s' :
  engine_step s s' -> (length (rx s') <= length (rx s))%nat.
Proof. intros [_ _ _ [c ->]]. rewrite length_app. lia. Qed.

Lemma engine_step_add_log l s : engine_step s (add_log l s).
Proof. split; simpl; auto; exists []; [by rewrite app_nil_r|done]. Qed.

Lemma engine_step_set_latch v s : engine_step s (set_queued_retval v s).
Proof. split; simpl; auto; exists []; [by rewrite app_nil_r|done]. Qed.

Section Engine.
Context {EC : ErrorCodes} {SC : SwdCore}.

Lemma step_log_transfer ack cmd data : keeps transport_step (log_transfer ack cmd data).
Proof. unfold log_transfer. by apply step_log_debug. Qed.

Lemma step_ap_delay cmd d : keeps transport_step (ap_delay cmd d).
Proof.
  unfold ap_delay. destruct (Z.land cmd SWD_CMD_APnDP =? 0); [apply (keeps_ret _)|].
  apply (keeps_bind _); [apply step_exchange|]. intros _. apply (keeps_ret _).
Qed.

Lemma ap_delay_returns cmd d s : exists s', ap_delay cmd d s = Ret tt s'.
Proof.
  unfold ap_delay. destruct (Z.land cmd SWD_CMD_APnDP =? 0); [by eexists|].
  unfold bind. rewrite exchange_unfold. cbv zeta. by eexists.
Qed.

Lemma step_read_reg_transfer cmd : keeps transport_step (read_reg_transfer cmd).
Proof.
  unfold read_reg_transfer.
  apply (keeps_bind _); [apply step_exchange|]. intros _.
  apply (keeps_bind _); [apply step_drive|]. intros _.
  apply (keeps_bind _); [apply step_exchange|]. intros r.
  apply (keeps_bind _); [apply step_drive|]. intros _.
  apply (keeps_bind _); [apply step_log_transfer|]. intros _.
  apply (keeps_ret _).
Qed.

Lemma step_write_reg_transfer cmd value : keeps transport_step (write_reg_transfer cmd value).
Proof.
  unfold write_reg_transfer.
  apply (keeps_bind _); [apply step_exchange|]. intros _.
  apply (keeps_bind _); [apply step_drive|]. intros _.
  apply (keeps_bind _); [apply step_exchange|]. intros r.
  apply (keeps_bind _); [apply step_drive|]. intros _.
  apply (keeps_bind _); [apply step_exchange|]. intros _.
  apply (keeps_bind _); [apply step_log_transfer|]. intros _.
  apply (keeps_ret _).
Qed.

Lemma never_exits_log_debug fmt args : never_exits (log_debug fmt args).
Proof. intros s. simpl. auto. Qed.

Lemma never_exits_ap_delay cmd d : never_exits (ap_delay cmd d).
Proof.
  unfold ap_delay. destruct (Z.land cmd SWD_CMD_APnDP =? 0); [apply never_exits_ret|].
  apply never_exits_bind; [apply never_exits_exchange|]. intros _. apply never_exits_ret.
Qed.

Lemma never_exits_read_reg_transfer cmd : never_exits (read_reg_transfer cmd).
Proof.
  unfold read_reg_transfer.
  apply never_exits_bind; [apply never_exits_exchange|]. intros _.
  apply never_exits_bind; [apply never_exits_drive|]. intros _.
  apply never_exits_bind; [apply never_exits_exchange|]. intros r.
  apply never_exits_bind; [apply never_exits_drive|]. intros _.
  apply never_exits_bind; [apply never_exits_log_debug|]. intros _.
  apply never_exits_ret.
Qed.

Lemma never_exits_write_reg_transfer cmd value : never_exits (write_reg_transfer cmd value).
Proof.
  unfold write_reg_transfer.
  apply never_exits_bind; [apply never_exits_exchange|]. intros _.
  apply never_exits_bind; [apply never_exits_drive|]. intros _.
  apply never_exits_bind; [apply never_exits_exchange|]. intros r.
  apply never_exits_bind; [apply never_exits_drive|]. intros _.
  apply never_exits_bind; [apply never_exits_exchange|]. intros _.
  apply never_exits_bind; [apply never_exits_log_debug|]. intros _.
  apply never_exits_ret.
Qed.

(** A turn of either loop that gets as far as the [switch] has read
    the stream. *)
Lemma read_reg_transfer_consumes cmd s x s' :
  read_reg_transfer cmd s = Ret x s' -> (length (rx s') < length (rx s))%nat.
Proof.
  unfold read_reg_transfer. intros H.
  apply bind_Ret in H as (r1 & s1 & H1 & H).
  apply exchange_consumes in H1; [|by left].
  enough (transport_step s1 s') as St
    by (apply transport_step_rx_length in St; lia).
  revert H. apply keeps_Ret.
  apply (keeps_bind _); [apply step_drive|]. intros _.
  apply (keeps_bind _); [apply step_exchange|]. intros r.
  apply (keeps_bind _); [apply step_drive|]. intros _.
  apply (keeps_bind _); [apply step_log_transfer|]. intros _.
  apply (keeps_ret _).
Qed.

Lemma write_reg_transfer_consumes cmd value s x s' :
  write_reg_transfer cmd value s = Ret x s' -> (length (rx s') < length (rx s))%nat.
Proof.
  unfold write_reg_transfer. intros H.
  apply bind_Ret in H as (r1 & s1 & H1 & H).
  apply exchange_consumes in H1; [|by left].
  enough (transport_step s1 s') as St
    by (apply transport_step_rx_length in St; lia).
  revert H. apply keeps_Ret.
  apply (keeps_bind _); [apply step_drive|]. intros _.
  apply (keeps_bind _); [apply step_exchange|]. intros r.
  apply (keeps_bind _); [apply step_drive|]. intros _.
  apply (keeps_bind _); [apply step_exchange|]. intros _.
  apply (keeps_bind _); [apply step_log_transfer|]. intros _.
  apply (keeps_ret _).
Qed.

Lemma finishes_weaken {A} s0 s (r : option (outcome swd_state A)) :
  engine_step s0 s -> finishes s r -> finishes s0 r.
Proof.
  intros H (o & E & St & Hx). exists o. split; [done|]. split; [|done].
  etransitivity; eauto.
Qed.

Lemma finishes_Some {A} s (o : outcome swd_state A) :
  engine_step s (final o) -> ~ exits o -> finishes s (Some o).
Proof. intros. by exists o. Qed.

Lemma write_reg_loop_finishes fuel : forall cmd value d s,
  (length (rx s) < fuel)%nat ->
  finishes s (write_reg_loop fuel cmd value d s).
Proof.
  induction fuel as [|fuel IH]; intros cmd value d s Hlen; [lia|].
  simpl. pose proof (step_write_reg_transfer cmd value s) as St.
  pose proof (never_exits_write_reg_transfer cmd value s) as Hx.
  destruct (write_reg_transfer cmd value s) as [[cmd1 trn] s1|f s1] eqn:E; simpl in *.
  2: { apply finishes_Some; [by apply transport_engine_step|done]. }
  apply write_reg_transfer_consumes in E.
  apply transport_engine_step in St.
  apply (finishes_weaken s s1); [done|].
  destruct (decide (buf_get_u32 trn 1 3 = SWD_ACK_OK)).
  { apply finishes_Some; [apply transport_engine_step, step_ap_delay
                         |apply never_exits_ap_delay]. }
  destruct (decide (buf_get_u32 trn 1 3 = SWD_ACK_WAIT)).
  2: { destruct (decide (buf_get_u32 trn 1 3 = SWD_ACK_FAULT));
       (apply finishes_Some; [|simpl; auto]); simpl;
       (etransitivity; [apply engine_step_add_log|apply engine_step_set_latch]). }
  unfold clear_sticky_errors_by, write_reg_entry.
  set (s2 := add_log _ (add_log _ s1)).
  assert (St2 : engine_step s1 s2).
  { etransitivity; apply engine_step_add_log. }
  assert (Hl2 : length (rx s2) = length (rx s1)) by done.
  apply (finishes_weaken s1 s2); [done|].
  destruct (negb _).
  { apply finishes_Some; [reflexivity|simpl; auto]. }
  destruct (decide (queued_retval s2 <> ERROR_OK)).
  { eapply finishes_weaken; [apply engine_step_add_log|].
    apply IH. simpl. lia. }
  destruct (IH (swd_cmd false false DP_ABORT)
              (Z.lor (Z.lor (Z.lor STKCMPCLR STKERRCLR) WDERRCLR) ORUNERRCLR) 0 s2)
    as (o & -> & Sto & Hxo); [rewrite Hl2; lia|].
  destruct o as [[] s3|f s3]; simpl in *.
  - apply (finishes_weaken s2 s3); [done|]. apply IH.
    apply engine_step_rx_length in Sto. simpl in *. lia.
  - by apply finishes_Some.
Qed.

Lemma write_reg_finishes cmd value d s :
  finishes s (bitbang_swd_write_reg cmd value d s).
Proof.
  unfold bitbang_swd_write_reg, write_reg_entry.
  set (s1 := add_log _ s).
  apply (finishes_weaken s s1); [apply engine_step_add_log|].
  destruct (negb _); [apply finishes_Some; [reflexivity|simpl; auto]|].
  destruct (decide (queued_retval s1 <> ERROR_OK)).
  { apply finishes_Some; [apply engine_step_add_log|simpl; auto]. }
  apply write_reg_loop_finishes. simpl. lia.
Qed.

Lemma read_reg_loop_finishes fuel : forall cmd value d s,
  (length (rx s) < fuel)%nat ->
  finishes s (read_reg_loop fuel cmd value d s).
Proof.
  induction fuel as [|fuel IH]; intros cmd value d s Hlen; [lia|].
  simpl. pose proof (step_read_reg_transfer cmd s) as St.
  pose proof (never_exits_read_reg_transfer cmd s) as Hx.
  destruct (read_reg_transfer cmd s) as [[cmd1 trn] s1|f s1] eqn:E; simpl in *.
  2: { apply finishes_Some; [by apply transport_engine_step|done]. }
  apply read_reg_transfer_consumes in E.
  apply transport_engine_step in St.
  apply (finishes_weaken s s1); [done|].
  destruct (decide (buf_get_u32 trn 1 3 = SWD_ACK_OK)).
  { destruct (decide (_ <> _)).
    - apply finishes_Some; [|simpl; auto]. simpl.
      etransitivity; [apply engine_step_add_log|apply engine_step_set_latch].
    - apply finishes_Some.
      + apply transport_engine_step.
        apply (keeps_bind _); [apply step_ap_delay|]. intros _. apply (keeps_ret _).
      + apply never_exits_bind; [apply never_exits_ap_delay|].
        intros _. apply never_exits_ret. }
  destruct (decide (buf_get_u32 trn 1 3 = SWD_ACK_WAIT)).
  2: { destruct (decide (buf_get_u32 trn 1 3 = SWD_ACK_FAULT));
       (apply finishes_Some; [|simpl; auto]); simpl;
       (etransitivity; [apply engine_step_add_log|apply engine_step_set_latch]). }
  set (s2 := add_log _ s1).
  apply (finishes_weaken s1 s2); [apply engine_step_add_log|].
  destruct (write_reg_finishes (swd_cmd false false DP_ABORT)
              (Z.lor (Z.lor (Z.lor STKCMPCLR STKERRCLR) WDERRCLR) ORUNERRCLR) 0 s2)
    as (o & Eo & Sto & Hxo).
  unfold swd_clear_sticky_errors, clear_sticky_errors_by. rewrite Eo.
  destruct o as [[] s3|f s3]; simpl in *.
  - apply (finishes_weaken s2 s3); [done|]. apply IH.
    apply engine_step_rx_length in Sto. simpl in Sto. lia.
  - by apply finishes_Some.
Qed.

Lemma read_reg_finishes cmd value d s :
  finishes s (bitbang_swd_read_reg cmd value d s).
Proof.
  unfold bitbang_swd_read_reg.
  set (s1 := add_log _ s).
  apply (finishes_weaken s s1); [apply engine_step_add_log|].
  destruct (_ =? 0); [apply finishes_Some; [reflexivity|simpl; auto]|].
  destruct (decide (queued_retval s1 <> ERROR_OK)).
  { apply finishes_Some; [apply engine_step_add_log|simpl; auto]. }
  apply read_reg_loop_finishes. simpl. lia.
Qed.
End Engine.

Section WaitClaims.
Context {EC : ErrorCodes} {SC : SwdCore}.

Lemma step_add_log_plain fmt args s :
  fmt <> "bitbang_swd_write_reg" ->
  transport_step s (add_log (LOG_DEBUG fmt args) s).
Proof. intros H. by apply (step_log_debug fmt args). Qed.

Lemma write_reg_calls_enter s :
  write_reg_calls (slog (add_log (LOG_DEBUG "bitbang_swd_write_reg" []) s))
  = Datatypes.S (write_reg_calls (slog s)).
Proof.
  simpl. rewrite write_reg_calls_app. unfold write_reg_calls at 2.
  rewrite filter_cons_True by done. simpl. lia.
Qed.

(** The write to the abort register made from within the write loop,
    when the latch is clear and the write is acknowledged OK at once. *)
Lemma clear_sticky_errors_once_in_loop fuel s1 acmd atrn s2 s3 :
  (0 < fuel)%nat ->
  queued_retval s1 = ERROR_OK ->
  Z.land (swd_cmd false false DP_ABORT) SWD_CMD_RnW = 0 ->
  write_reg_transfer (swd_cmd false false DP_ABORT) sticky_clear_value
    (add_log (LOG_DEBUG "bitbang_swd_write_reg" []) s1) = Ret (acmd, atrn) s2 ->
  buf_get_u32 atrn 1 3 = SWD_ACK_OK ->
  ap_delay acmd 0 s2 = Ret tt s3 ->
  clear_sticky_errors_by (write_reg_entry (write_reg_loop fuel)) s1
  = Some (Ret tt s3).
Proof.
  intros Hf Hl Hw Ht Hack Hd. destruct fuel as [|fuel]; [lia|].
  unfold clear_sticky_errors_by, write_reg_entry.
  rewrite Hw. simpl negb. cbv iota.
  rewrite decide_False by (simpl; intros H; by apply H).
  simpl. fold sticky_clear_value. rewrite Ht. simpl.
  rewrite decide_True by done. by rewrite Hd.
Qed.

(** The same write as [swd_clear_sticky_errors] makes it from the read
    loop. *)
Lemma clear_sticky_errors_once s1 acmd atrn s2 s3 :
  queued_retval s1 = ERROR_OK ->
  Z.land (swd_cmd false false DP_ABORT) SWD_CMD_RnW = 0 ->
  write_reg_transfer (swd_cmd false false DP_ABORT) sticky_clear_value
    (add_log (LOG_DEBUG "bitbang_swd_write_reg" []) s1) = Ret (acmd, atrn) s2 ->
  buf_get_u32 atrn 1 3 = SWD_ACK_OK ->
  ap_delay acmd 0 s2 = Ret tt s3 ->
  swd_clear_sticky_errors s1 = Some (Ret tt s3).
Proof.
  intros. unfold swd_clear_sticky_errors, bitbang_swd_write_reg.
  eapply (clear_sticky_errors_once_in_loop (Datatypes.S (length (rx s1)))); eauto. lia.
Qed.

(** What a turn acknowledged WAIT and its write to the abort register
    leave behind. *)
Lemma wait_turn_effect (transfer : Z -> W (Z * list Z)) cmd s cmd1 trn s1 acmd atrn s2 s3 :
  keeps transport_step (transfer cmd) ->
  queued_retval s = ERROR_OK ->
  transfer cmd s = Ret (cmd1, trn) s1 ->
  write_reg_transfer (swd_cmd false false DP_ABORT) sticky_clear_value
    (add_log (LOG_DEBUG "bitbang_swd_write_reg" [])
       (add_log (LOG_DEBUG "SWD_ACK_WAIT" []) s1)) = Ret (acmd, atrn) s2 ->
  ap_delay acmd 0 s2 = Ret tt s3 ->
  queued_retval (add_log (LOG_DEBUG "SWD_ACK_WAIT" []) s1) = ERROR_OK /\
  queued_retval s3 = ERROR_OK /\
  (length (rx s3) < length (rx s1))%nat /\
  (length (rx s1) <= length (rx s))%nat /\
  write_reg_calls (slog s3) = Datatypes.S (write_reg_calls (slog s)).
Proof.
  intros K Hl Ht Hw Hd.
  pose proof (keeps_Ret _ _ _ _ _ K Ht) as St1.
  pose proof (keeps_Ret _ _ _ _ _
                (step_write_reg_transfer (swd_cmd false false DP_ABORT) sticky_clear_value)
                Hw) as St2.
  pose proof (keeps_Ret _ _ _ _ _ (step_ap_delay acmd 0) Hd) as St3.
  apply write_reg_transfer_consumes in Hw. simpl in Hw.
  split; [simpl; by rewrite (step_latch _ _ St1)|].
  split.
  { rewrite (step_latch _ _ St3), (step_latch _ _ St2). simpl.
    by rewrite (step_latch _ _ St1). }
  split; [apply transport_step_rx_length in St3; lia|].
  split; [by apply transport_step_rx_length in St1|].
  rewrite (step_calls _ _ St3), (step_calls _ _ St2), write_reg_calls_enter.
  f_equal. simpl. rewrite write_reg_calls_app.
  unfold write_reg_calls at 2. rewrite filter_cons_False by done.
  simpl. rewrite (step_calls _ _ St1). lia.
Qed.

Lemma read_loop_through_waits n cmd s cmd' s' value d :
  wait_turns read_reg_transfer n cmd s cmd' s' ->
  queued_retval s = ERROR_OK ->
  Z.land (swd_cmd false false DP_ABORT) SWD_CMD_RnW = 0 ->
  SWD_ACK_WAIT <> SWD_ACK_OK ->
  forall fuel, (length (rx s) < fuel)%nat ->
  exists fuel', (length (rx s') < fuel')%nat /\
    read_reg_loop fuel cmd value d s = read_reg_loop fuel' cmd' value d s' /\
    queued_retval s' = ERROR_OK /\
    write_reg_calls (slog s') = (write_reg_calls (slog s) + n)%nat.
Proof.
  intros Hw Hl Habort Hne.
  induction Hw as [cmd s|n cmd s cmd1 trn s1 acmd atrn s2 s3 cmd' s'
    Hread Hwait Hwrite Hok Hdelay Hrest IH]; intros fuel Hfuel.
  - exists fuel. repeat split; auto.
  - destruct fuel as [|fuel]; [lia|].
    destruct (wait_turn_effect read_reg_transfer cmd s cmd1 trn s1 acmd atrn s2 s3
                (step_read_reg_transfer cmd) Hl Hread Hwrite Hdelay)
      as (Hl1 & Hl3 & Hrx3 & Hrx1 & Hcalls3).
    pose proof (read_reg_transfer_consumes _ _ _ _ Hread) as Hc1.
    destruct (IH Hl3 fuel) as (fuel' & Hf' & Hloop & Hl' & Hcalls); [lia|].
    exists fuel'. split; [done|]. split; [|split; [done|lia]].
    simpl. rewrite Hread. simpl.
    rewrite decide_False by congruence. rewrite decide_True by done.
    rewrite (clear_sticky_errors_once _ acmd atrn s2 s3 Hl1 Habort Hwrite Hok Hdelay).
    exact Hloop.
Qed.

Lemma write_loop_through_waits n cmd s cmd' s' value d :
  wait_turns (fun c => write_reg_transfer c value) n cmd s cmd' s' ->
  queued_retval s = ERROR_OK ->
  Z.land (swd_cmd false false DP_ABORT) SWD_CMD_RnW = 0 ->
  SWD_ACK_WAIT <> SWD_ACK_OK ->
  forall fuel, (length (rx s) < fuel)%nat ->
  exists fuel', (length (rx s') < fuel')%nat /\
    write_reg_loop fuel cmd value d s = write_reg_loop fuel' cmd' value d s' /\
    queued_retval s' = ERROR_OK /\
    write_reg_calls (slog s') = (write_reg_calls (slog s) + n)%nat.
Proof.
  intros Hw Hl Habort Hne.
  induction Hw as [cmd s|n cmd s cmd1 trn s1 acmd atrn s2 s3 cmd' s'
    Hsend Hwait Hwrite Hok Hdelay Hrest IH]; intros fuel Hfuel.
  - exists fuel. repeat split; auto.
  - destruct fuel as [|fuel]; [lia|].
    destruct (wait_turn_effect (fun c => write_reg_transfer c value)
                cmd s cmd1 trn s1 acmd atrn s2 s3
                (step_write_reg_transfer cmd value) Hl Hsend Hwrite Hdelay)
      as (Hl1 & Hl3 & Hrx3 & Hrx1 & Hcalls3).
    pose proof (write_reg_transfer_consumes _ _ _ _ _ Hsend) as Hc1.
    destruct (IH Hl3 fuel) as (fuel' & Hf' & Hloop & Hl' & Hcalls); [lia|].
    exists fuel'. split; [done|]. split; [|split; [done|lia]].
    cbn [write_reg_loop]. rewrite Hsend. cbn [after].
    rewrite decide_False by congruence. rewrite decide_True by done.
    rewrite (clear_sticky_errors_once_in_loop fuel _ acmd atrn s2 s3);
      [exact Hloop|lia|done..].
Qed.

End WaitClaims.

(** ** Runs of the SWD engine on the sample surroundings *)

(** C9 as stated fails: in the state the program starts in, before
    [bitbang_swd_init], the run-queue operation sends its request on
    descriptor 0, logs no error and returns, and a register read returns
    the value read. *)
Lemma swd_run_before_init_counterexample :
  swd_mode (sample_boot []) = false /\
  (exists s',
     bitbang_swd_run_queue (EC := sample_error_codes) (sample_boot []) = Ret 0 s' /\
     tx s' = [sys_write 0 (241 :: codes "080000"); sys_usleep 10000] /\
     slog s' = [LOG_DEBUG "bitbang_swd_run_queue" [];
                LOG_DEBUG "bitbang_exchange" [];
                LOG_DEBUG "SWD queue return value: %02x" [ArgZ 0]]) /\
  (exists s',
     bitbang_swd_read_reg (EC := sample_error_codes) (SC := sample_swd_core) 4 (Some 7) 0
       (sample_boot (sample_read_answer 1 305419896 1))
     = Some (Ret (Some 305419896) s')).
Proof.
  split; [reflexivity|]. split.
  - eexists. split; [vm_compute; reflexivity|]. split; reflexivity.
  - eexists. vm_compute. reflexivity.
Qed.

(** * Whole commands, drains and sequences of calls *)

(** ** State moves *)

Section StateMoves.
Context {F : Type} {EC : ErrorCodes} {JC : JtagCore F}.

Lemma state_move_run skip s :
  bitbang_state_move skip s =
  Ret tt (at_states (end_state s) (end_state s)
            (advance (move_events (tap_get_tms_path (cur_state s) (end_state s))
                        (tap_get_tms_path_len (cur_state s) (end_state s)) skip) 0 s)).
Proof.
  unfold bitbang_state_move, for_range.
  unfold bind at 1; simpl. unfold bind at 1; simpl.
  unfold bind at 1.
  rewrite (iter_clock_tms
             (fun i => Z.land (Z.shiftr (u8 (tap_get_tms_path (cur_state s) (end_state s))) i) 1)).
  unfold bind, bb_do_write, emit, advance, at_states, move_events, path_bit; simpl.
  by rewrite <- app_assoc.
Qed.

Lemma end_state_stable t s :
  tap_is_state_stable t = true ->
  bitbang_end_state t s = Ret tt (at_states (cur_state s) t s).
Proof. intros H. unfold bitbang_end_state. by rewrite H. Qed.

Lemma end_state_unstable t s :
  tap_is_state_stable t = false ->
  bitbang_end_state t s =
  Stop ProcessExit (logged (LOG_ERROR "BUG: %i is not a valid end state"
                              [ArgZ (tap_state_code t)]) s).
Proof. intros H. unfold bitbang_end_state. by rewrite H. Qed.
End StateMoves.

(** ** Path moves *)

Section PathMoves.
Context {F : Type} {EC : ErrorCodes} {JC : JtagCore F}.

Lemma clocked_tms_app level a b :
  clocked_tms level (a ++ b) = clocked_tms level a ++ clocked_tms (tck_after level a) b.
Proof.
  revert level. induction a as [|e a IH]; intros level; simpl; [done|].
  destruct e; simpl; auto.
  destruct ((level =? 0) && negb (tck =? 0)); simpl; by rewrite IH.
Qed.

Lemma tck_after_app level a b :
  tck_after level (a ++ b) = tck_after (tck_after level a) b.
Proof.
  revert level. induction a as [|e a IH]; intros level; simpl; [done|].
  destruct e; simpl; auto.
Qed.

Lemma rising_edges_app level a b :
  rising_edges level (a ++ b)
  = (rising_edges level a + rising_edges (tck_after level a) b)%nat.
Proof.
  revert level. induction a as [|e a IH]; intros level; simpl; [done|].
  destruct e; simpl; auto. rewrite IH. lia.
Qed.

Lemma last_cons_default {A} (a d : A) l : List.last (a :: l) d = List.last l a.
Proof.
  revert a d. induction l as [|b l IH]; intros a d; [done|].
  change (List.last (a :: b :: l) d) with (List.last (b :: l) d).
  by rewrite !IH.
Qed.

(** One turn of the loop of [bitbang_path_move] on a valid edge. *)
Lemma path_move_step next rest tms s :
  (exists b, tap_state_transition (cur_state s) b = next) ->
  exists k t,
    path_move_loop (next :: rest) tms s
    = path_move_loop rest k (at_states next (end_state s) (advance (tms_clock t) 0 s)) /\
    tap_state_transition (cur_state s) (negb (t =? 0)) = next.
Proof.
  intros [b Hb].
  exists (if decide (tap_state_transition (cur_state s) false = next) then 0 else 1),
         (if decide (tap_state_transition (cur_state s) false = next) then 0 else 1).
  cbn [path_move_loop]. unfold bind at 1. simpl. unfold bind at 1.
  destruct (decide (tap_state_transition (cur_state s) false = next)) as [E|E].
  - split; [|exact E]. unfold bind, ret, bb_do_write, emit, tap_set_state, at_states,
      advance; simpl. by rewrite <- app_assoc.
  - assert (Hb' : tap_state_transition (cur_state s) true = next)
      by (destruct b; congruence).
    rewrite decide_True by done. split; [|exact Hb'].
    unfold bind, ret, bb_do_write, emit, tap_set_state, at_states,
      advance; simpl. by rewrite <- app_assoc.
Qed.

Lemma at_states_advance_twice c e c0 e0 a b s :
  at_states c e (advance b 0 (at_states c0 e0 (advance a 0 s)))
  = at_states c e (advance (a ++ b) 0 s).
Proof. unfold at_states, advance; simpl. by rewrite <- app_assoc. Qed.

(** The loop of [bitbang_path_move] along a walk. *)
Lemma path_move_loop_walk path : forall tms s,
  is_walk (cur_state s) path ->
  exists evs tms',
    path_move_loop path tms s
    = Ret tms' (at_states (List.last path (cur_state s)) (end_state s) (advance evs 0 s)) /\
    (forall level, follow (cur_state s) (clocked_tms level evs) = path) /\
    (forall level, rising_edges level evs = length path) /\
    Forall (fun e => exists tck t, e = bb_write tck t 0) evs /\
    (forall level, tck_after level evs = match path with [] => level | _ => 1 end).
Proof.
  induction path as [|next rest IH]; intros tms s Hw.
  - exists [], tms. simpl. unfold ret, at_states. rewrite advance_nil.
    destruct s; simpl. repeat split; auto.
  - destruct Hw as [Hb Hw].
    destruct (path_move_step next rest tms s Hb) as (k & t & E1 & Ht). rewrite E1.
    destruct (IH k (at_states next (end_state s) (advance (tms_clock t) 0 s)) Hw)
      as (evs & tms' & Hrun & Hfollow & Hedges & Htdi & Hlvl).
    exists (tms_clock t ++ evs), tms'. split.
    { rewrite Hrun. f_equal. rewrite last_cons_default.
      apply at_states_advance_twice. }
    split.
    { intros level. simpl.
      destruct (level =? 0); simpl; rewrite Ht; f_equal; apply Hfollow. }
    split.
    { intros level. simpl. rewrite Hedges. by destruct (level =? 0). }
    split.
    { repeat (constructor; [by eexists _, _|]). exact Htdi. }
    intros level. simpl. rewrite Hlvl. by destruct rest.
Qed.

(** X1: [bitbang_path_move] along a path each state of which is one
    transition away from the one before returns; at the rising edges of
    TCK it presents the TMS levels that take a TAP controller through
    exactly the states of the path, one rising edge per state, with TDI
    low throughout and TCK low at the end; the recorded TAP state and
    the end state are then the last state of the path (the state
    recorded before, for an empty path). *)
Theorem path_move_follows_walk (path : list tap_state_t) (s : jtag_state) :
  is_walk (cur_state s) path ->
  exists evs s',
    bitbang_path_move path s = Ret tt s' /\
    pins s' = pins s ++ evs /\
    (forall level, follow (cur_state s) (clocked_tms level evs) = path) /\
    (forall level, rising_edges level evs = length path) /\
    Forall (fun e => exists tck t, e = bb_write tck t 0) evs /\
    (forall level, tck_after level evs = 0) /\
    cur_state s' = List.last path (cur_state s) /\
    end_state s' = List.last path (cur_state s).
Proof.
  intros Hw. destruct (path_move_loop_walk path 0 s Hw)
    as (evs & tms' & Hrun & Hfollow & Hedges & Htdi & Hlvl).
  exists (evs ++ [bb_write 0 tms' 0]). eexists. split.
  { unfold bitbang_path_move. unfold bind at 1. rewrite Hrun.
    unfold bind, bb_do_write, emit, tap_get_state, tap_set_end_state. simpl.
    reflexivity. }
  simpl. split; [by rewrite app_assoc|].
  split.
  { intros level. rewrite clocked_tms_app. simpl.
    rewrite andb_false_r, app_nil_r. apply Hfollow. }
  split.
  { intros level. rewrite rising_edges_app. simpl.
    rewrite andb_false_r, Hedges. lia. }
  split.
  { apply Forall_app. split; [done|]. constructor; [by eexists _, _|constructor]. }
  split; [|done].
  intros level. by rewrite tck_after_app.
Qed.

(** The loop of [bitbang_path_move] up to a state that is no
    transition away. *)
Lemma path_move_loop_invalid bad rest good : forall tms s,
  is_walk (cur_state s) good ->
  tap_state_transition (List.last good (cur_state s)) false <> bad ->
  tap_state_transition (List.last good (cur_state s)) true <> bad ->
  exists evs,
    path_move_loop (good ++ bad :: rest) tms s
    = Stop ProcessExit
        (logged (LOG_ERROR "BUG: %s -> %s isn't a valid TAP transition"
                   [ArgS (tap_state_name (List.last good (cur_state s)));
                    ArgS (tap_state_name bad)])
           (at_states (List.last good (cur_state s)) (end_state s) (advance evs 0 s))) /\
    (forall level, follow (cur_state s) (clocked_tms level evs) = good) /\
    (forall level, rising_edges level evs = length good).
Proof.
  induction good as [|next good IH]; intros tms s Hw H0 H1.
  - exists []. simpl in *. unfold bind at 1. simpl. unfold bind at 1.
    rewrite decide_False by done. rewrite decide_False by done.
    split; [|done]. unfold bind, jlog_add, stop, logged, at_states, advance.
    destruct s; simpl. by rewrite app_nil_r.
  - destruct Hw as [Hb Hw]. rewrite last_cons_default in *.
    destruct (path_move_step next (good ++ bad :: rest) tms s Hb) as (k & t & E1 & Ht).
    rewrite <- app_comm_cons, E1.
    destruct (IH k (at_states next (end_state s) (advance (tms_clock t) 0 s)) Hw H0 H1)
      as (evs & Hrun & Hfollow & Hedges).
    exists (tms_clock t ++ evs). split.
    { rewrite Hrun. f_equal. unfold logged. simpl. by rewrite <- app_assoc. }
    split.
    { intros level. simpl.
      destruct (level =? 0); simpl; rewrite Ht; f_equal; apply Hfollow. }
    intros level. simpl. rewrite Hedges. by destruct (level =? 0).
Qed.

(** X2: when a state of the path is neither the TMS-low nor the
    TMS-high successor of the state before it, [bitbang_path_move]
    clocks the TAP through the states before it, logs "BUG: %s -> %s
    isn't a valid TAP transition" with the names of the two states and
    ends the process; the recorded state is the last state reached and
    the end state is not changed. *)
Theorem path_move_invalid_edge_exits
    (good : list tap_state_t) (bad : tap_state_t) (rest : list tap_state_t)
    (s : jtag_state) :
  is_walk (cur_state s) good ->
  tap_state_transition (List.last good (cur_state s)) false <> bad ->
  tap_state_transition (List.last good (cur_state s)) true <> bad ->
  exists evs s',
    bitbang_path_move (good ++ bad :: rest) s = Stop ProcessExit s' /\
    pins s' = pins s ++ evs /\
    (forall level, follow (cur_state s) (clocked_tms level evs) = good) /\
    (forall level, rising_edges level evs = length good) /\
    cur_state s' = List.last good (cur_state s) /\
    end_state s' = end_state s /\
    jlog s' = jlog s ++
      [LOG_ERROR "BUG: %s -> %s isn't a valid TAP transition"
         [ArgS (tap_state_name (List.last good (cur_state s)));
          ArgS (tap_state_name bad)]].
Proof.
  intros Hw H0 H1.
  destruct (path_move_loop_invalid bad rest good 0 s Hw H0 H1)
    as (evs & Hrun & Hfollow & Hedges).
  exists evs. eexists. split.
  { unfold bitbang_path_move. unfold bind at 1. rewrite Hrun. reflexivity. }
  simpl. repeat split; auto.
Qed.
End PathMoves.

(** ** Clocks and TMS sequences *)

Section Clocks.
Context {F : Type} {EC : ErrorCodes} {JC : JtagCore F}.

(** A loop whose turns all make the same calls. *)
Lemma iter_same_calls (body : J unit) evs0 :
  (forall s, body s = Ret tt (advance evs0 0 s)) ->
  forall n i s,
    iter_from n i (fun _ _ => body) tt s
    = Ret tt (advance (concat (replicate n evs0)) 0 s).
Proof.
  intros Hb. induction n as [|n IH]; intros i s; simpl.
  - unfold ret. by rewrite advance_nil.
  - unfold bind. rewrite Hb, IH, advance_advance. reflexivity.
Qed.

Lemma rising_edges_high_low t n : forall level,
  rising_edges level (concat (replicate n [bb_write 1 t 0; bb_write 0 t 0]))
  = (if level =? 0 then n else Nat.pred n) /\
  tck_after level (concat (replicate n [bb_write 1 t 0; bb_write 0 t 0]))
  = match n with O => level | Datatypes.S _ => 0 end.
Proof.
  induction n as [|n IH]; intros level; simpl.
  - split; [by destruct (level =? 0)|done].
  - destruct (IH 0) as [IH1 IH2]. change (0 =? 0) with true in IH1.
    rewrite IH1, IH2. change (1 =? 0) with false. simpl.
    rewrite andb_true_r. split; [by destruct (level =? 0)|by destruct n].
Qed.

(** X3: [bitbang_stableclocks] always returns, having made [num_cycles]
    times (not at all for a count of zero or less) the two calls
    [write(1, tms, 0)] and [write(0, tms, 0)], with TMS at 1 when the
    recorded state is [TAP_RESET] and at 0 otherwise; the recorded
    states do not change.  These are [num_cycles] rising edges of TCK
    when TCK was low before the call and one fewer when it was high,
    the first [write(1, ...)] being no edge then; TCK is low after the
    call unless nothing was written, when it is as it was. *)
Theorem stableclocks_pulses (num_cycles : Z) (s : jtag_state) :
  exists evs,
    bitbang_stableclocks num_cycles s = Ret tt (advance evs 0 s) /\
    evs = concat (replicate (Z.to_nat num_cycles)
                    [bb_write 1 (if decide (cur_state s = TAP_RESET) then 1 else 0) 0;
                     bb_write 0 (if decide (cur_state s = TAP_RESET) then 1 else 0) 0]) /\
    (forall level,
       rising_edges level evs
       = if level =? 0 then Z.to_nat num_cycles else Nat.pred (Z.to_nat num_cycles)) /\
    (forall level, tck_after level evs = if 0 <? num_cycles then 0 else level).
Proof.
  eexists. split; [|split; [reflexivity|]].
  - unfold bitbang_stableclocks, for_range. unfold bind at 1. simpl.
    rewrite Z.sub_0_r.
    apply (iter_same_calls _ [bb_write 1 _ 0; bb_write 0 _ 0]).
    intros s0. unfold bind, bb_do_write, emit, advance; simpl.
    by rewrite <- app_assoc.
  - split; intros level.
    + apply rising_edges_high_low.
    + rewrite (proj2 (rising_edges_high_low _ _ level)).
      destruct (Z.ltb_spec 0 num_cycles) as [H|H].
      * by replace (Z.to_nat num_cycles) with (Datatypes.S (Z.to_nat (num_cycles - 1))) by lia.
      * by replace (Z.to_nat num_cycles) with O by lia.
Qed.

Lemma land_shiftr_1 b k : 0 <= k -> Z.land (Z.shiftr b k) 1 = Z.b2z (Z.testbit b k).
Proof.
  intros Hk. change 1 with (Z.ones 1). rewrite Z.land_ones by lia.
  change (2 ^ 1) with 2. rewrite <- Z.bit0_mod, Z.shiftr_spec by lia.
  by rewrite Z.add_0_l.
Qed.

(** The loop of [bitbang_execute_tms] over bits that are there. *)
Lemma tms_loop bits n : forall i a s,
  0 <= i -> i + Z.of_nat n <= 8 * Z.of_nat (length bits) ->
  exists evs tms,
    iter_from n i
      (fun i _ => match at_index bits (i / 8) with
                  | Some b => clock_tms (Z.land (Z.shiftr b (i mod 8)) 1)
                  | None => stop Undefined
                  end) a s
    = Ret tms (advance evs 0 s) /\
    (forall level, clocked_tms level evs = map (bit_of bits) (indices n i)) /\
    (forall level, rising_edges level evs = n) /\
    Forall (fun e => exists tck t, e = bb_write tck t 0) evs.
Proof.
  induction n as [|n IH]; intros i a s Hi Hn.
  - exists [], a. simpl. unfold ret. rewrite advance_nil. repeat split; auto.
  - cbn [iter_from]. unfold bind at 1.
    destruct (at_index_Some bits (i / 8)) as [b Hb]; [lia|]. rewrite Hb.
    rewrite clock_tms_run.
    destruct (IH (i + 1) (Z.land (Z.shiftr b (i mod 8)) 1)
                (advance (tms_clock (Z.land (Z.shiftr b (i mod 8)) 1)) 0 s))
      as (evs & tms & Hrun & Hc & He & Ht); [lia|lia|].
    exists (tms_clock (Z.land (Z.shiftr b (i mod 8)) 1) ++ evs), tms.
    split; [by rewrite Hrun, advance_advance|].
    split.
    { intros level. simpl. rewrite Hc.
      assert (E : negb (Z.land (Z.shiftr b (i mod 8)) 1 =? 0) = bit_of bits i).
      { unfold bit_of. rewrite Hb, land_shiftr_1 by lia.
        by destruct (Z.testbit b (i mod 8)). }
      destruct (level =? 0); simpl; by rewrite E. }
    split.
    { intros level. simpl. rewrite He. by destruct (level =? 0). }
    repeat (constructor; [by eexists _, _|]). exact Ht.
Qed.

(** X4: a TMS command whose [num_bits] bits are within its array
    returns [ERROR_OK] after presenting bit 0, bit 1, ... of the array
    on TMS at one rising edge of TCK each, with TDI low and TCK low at
    the end; the recorded TAP state and end state are left as they
    were, whatever the bits. *)
Theorem execute_tms_clocks_bits (num_bits : Z) (bits : list Z) (s : jtag_state) :
  num_bits <= 8 * Z.of_nat (length bits) ->
  exists evs,
    bitbang_execute_tms num_bits bits s = Ret ERROR_OK (advance evs 0 s) /\
    (forall level, clocked_tms level evs
                   = map (bit_of bits) (indices (Z.to_nat num_bits) 0)) /\
    (forall level, rising_edges level evs = Z.to_nat num_bits) /\
    Forall (fun e => exists tck t, e = bb_write tck t 0) evs /\
    (forall level, tck_after level evs = 0).
Proof.
  intros Hn. unfold bitbang_execute_tms, for_range.
  destruct (tms_loop bits (Z.to_nat (num_bits - 0)) 0 0 s)
    as (evs & tms & Hrun & Hc & He & Ht); [lia|lia|].
  rewrite Z.sub_0_r in *.
  exists (evs ++ [bb_write 0 tms 0]). split.
  { unfold bind at 1. rewrite Hrun.
    unfold bind, bb_do_write, emit, ret, advance; simpl. by rewrite <- app_assoc. }
  split.
  { intros level. rewrite clocked_tms_app. simpl.
    by rewrite andb_false_r, app_nil_r. }
  split.
  { intros level. rewrite rising_edges_app. simpl. rewrite andb_false_r, He. lia. }
  split.
  { apply Forall_app. split; [done|]. constructor; [by eexists _, _|constructor]. }
  intros level. by rewrite tck_after_app.
Qed.
End Clocks.

(** ** Run-test and scan *)

Section Commands.
Context {F : Type} {EC : ErrorCodes} {JC : JtagCore F}.

Lemma at_states_same s : at_states (cur_state s) (end_state s) s = s.
Proof. by destruct s. Qed.

Lemma bind_run {S A B} (m : M S A) (k : A -> M S B) s a s' :
  m s = Ret a s' -> bind m k s = k a s'.
Proof. intros H. unfold bind. by rewrite H. Qed.

Lemma idle_cycles_run n s :
  for_range 0 n (fun _ _ => bb_do_write 0 0 0;;; bb_do_write 1 0 0) tt s
  = Ret tt (advance (concat (replicate (Z.to_nat n) (tms_clock 0))) 0 s).
Proof.
  unfold for_range. rewrite Z.sub_0_r.
  apply (iter_same_calls _ (tms_clock 0)). intros s0.
  unfold bind, bb_do_write, emit, advance; simpl. by rewrite <- app_assoc.
Qed.

Lemma move_to_run a s :
  cur_state s = a \/ tap_is_state_stable a = true ->
  (if decide (cur_state s = a) then ret tt
   else bitbang_end_state a;;; bitbang_state_move 0) s
  = Ret tt (at_states a (if decide (cur_state s = a) then end_state s else a)
              (advance (move_unless_there (cur_state s) a 0) 0 s)).
Proof.
  intros H. unfold move_unless_there.
  destruct (decide (cur_state s = a)) as [E|E].
  - unfold ret. rewrite advance_nil. rewrite <- E. by rewrite at_states_same.
  - destruct H as [H|H]; [done|].
    rewrite (bind_run _ _ _ _ _ (end_state_stable a s H)).
    rewrite state_move_run. reflexivity.
Qed.

(** [bitbang_runtest] with a stable end state requested *)
Lemma runtest_run (num_cycles : Z) (s : jtag_state) :
  tap_is_state_stable (end_state s) = true ->
  cur_state s = TAP_IDLE \/ tap_is_state_stable TAP_IDLE = true ->
  bitbang_runtest num_cycles s =
  Ret tt (at_states (end_state s) (end_state s)
            (advance (move_unless_there (cur_state s) TAP_IDLE 0
                      ++ concat (replicate (Z.to_nat num_cycles) (tms_clock 0))
                      ++ [bb_write 0 0 0]
                      ++ move_unless_there TAP_IDLE (end_state s) 0) 0 s)).
Proof.
  intros He Hi. unfold bitbang_runtest.
  unfold bind at 1. simpl. unfold bind at 1. simpl.
  rewrite (bind_run _ _ _ _ _ (move_to_run TAP_IDLE s Hi)).
  rewrite (bind_run _ _ _ _ _ (idle_cycles_run num_cycles _)).
  unfold bind at 1. unfold bb_do_write at 1, emit at 1.
  match goal with |- bind _ _ ?s0 = _ =>
    rewrite (bind_run _ _ _ _ _ (end_state_stable (end_state s) s0 He)) end.
  unfold bind at 1. simpl. unfold bind at 1. simpl.
  unfold move_unless_there at 3.
  destruct (decide (TAP_IDLE = end_state s)) as [E|E].
  - unfold ret, at_states, advance; simpl. rewrite <- E.
    by rewrite <- !app_assoc.
  - rewrite state_move_run. unfold at_states, advance; simpl.
    by rewrite <- !app_assoc.
Qed.
(** X5: a RUNTEST command with a stable end state (and [TAP_IDLE]
    stable, or the TAP already there) returns with the status it was
    given; it moves to [TAP_IDLE] unless already there, pulses TCK
    [num_cycles] times with TMS and TDI low, sets TCK low, and moves to
    the end state unless that is [TAP_IDLE]; the recorded state and end
    state are then the end state asked for. *)
Theorem runtest_command_ends_in_end_state
    (bb : bitbang_interface_t) (num_cycles : Z) (end_st : tap_state_t)
    (retval : Z) (s : jtag_state) :
  tap_is_state_stable end_st = true ->
  cur_state s = TAP_IDLE \/ tap_is_state_stable TAP_IDLE = true ->
  exists s',
    execute_command bb (JTAG_RUNTEST num_cycles end_st) retval s = Ret retval s' /\
    cur_state s' = end_st /\ end_state s' = end_st /\
    pins s' = pins s
              ++ move_unless_there (cur_state s) TAP_IDLE 0
              ++ concat (replicate (Z.to_nat num_cycles) (tms_clock 0))
              ++ [bb_write 0 0 0]
              ++ move_unless_there TAP_IDLE end_st 0.
Proof.
  intros He Hi. eexists. split.
  - cbn [execute_command].
    rewrite (bind_run _ _ _ _ _ (end_state_stable end_st s He)).
    rewrite (bind_run _ _ _ _ _
               (runtest_run num_cycles (at_states (cur_state s) end_st s) He Hi)).
    reflexivity.
  - simpl. done.
Qed.

Lemma scan_prelude_run ir s :
  cur_state s = shift_state ir \/
  (tap_is_state_stable (shift_state ir) = true /\
   tap_is_state_stable (end_state s) = true) ->
  (if negb ((negb ir && bool_decide (cur_state s = TAP_DRSHIFT))
            || (ir && bool_decide (cur_state s = TAP_IRSHIFT)))
   then
     (if ir then bitbang_end_state TAP_IRSHIFT
      else bitbang_end_state TAP_DRSHIFT) ;;;
     bitbang_state_move 0 ;;;
     bitbang_end_state (end_state s)
   else ret tt) s
  = Ret tt (at_states (shift_state ir) (end_state s)
              (advance (move_unless_there (cur_state s) (shift_state ir) 0) 0 s)).
Proof.
  intros H. unfold move_unless_there.
  assert (Ec : (negb ir && bool_decide (cur_state s = TAP_DRSHIFT))
               || (ir && bool_decide (cur_state s = TAP_IRSHIFT))
               = bool_decide (cur_state s = shift_state ir))
    by (destruct ir; simpl; [done|by rewrite orb_false_r]).
  rewrite Ec.
  destruct (decide (cur_state s = shift_state ir)) as [E|E].
  - rewrite bool_decide_eq_true_2 by done. simpl. unfold ret.
    rewrite advance_nil, <- E. by rewrite at_states_same.
  - rewrite bool_decide_eq_false_2 by done. simpl.
    destruct H as [H|[Hs He]]; [done|].
    replace (if ir then bitbang_end_state TAP_IRSHIFT else bitbang_end_state TAP_DRSHIFT)
      with (bitbang_end_state (shift_state ir)) by (by destruct ir).
    rewrite (bind_run _ _ _ _ _ (end_state_stable _ s Hs)).
    rewrite (bind_run _ _ _ _ _ (state_move_run 0 _)).
    rewrite end_state_stable by done. reflexivity.
Qed.

(** [bitbang_scan] as a whole. *)
Lemma scan_run (bb : bitbang_interface_t) (ir : bool) (type : scan_type)
    (buffer : list Z) (scan_size : Z) (s : jtag_state) :
  scan_size <= 8 * Z.of_nat (length buffer) ->
  cur_state s = shift_state ir \/
  (tap_is_state_stable (shift_state ir) = true /\
   tap_is_state_stable (end_state s) = true) ->
  exists buffer',
    bitbang_scan bb ir type buffer scan_size s
    = Ret buffer'
        (at_states (end_state s) (end_state s)
           (advance (move_unless_there (cur_state s) (shift_state ir) 0
                     ++ flat_map (shift_clock type buffer scan_size)
                          (indices (Z.to_nat scan_size) 0)
                     ++ move_unless_there (shift_state ir) (end_state s) 1)
              (Z.to_nat scan_size * shift_reads type) s)) /\
    length buffer' = length buffer /\
    (type <> SCAN_OUT -> forall i, 0 <= i < scan_size ->
       bit_of buffer' i = negb (bb_tdo bb (samples s + Z.to_nat i) =? 0)) /\
    (type = SCAN_OUT -> buffer' = buffer) /\
    (forall i, i < 0 \/ scan_size <= i -> bit_of buffer' i = bit_of buffer i).
Proof.
  intros Hn Hst. unfold bitbang_scan.
  unfold bind at 1. simpl. unfold bind at 1. simpl.
  rewrite (bind_run _ _ _ _ _ (scan_prelude_run ir s Hst)).
  set (s1 := at_states _ _ _).
  destruct (scan_loop bb type scan_size buffer (Z.to_nat (scan_size - 0)) 0 buffer s1)
    as (buffer' & Hrun & Hl & Hout & Hframe & Hbits); [lia|lia|done|].
  rewrite Z.sub_0_r in *.
  exists buffer'. split.
  { unfold bitbang_scan_bits, for_range. rewrite Z.sub_0_r.
    rewrite (bind_run _ _ _ _ _ Hrun).
    unfold move_unless_there at 2.
    unfold bind at 1. unfold tap_get_state at 1. cbn beta iota.
    unfold bind at 1. unfold tap_get_end_state at 1. cbn beta iota.
    change (cur_state (advance _ _ s1)) with (shift_state ir).
    change (end_state (advance _ _ s1)) with (end_state s).
    destruct (decide (shift_state ir = end_state s)) as [E|E].
    - unfold bind, ret, at_states, advance; simpl. rewrite <- E.
      by rewrite app_nil_r, <- app_assoc.
    - rewrite (bind_run _ _ _ _ _ (state_move_run 1 _)).
      unfold ret, at_states, advance; simpl.
      by rewrite <- !app_assoc. }
  split; [done|]. split.
  { intros E i Hi. rewrite (Hbits E) by lia. simpl. by rewrite Z.sub_0_r. }
  split; [done|].
  intros i Hi. apply Hframe. lia.
Qed.

(** X6: a SCAN command with a stable end state, whose bits are within
    the buffer built, started in its shift state or with that state
    stable, returns the status it was given or
    [ERROR_JTAG_QUEUE_FAILED]; the calls on the pins are those of the
    move to the shift state (none when already there), those of the
    bits, and those of the move to the end state with the first bit of
    the path skipped (none when the end state is the shift state);
    [read()] is called once per bit unless the scan only sends; the
    recorded state and end state are then the end state asked for. *)
Theorem scan_command_ends_in_end_state
    (bb : bitbang_interface_t) (scan : scan_command F) (retval : Z) (s : jtag_state) :
  tap_is_state_stable (scan_end_state scan) = true ->
  cur_state s = shift_state (ir_scan scan) \/
  tap_is_state_stable (shift_state (ir_scan scan)) = true ->
  snd (jtag_build_buffer scan) <= 8 * Z.of_nat (length (fst (jtag_build_buffer scan))) ->
  exists r s',
    execute_command bb (JTAG_SCAN scan) retval s = Ret r s' /\
    (r = retval \/ r = ERROR_JTAG_QUEUE_FAILED) /\
    cur_state s' = scan_end_state scan /\ end_state s' = scan_end_state scan /\
    pins s' = pins s
              ++ move_unless_there (cur_state s) (shift_state (ir_scan scan)) 0
              ++ flat_map (shift_clock (jtag_scan_type scan)
                             (fst (jtag_build_buffer scan))
                             (snd (jtag_build_buffer scan)))
                   (indices (Z.to_nat (snd (jtag_build_buffer scan))) 0)
              ++ move_unless_there (shift_state (ir_scan scan)) (scan_end_state scan) 1 /\
    samples s' = (Z.to_nat (snd (jtag_build_buffer scan))
                  * shift_reads (jtag_scan_type scan) + samples s)%nat.
Proof.
  intros He Hsh Hn. cbn [execute_command].
  rewrite (bind_run _ _ _ _ _ (end_state_stable _ s He)).
  destruct (jtag_build_buffer scan) as [buffer scan_size]. simpl in Hn.
  destruct (scan_run bb (ir_scan scan) (jtag_scan_type scan) buffer scan_size
              (at_states (cur_state s) (scan_end_state scan) s))
    as (buffer' & Hrun & _); [done|simpl; tauto|].
  rewrite (bind_run _ _ _ _ _ Hrun).
  destruct (decide (jtag_read_buffer buffer' scan = ERROR_OK)).
  - eexists _, _. split; [reflexivity|]. simpl. auto.
  - eexists _, _. split; [reflexivity|]. simpl. auto.
Qed.

Lemma last_shift_clocks type buffer N n :
  last (flat_map (shift_clock type buffer N) (indices (Datatypes.S n) 0))
  = Some (bb_write 1 (shift_tms N (Z.of_nat n)) (shift_tdi type buffer (Z.of_nat n))).
Proof.
  assert (H : forall i, last (flat_map (shift_clock type buffer N)
                                (indices (Datatypes.S n) i))
              = Some (bb_write 1 (shift_tms N (i + Z.of_nat n))
                        (shift_tdi type buffer (i + Z.of_nat n)))).
  { induction n as [|n IH]; intros i.
    - cbn [indices flat_map]. rewrite app_nil_r, Z.add_0_r. unfold shift_clock.
      rewrite !app_assoc. apply last_snoc.
    - change (indices (Datatypes.S (Datatypes.S n)) i)
        with (i :: indices (Datatypes.S n) (i + 1)).
      cbn [flat_map]. rewrite last_app, IH.
      do 3 f_equal; lia. }
  rewrite H. by rewrite Z.add_0_l.
Qed.

(** X7: a scan of at least one bit, started in its shift state with
    that state as the end state, makes no state move: its last call on
    the pins is [write(1, 1, tdi)] for the last bit, so that TCK stays
    high and TMS was 1 at the last rising edge, while the recorded
    state is still the shift state. *)
Theorem scan_ending_in_shift_state_leaves_tck_high
    (bb : bitbang_interface_t) (ir : bool) (type : scan_type)
    (buffer : list Z) (scan_size : Z) (s : jtag_state) :
  1 <= scan_size <= 8 * Z.of_nat (length buffer) ->
  cur_state s = shift_state ir ->
  end_state s = shift_state ir ->
  exists buffer' s',
    bitbang_scan bb ir type buffer scan_size s = Ret buffer' s' /\
    last (pins s') = Some (bb_write 1 1 (shift_tdi type buffer (scan_size - 1))) /\
    cur_state s' = shift_state ir.
Proof.
  intros Hn Hc He.
  destruct (scan_run bb ir type buffer scan_size s) as (buffer' & Hrun & _);
    [lia|by left|].
  exists buffer'. eexists. split; [exact Hrun|]. simpl. split; [|done].
  unfold move_unless_there. rewrite Hc, He.
  rewrite !decide_True by done. rewrite app_nil_r. simpl.
  replace (Z.to_nat scan_size) with (Datatypes.S (Z.to_nat (scan_size - 1))) by lia.
  rewrite last_app, last_shift_clocks.
  replace (Z.of_nat (Z.to_nat (scan_size - 1))) with (scan_size - 1) by lia.
  unfold shift_tms. by rewrite decide_True.
Qed.
End Commands.

(** ** Drains *)

Global Instance pins_grow_preorder : PreOrder pins_grow.
Proof.
  split.
  - intros s. exists []. split; [by rewrite app_nil_r|constructor].
  - intros a b c (e1 & E1 & F1) (e2 & E2 & F2). exists (e1 ++ e2). split.
    + by rewrite E2, E1, app_assoc.
    + by apply Forall_app.
Qed.

Section Drain.
Context {F : Type} {EC : ErrorCodes} {JC : JtagCore F}.

Lemma grow_same_pins {A} (m : J A) :
  (forall s, pins (final (m s)) = pins s) -> keeps pins_grow m.
Proof. intros H s. exists []. split; [by rewrite H, app_nil_r|constructor]. Qed.

Lemma grow_emit e : is_blink e = false -> keeps pins_grow (emit e).
Proof. intros H s. exists [e]. split; [done|by constructor]. Qed.

Lemma grow_read bb : keeps pins_grow (bb_do_read bb).
Proof. intros s. exists [bb_read]. split; [done|by constructor]. Qed.

Lemma grow_bind {A B} (m : J A) (k : A -> J B) :
  keeps pins_grow m -> (forall a, keeps pins_grow (k a)) -> keeps pins_grow (bind m k).
Proof. apply keeps_bind, _. Qed.

Lemma grow_iter {A} (body : Z -> A -> J A) :
  (forall i a, keeps pins_grow (body i a)) ->
  forall n i a, keeps pins_grow (iter_from n i body a).
Proof. apply keeps_iter, _. Qed.

Ltac grows_using known :=
  repeat first
    [ known
    | apply grow_read
    | apply grow_emit; reflexivity
    | apply grow_same_pins; intros ?; reflexivity
    | apply grow_bind; [|intros ?]
    | apply grow_iter; intros ? ?
    | case_decide | case_match ].

Ltac grows := grows_using fail.

Lemma grow_end_state t : keeps pins_grow (bitbang_end_state t).
Proof. unfold bitbang_end_state. grows. Qed.

Lemma grow_state_move skip : keeps pins_grow (bitbang_state_move skip).
Proof. unfold bitbang_state_move, for_range, clock_tms, bb_do_write. grows. Qed.

Lemma grow_execute_tms n bits : keeps pins_grow (bitbang_execute_tms n bits).
Proof. unfold bitbang_execute_tms, for_range, clock_tms, bb_do_write. grows. Qed.

Lemma grow_path_move_loop path : forall tms, keeps pins_grow (path_move_loop path tms).
Proof.
  induction path as [|next rest IH]; intros tms; cbn [path_move_loop]; [grows|].
  unfold bb_do_write. grows. apply IH.
Qed.

Lemma grow_path_move path : keeps pins_grow (bitbang_path_move path).
Proof.
  unfold bitbang_path_move, bb_do_write.
  apply grow_bind; [apply grow_path_move_loop|intros ?]. grows.
Qed.

Lemma grow_runtest n : keeps pins_grow (bitbang_runtest n).
Proof.
  unfold bitbang_runtest, for_range, bb_do_write.
  grows_using ltac:(first [ apply grow_end_state | apply grow_state_move ]).
Qed.

Lemma grow_stableclocks n : keeps pins_grow (bitbang_stableclocks n).
Proof. unfold bitbang_stableclocks, for_range, bb_do_write. grows. Qed.

Lemma grow_scan bb ir type buffer n : keeps pins_grow (bitbang_scan bb ir type buffer n).
Proof.
  unfold bitbang_scan, bitbang_scan_bits, for_range, scan_bit, bb_do_write.
  grows_using ltac:(first [ apply grow_end_state | apply grow_state_move ]).
Qed.

Lemma grow_command bb (cmd : jtag_command F) r : keeps pins_grow (execute_command bb cmd r).
Proof.
  destruct cmd; cbn [execute_command];
    try destruct (jtag_build_buffer scan) as [buffer scan_size];
    grows_using ltac:(first [ apply grow_end_state | apply grow_state_move
                            | apply grow_runtest | apply grow_stableclocks
                            | apply grow_path_move | apply grow_scan
                            | apply grow_execute_tms ]).
Qed.

Lemma grow_commands bb (queue : list (jtag_command F)) :
  forall r, keeps pins_grow (execute_commands bb queue r).
Proof.
  induction queue as [|cmd next IH]; intros r; cbn [execute_commands]; [grows|].
  apply grow_bind; [apply grow_command|apply IH].
Qed.

(** X9: a drain calls [blink(1)] before anything else and [blink(0)]
    after everything else, when the interface has the member, and no
    command calls [blink]; when the drain ends the process or stops
    short, [blink(0)] is not called. *)
Theorem blink_brackets_the_drain (bb : bitbang_interface_t)
    (queue : list (jtag_command F)) (s : jtag_state) :
  exists mid,
    blink_free mid /\
    pins (final (bitbang_execute_queue (Some bb) queue s))
    = pins s ++ blink_call bb 1 ++ mid
      ++ match bitbang_execute_queue (Some bb) queue s with
         | Ret _ _ => blink_call bb 0
         | Stop _ _ => []
         end.
Proof.
  unfold bitbang_execute_queue, blink_call.
  set (s0 := if bb_has_blink bb then advance [bb_blink 1] 0 s else s).
  assert (E0 : (if bb_has_blink bb then emit (bb_blink 1) else ret tt) s = Ret tt s0)
    by (subst s0; by destruct (bb_has_blink bb)).
  rewrite (bind_run _ _ _ _ _ E0).
  destruct (grow_commands bb queue ERROR_OK s0) as (mid & Hp & Hf).
  exists mid. split; [done|].
  unfold bind at 1 3.
  destruct (execute_commands bb queue ERROR_OK s0) as [r s1|f s1]; simpl in Hp |- *.
  - subst s0. destruct (bb_has_blink bb); simpl in *; rewrite Hp.
    + by rewrite <- !app_assoc.
    + by rewrite app_nil_r.
  - subst s0. destruct (bb_has_blink bb); simpl in *; rewrite Hp.
    + by rewrite app_nil_r, <- !app_assoc.
    + by rewrite app_nil_r.
Qed.

(** *** The status of a drain *)

Lemma command_status bb (cmd : jtag_command F) r s r' s' :
  execute_command bb cmd r s = Ret r' s' ->
  r' = r \/ r' = ERROR_OK \/ r' = ERROR_JTAG_QUEUE_FAILED.
Proof.
  intros H. destruct cmd; cbn [execute_command] in H.
  1-5, 7: repeat (apply bind_Ret in H as (? & ? & ? & H)); unfold ret in H;
    injection H as <- _; auto.
  - apply bind_Ret in H as (? & ? & _ & H).
    destruct (jtag_build_buffer scan) as [buffer n].
    apply bind_Ret in H as (b' & ? & _ & H).
    case_decide; unfold ret in H; injection H as <- _; auto.
  - apply execute_tms_status in H. auto.
  - apply bind_Ret in H as (? & ? & _ & H). inversion H.
Qed.

Lemma commands_status bb (queue : list (jtag_command F)) :
  forall r s r' s',
    execute_commands bb queue r s = Ret r' s' ->
    r' = r \/ r' = ERROR_OK \/ r' = ERROR_JTAG_QUEUE_FAILED.
Proof.
  induction queue as [|cmd next IH]; intros r s r' s' H; cbn [execute_commands] in H.
  - inversion H. auto.
  - apply bind_Ret in H as (r1 & s1 & H1 & H).
    apply command_status in H1. apply IH in H.
    destruct H as [->|H]; [exact H1|by right].
Qed.

Lemma drain_Ret bb (queue : list (jtag_command F)) s r s' :
  bitbang_execute_queue (Some bb) queue s = Ret r s' ->
  exists s0 s1, execute_commands bb queue ERROR_OK s0 = Ret r s1.
Proof.
  unfold bitbang_execute_queue. intros H.
  apply bind_Ret in H as (u & s0 & _ & H).
  apply bind_Ret in H as (r1 & s1 & H1 & H).
  apply bind_Ret in H as (u' & s2 & _ & H). inversion H; subst.
  by exists s0, s1.
Qed.

(** X10: a drain that returns returns [ERROR_OK] or
    [ERROR_JTAG_QUEUE_FAILED]. *)
Theorem drain_status_is_ok_or_queue_failed (bb : bitbang_interface_t)
    (queue : list (jtag_command F)) (s : jtag_state) (r : Z) (s' : jtag_state) :
  bitbang_execute_queue (Some bb) queue s = Ret r s' ->
  r = ERROR_OK \/ r = ERROR_JTAG_QUEUE_FAILED.
Proof.
  intros H. apply drain_Ret in H as (s0 & s1 & H).
  apply commands_status in H. destruct H as [H|H]; [by left|exact H].
Qed.

Lemma drain_Ret_from bb (queue : list (jtag_command F)) s r s' :
  bitbang_execute_queue (Some bb) queue s = Ret r s' ->
  exists s1, execute_commands bb queue ERROR_OK (drain_start bb s) = Ret r s1.
Proof.
  unfold bitbang_execute_queue, drain_start. intros H.
  apply bind_Ret in H as (u & s0 & H0 & H).
  apply bind_Ret in H as (r1 & s1 & H1 & H).
  apply bind_Ret in H as (u' & s2 & _ & H). inversion H; subst.
  exists s1. destruct (bb_has_blink bb); by inversion H0; subst.
Qed.

(** The SCAN case: the scan, then the status by the check of the
    buffer it leaves. *)
Lemma scan_command_Ret bb (scan : scan_command F) retval s r s' :
  execute_command bb (JTAG_SCAN scan) retval s = Ret r s' ->
  exists buffer',
    scan_of bb scan s = Ret buffer' s' /\
    r = if decide (jtag_read_buffer buffer' scan = ERROR_OK) then retval
        else ERROR_JTAG_QUEUE_FAILED.
Proof.
  unfold scan_of. cbn [execute_command]. intros H.
  destruct (jtag_build_buffer scan) as [buffer n]. simpl.
  apply bind_Ret in H as (u & s1 & H1 & H).
  apply bind_Ret in H as (b' & s2 & H2 & H).
  assert (s2 = s') as ->
    by (destruct (decide (jtag_read_buffer b' scan = ERROR_OK)); by inversion H).
  exists b'. split.
  - unfold bind at 1. by rewrite H1.
  - by destruct (decide (jtag_read_buffer b' scan = ERROR_OK)); inversion H.
Qed.

Lemma command_keeps_ok bb (cmd : jtag_command F) s r' s' :
  (forall scan, cmd <> JTAG_SCAN scan) ->
  execute_command bb cmd ERROR_OK s = Ret r' s' -> r' = ERROR_OK.
Proof.
  intros Hc H. destruct cmd; cbn [execute_command] in H.
  1-5, 7: repeat (apply bind_Ret in H as (? & ? & ? & H)); unfold ret in H;
    injection H as <- _; auto.
  - by destruct (Hc scan).
  - by apply execute_tms_status in H.
  - apply bind_Ret in H as (? & ? & _ & H). inversion H.
Qed.

Lemma passing_checks_keep_ok bb (rest : list (jtag_command F)) :
  forall (before : list (jtag_command F)) s0 s1 r s',
    (forall pre scan post r1 s2 buffer' s3,
       before ++ rest = pre ++ JTAG_SCAN scan :: post ->
       execute_commands bb pre ERROR_OK s0 = Ret r1 s2 ->
       scan_of bb scan s2 = Ret buffer' s3 ->
       jtag_read_buffer buffer' scan = ERROR_OK) ->
    execute_commands bb before ERROR_OK s0 = Ret ERROR_OK s1 ->
    execute_commands bb rest ERROR_OK s1 = Ret r s' ->
    r = ERROR_OK.
Proof.
  induction rest as [|cmd next IH]; intros before s0 s1 r s' Hq Hb H;
    cbn [execute_commands] in H.
  - by inversion H.
  - apply bind_Ret in H as (r1 & s2 & H1 & H).
    assert (r1 = ERROR_OK) as ->.
    { destruct cmd; try (by apply command_keeps_ok in H1).
      apply scan_command_Ret in H1 as (buffer' & Hs & ->).
      rewrite decide_True; [done|].
      exact (Hq before scan next ERROR_OK s1 buffer' s2 eq_refl Hb Hs). }
    apply (IH (before ++ [cmd]) s0 s2 r s'); [| |done].
    + intros pre scan post r1 s3 buffer' s4 E Hp Hs.
      apply (Hq pre scan post r1 s3 buffer' s4); [|done|done].
      by rewrite <- E, <- app_assoc.
    + rewrite execute_commands_app, (bind_run _ _ _ _ _ Hb). cbn [execute_commands].
      by rewrite (bind_run _ _ _ _ _ H1).
Qed.

(** X11: a drain that returns returns [ERROR_OK] when [jtag_read_buffer]
    accepts, for every scan of the queue, the buffer that the scan
    leaves in this drain: the one that results when the scan is run in
    the session that [blink(1)] and the commands before it leave. *)
Theorem passing_checks_give_ok (bb : bitbang_interface_t)
    (queue : list (jtag_command F)) (s : jtag_state) (r : Z) (s' : jtag_state) :
  (forall before scan after r1 s1 buffer' s2,
     queue = before ++ JTAG_SCAN scan :: after ->
     execute_commands bb before ERROR_OK (drain_start bb s) = Ret r1 s1 ->
     scan_of bb scan s1 = Ret buffer' s2 ->
     jtag_read_buffer buffer' scan = ERROR_OK) ->
  bitbang_execute_queue (Some bb) queue s = Ret r s' ->
  r = ERROR_OK.
Proof.
  intros Hq H. apply drain_Ret_from in H as (s1 & H).
  by apply (passing_checks_keep_ok bb queue [] (drain_start bb s) (drain_start bb s) r s1).
Qed.

Lemma failure_kept_by_queue bb (queue : list (jtag_command F)) :
  Forall (fun cmd => is_tms_command cmd = false) queue ->
  forall s r s',
    execute_commands bb queue ERROR_JTAG_QUEUE_FAILED s = Ret r s' ->
    r = ERROR_JTAG_QUEUE_FAILED.
Proof.
  induction 1 as [|cmd next Hc Hq IH]; intros s r s' H; cbn [execute_commands] in H.
  - by inversion H.
  - apply bind_Ret in H as (r1 & s2 & H1 & H).
    apply failure_kept_by_other_commands in H1.
    + subst r1. by apply IH in H.
    + intros n b ->. done.
Qed.

(** X12: a drain that returns returns [ERROR_JTAG_QUEUE_FAILED] when
    [jtag_read_buffer] rejects the buffer that one of its scans leaves
    in this drain (the scan being run in the session that [blink(1)]
    and the commands before it leave) and no TMS command comes after
    that scan in the queue. *)
Theorem failed_check_is_reported (bb : bitbang_interface_t)
    (before after : list (jtag_command F)) (scan : scan_command F)
    (s : jtag_state) (r1 : Z) (s1 : jtag_state) (buffer' : list Z) (s2 : jtag_state)
    (r : Z) (s' : jtag_state) :
  execute_commands bb before ERROR_OK (drain_start bb s) = Ret r1 s1 ->
  scan_of bb scan s1 = Ret buffer' s2 ->
  jtag_read_buffer buffer' scan <> ERROR_OK ->
  Forall (fun cmd => is_tms_command cmd = false) after ->
  bitbang_execute_queue (Some bb) (before ++ JTAG_SCAN scan :: after) s = Ret r s' ->
  r = ERROR_JTAG_QUEUE_FAILED.
Proof.
  intros Hb Hs Hf Ha H. apply drain_Ret_from in H as (s3 & H).
  rewrite execute_commands_app, (bind_run _ _ _ _ _ Hb) in H.
  cbn [execute_commands] in H.
  rewrite (bind_run _ _ _ _ _ (failed_scan_returns bb scan r1 s1 buffer' s2 Hs Hf)) in H.
  by apply failure_kept_by_queue in H.
Qed.

(** X8: a command with a tag the executor has no case for, and a
    RUNTEST, TLR_RESET or SCAN command whose end state is not stable,
    ends the process when the drain reaches it: its line is logged, no
    call on the pins is made for it, the commands after it are not run
    and [blink(0)] is not called. *)
Theorem fatal_command_ends_the_drain (bb : bitbang_interface_t)
    (before after : list (jtag_command F)) (cmd : jtag_command F)
    (line : log_line) (s : jtag_state) (r : Z) (s1 : jtag_state) :
  fatal_line cmd = Some line ->
  execute_commands bb before ERROR_OK
    (if bb_has_blink bb then advance [bb_blink 1] 0 s else s) = Ret r s1 ->
  bitbang_execute_queue (Some bb) (before ++ cmd :: after) s
  = Stop ProcessExit (logged line s1).
Proof.
  intros Hl Hb. unfold bitbang_execute_queue.
  assert (E0 : (if bb_has_blink bb then emit (bb_blink 1) else ret tt) s
               = Ret tt (if bb_has_blink bb then advance [bb_blink 1] 0 s else s))
    by (by destruct (bb_has_blink bb)).
  rewrite (bind_run _ _ _ _ _ E0).
  unfold bind at 1. rewrite execute_commands_app.
  rewrite (bind_run _ _ _ _ _ Hb). cbn [execute_commands].
  assert (Ec : execute_command bb cmd r s1 = Stop ProcessExit (logged line s1)).
  { destruct cmd; cbn [fatal_line] in Hl; try discriminate; cbn [execute_command].
    - destruct (tap_is_state_stable end_st) eqn:E; [done|]. inversion Hl; subst line.
      unfold bind at 1. by rewrite end_state_unstable.
    - destruct (tap_is_state_stable end_st) eqn:E; [done|]. inversion Hl; subst line.
      unfold bind at 1. by rewrite end_state_unstable.
    - destruct (tap_is_state_stable (scan_end_state scan)) eqn:E; [done|].
      inversion Hl; subst line.
      unfold bind at 1. by rewrite end_state_unstable.
    - inversion Hl; subst line. reflexivity. }
  unfold bind at 1. by rewrite Ec.
Qed.
End Drain.

(** ** Hex digits on the stream *)

Lemma decode_encode_table :
  forallb (fun x =>
             u8 (Z.lor (u8 (Z.shiftl (HEX_TO_INT (GET_UPPER_HEX x)) 4))
                       (Z.shiftl (HEX_TO_INT (GET_LOWER_HEX x)) 0)) =? x)
          (map Z.of_nat (seq 0 256)) = true.
Proof. vm_compute. reflexivity. Qed.

Lemma decode_encode x :
  0 <= x < 256 ->
  u8 (Z.lor (u8 (Z.shiftl (HEX_TO_INT (GET_UPPER_HEX x)) 4))
            (Z.shiftl (HEX_TO_INT (GET_LOWER_HEX x)) 0)) = x.
Proof.
  intros Hx. pose proof decode_encode_table as H.
  rewrite forallb_forall in H. apply Z.eqb_eq, H.
  apply in_map_iff. exists (Z.to_nat x). split; [lia|].
  apply in_seq. lia.
Qed.

Lemma land_1_even k : Z.land (2 * k) 1 = 0.
Proof. change 1 with (Z.ones 1). rewrite Z.land_ones by lia. lia. Qed.

Lemma land_1_odd k : Z.land (2 * k + 1) 1 = 1.
Proof. change 1 with (Z.ones 1) at 2. rewrite Z.land_ones by lia. lia. Qed.

Lemma set_index_twice (a : list Z) i v w :
  set_index (set_index a i v) i w = set_index a i w.
Proof. unfold set_index. apply list_insert_insert_eq. Qed.

Lemma assemble_app h1 : forall h2 d lb,
  assemble (h1 ++ h2) d lb =
  match assemble h1 d lb with
  | Some (d', lb') => assemble h2 d' lb'
  | None => None
  end.
Proof.
  induction h1 as [|c h1 IH]; intros h2 d lb; simpl; [done|].
  destruct (at_index lb (d / 2)); [apply IH|done].
Qed.

(** The two digits of one byte, read at an even count, store the byte. *)
Lemma assemble_byte x rest (k : nat) lb :
  0 <= x < 256 -> (k < length lb)%nat ->
  assemble (GET_UPPER_HEX x :: GET_LOWER_HEX x :: rest) (2 * Z.of_nat k) lb
  = assemble rest (2 * Z.of_nat (Datatypes.S k)) (set_index lb (Z.of_nat k) x).
Proof.
  intros Hx Hk. cbn [assemble].
  replace (2 * Z.of_nat k / 2) with (Z.of_nat k) by lia.
  destruct (at_index_Some lb (Z.of_nat k)) as [old ->]; [lia|].
  rewrite land_1_even. simpl (0 =? 0).  cbv iota.
  replace ((2 * Z.of_nat k + 1) / 2) with (Z.of_nat k) by lia.
  rewrite at_index_set_eq by lia.
  rewrite land_1_odd. change (1 =? 0) with false. cbv iota.
  rewrite set_index_twice, decode_encode by done.
  f_equal. lia.
Qed.

Lemma overlay_nil lb k : (k <= length lb)%nat -> overlay lb k [] = lb.
Proof. intros H. unfold overlay. simpl. rewrite Nat.add_0_r. apply take_drop. Qed.

Lemma overlay_cons lb k x bytes :
  (k < length lb)%nat ->
  overlay (set_index lb (Z.of_nat k) x) (Datatypes.S k) bytes = overlay lb k (x :: bytes).
Proof.
  intros Hk. unfold overlay, set_index. rewrite Nat2Z.id.
  rewrite drop_insert_lt by lia.
  rewrite (take_S_r _ _ x) by (apply list_lookup_insert_eq; lia).
  rewrite take_insert_ge by lia.
  rewrite <- app_assoc. simpl.
  by replace (k + Datatypes.S (length bytes))%nat with (Datatypes.S (k + length bytes)) by lia.
Qed.

Lemma length_overlay lb k bytes :
  (k + length bytes <= length lb)%nat -> length (overlay lb k bytes) = length lb.
Proof.
  intros H. unfold overlay. rewrite !length_app, length_take, length_drop. lia.
Qed.

Lemma assemble_hex_of_bytes bytes : forall (k : nat) lb,
  Forall (fun x => 0 <= x < 256) bytes ->
  (k + length bytes <= length lb)%nat ->
  assemble (hex_of_bytes bytes) (2 * Z.of_nat k) lb
  = Some (2 * Z.of_nat (k + length bytes), overlay lb k bytes).
Proof.
  induction bytes as [|x bytes IH]; intros k lb Hb Hk.
  - simpl. rewrite overlay_nil by lia. do 3 f_equal. lia.
  - inversion Hb as [|? ? Hx Hb']; subst. simpl in Hk.
    change (hex_of_bytes (x :: bytes))
      with (GET_UPPER_HEX x :: GET_LOWER_HEX x :: hex_of_bytes bytes).
    rewrite assemble_byte by (done || lia).
    rewrite IH by (done || rewrite length_set_index; lia).
    rewrite overlay_cons by lia. do 3 f_equal. simpl. lia.
Qed.

(** X13: what [GET_UPPER_HEX] and [GET_LOWER_HEX] make of bytes, the
    receive loop reads back as these bytes: the digits of [bytes],
    taken from count 0, leave [bytes] at the start of [local_buf] and
    the rest of it as it was, the count being twice their number. *)
Theorem assemble_decodes_hex (bytes lbuf : list Z) :
  Forall (fun x => 0 <= x < 256) bytes ->
  (length bytes <= length lbuf)%nat ->
  assemble (hex_of_bytes bytes) 0 lbuf
  = Some (2 * Z.of_nat (length bytes), bytes ++ drop (length bytes) lbuf).
Proof.
  intros Hb Hl. apply (assemble_hex_of_bytes bytes 0 lbuf Hb Hl).
Qed.

(** Whatever the chunks a run of digits comes in, the loop takes them
    all when the last one completes the count, and stores what the
    digits as one run would store. *)
Lemma receive_loop_chunks chunks : forall c rest d want s lb,
  c <> [] ->
  d + Z.of_nat (length (concat (chunks ++ [c]))) = 2 * want ->
  assemble (concat (chunks ++ [c])) d (local_buf s) = Some (2 * want, lb) ->
  receive_loop (chunks ++ c :: rest) d want s
  = Ret (2 * want) (set_local_buf lb (set_rx rest s)).
Proof.
  induction chunks as [|p chunks IH]; intros c rest d want s lb Hc Hn Ha.
  - simpl in *. rewrite app_nil_r in Ha, Hn. rewrite Ha.
    replace (2 * want / 2 =? want) with true by lia. reflexivity.
  - cbn [app concat] in Ha, Hn. cbn [app receive_loop].
    rewrite assemble_app in Ha. rewrite length_app in Hn.
    destruct (assemble p d (local_buf s)) as [[d1 lb1]|] eqn:E; [|discriminate].
    apply assemble_count in E as [-> _].
    assert (Hpos : (0 < length (concat (chunks ++ [c])))%nat).
    { rewrite concat_app, length_app. simpl. rewrite app_nil_r.
      destruct c; [done|simpl; lia]. }
    replace ((d + Z.of_nat (length p)) / 2 =? want) with false by lia.
    rewrite (IH c rest _ want (set_local_buf lb1 (set_rx (chunks ++ c :: rest) s)) lb);
      [reflexivity|done|lia|exact Ha].
Qed.

Lemma copy_loop_runs n : forall i buf s,
  0 <= i -> i + Z.of_nat n <= 2 ^ 31 ->
  i + Z.of_nat n <= 8 * Z.of_nat (length (local_buf s)) ->
  i + Z.of_nat n <= 8 * Z.of_nat (length buf) ->
  exists b', iter_from n i copy_bit buf s = Ret b' s.
Proof.
  induction n as [|n IH]; intros i buf s Hi H31 Hl Hb; simpl.
  - by eexists.
  - unfold bind at 1. unfold copy_bit at 1.
    replace (2 ^ 31 <=? i) with false by lia.
    rewrite load_bit_bit_of by lia.
    destruct (store_bit_spec buf i (bit_of (local_buf s) i)) as (b1 & -> & Hl1 & _); [lia|].
    apply IH; [lia|lia|lia|rewrite Hl1; lia].
Qed.

Lemma bit_of_app_l a b j :
  0 <= j < 8 * Z.of_nat (length a) -> bit_of (a ++ b) j = bit_of a j.
Proof.
  intros Hj. unfold bit_of, at_index.
  replace (j / 8 <? 0) with false by lia.
  rewrite lookup_app_l by lia. done.
Qed.

(** X14: a read-exchange with a capture buffer whose answer, the hex
    digits of the [DIV_ROUND_UP(bit_cnt + offset, 8)] bytes asked for,
    arrives in any number of [read()]s the last of which is not empty,
    returns after that last [read()]: bits [offset] to
    [offset + bit_cnt - 1] of the buffer are those of the bytes sent,
    the other bits of the buffer are as before, and the request is all
    that was sent. *)
Theorem read_exchange_returns_answer
    (b bytes : list Z) (offset bit_cnt : Z)
    (chunks : list (list Z)) (c : list Z) (rest : list (list Z)) (s : swd_state) :
  0 <= offset -> 0 <= bit_cnt -> offset + bit_cnt < 2 ^ 31 ->
  offset + bit_cnt <= 8 * Z.of_nat (length b) ->
  Z.of_nat (length bytes) = DIV_ROUND_UP (bit_cnt + offset) 8 ->
  (length bytes <= length (local_buf s))%nat ->
  Forall (fun x => 0 <= x < 256) bytes ->
  rx s = chunks ++ c :: rest -> c <> [] ->
  concat (chunks ++ [c]) = hex_of_bytes bytes ->
  exists b',
    bitbang_exchange true (Some b) offset bit_cnt s
    = Ret (Some b')
        (set_local_buf (bytes ++ drop (length bytes) (local_buf s))
           (set_rx rest
              (add_tx (sys_write (fd s) (exchange_header 241 true offset bit_cnt))
                 (add_log (LOG_DEBUG "bitbang_exchange" []) s)))) /\
    length b' = length b /\
    (forall j, offset <= j < offset + bit_cnt -> bit_of b' j = bit_of bytes j) /\
    (forall j, ~ (offset <= j < offset + bit_cnt) -> bit_of b' j = bit_of b j).
Proof.
  intros Ho Hc H31 Hb Hlen Hlb Hbytes Hrx Hne Hcat.
  rewrite exchange_unfold. cbv zeta.
  rewrite bool_decide_eq_true_2 by done.
  set (s1 := add_tx _ _).
  assert (Hlh : length (hex_of_bytes bytes) = (2 * length bytes)%nat).
  { clear. induction bytes as [|x l IH]; simpl; [done|]. rewrite IH. lia. }
  assert (Hrecv : receive (DIV_ROUND_UP (bit_cnt + offset) 8) s1
                  = Ret (2 * DIV_ROUND_UP (bit_cnt + offset) 8)
                      (set_local_buf (bytes ++ drop (length bytes) (local_buf s))
                         (set_rx rest s1))).
  { unfold receive. change (rx s1) with (rx s). rewrite Hrx.
    apply receive_loop_chunks; [done|rewrite Hcat, Hlh; lia|].
    rewrite Hcat. change (local_buf s1) with (local_buf s).
    rewrite (assemble_hex_of_bytes bytes 0) by done. do 2 f_equal. lia. }
  set (s2 := set_local_buf _ _) in *.
  unfold bind at 1. rewrite Hrecv.
  unfold u32. rewrite Z.mod_small by lia. unfold for_range.
  assert (Hdl : offset + bit_cnt <= 8 * Z.of_nat (length bytes)).
  { rewrite Hlen. unfold DIV_ROUND_UP, u32. rewrite Z.mod_small by lia. lia. }
  destruct (copy_loop_runs (Z.to_nat (bit_cnt + offset - offset)) offset b s2)
    as [b' Hcopy]; [lia|lia| |lia|].
  { subst s2. simpl. rewrite length_app, length_drop. lia. }
  exists b'. unfold bind at 1. rewrite Hcopy. split; [reflexivity|].
  apply copy_loop_frame in Hcopy as (_ & Hl' & Hframe & Hbits); [|lia].
  split; [done|]. split.
  - intros j Hj. rewrite Hbits by lia. subst s2. simpl.
    apply bit_of_app_l. lia.
  - intros j Hj. apply Hframe. lia.
Qed.

(** The test that ends the loop is an equality: digits beyond those
    waited for can never be made up for. *)
Lemma receive_overshoot c rest want s :
  rx s = c :: rest -> 2 * want + 2 <= Z.of_nat (length c) ->
  forall r s', receive want s <> Ret r s'.
Proof.
  intros Hrx Hc r s' H. unfold receive in H.
  apply receive_loop_returns in H as (consumed & E & Hne & -> & Hw).
  rewrite Hrx in E. destruct consumed as [|c' consumed].
  { destruct Hne as [Hne|Hne]; [done|]. by rewrite Hrx in Hne. }
  simpl in E. inversion E; subst c'. simpl in Hw. rewrite length_app in Hw. lia.
Qed.

(** X15: an exchange whose first [read()] delivers at least two
    digits more than the bytes waited for (one byte for a
    write-exchange, the payload length for a read-exchange) never
    returns, whatever the stream delivers afterwards: the count is
    only compared for equality. *)
Theorem exchange_overshoot_never_returns
    (rnw : bool) (b : list Z) (offset bit_cnt : Z)
    (c : list Z) (rest : list (list Z)) (s : swd_state) :
  rx s = c :: rest ->
  2 * wanted_bytes rnw offset bit_cnt + 2 <= Z.of_nat (length c) ->
  forall r s', bitbang_exchange rnw (Some b) offset bit_cnt s <> Ret r s'.
Proof.
  intros Hrx Hc r s' H. rewrite exchange_unfold in H. cbv zeta in H.
  destruct rnw; simpl in Hc.
  - apply bind_Ret in H as (d & s1 & H1 & _).
    by apply (receive_overshoot c rest) in H1.
  - apply bind_Ret in H as (u & s1 & H1 & H).
    apply bind_Ret in H as (d & s2 & H2 & _).
    unfold for_range in H1. destruct u.
    apply send_loop_Ret in H1 as [-> _]; [|lia].
    by apply (receive_overshoot c rest) in H2.
Qed.

(** ** Acknowledges and the latch *)

Section Latch.
Context {EC : ErrorCodes} {SC : SwdCore}.

Lemma read_reg_enters cmd value d s :
  queued_retval s = ERROR_OK -> Z.land cmd SWD_CMD_RnW <> 0 ->
  bitbang_swd_read_reg cmd value d s
  = read_reg_loop (Datatypes.S (length (rx s))) cmd value d
      (add_log (LOG_DEBUG "bitbang_swd_read_reg" []) s).
Proof.
  intros Hl Hr. unfold bitbang_swd_read_reg.
  destruct (Z.eqb_spec (Z.land cmd SWD_CMD_RnW) 0); [done|].
  by rewrite decide_False by (simpl; intros H; by apply H).
Qed.

Lemma write_reg_enters cmd value d s :
  queued_retval s = ERROR_OK -> Z.land cmd SWD_CMD_RnW = 0 ->
  bitbang_swd_write_reg cmd value d s
  = write_reg_loop (Datatypes.S (length (rx s))) cmd value d
      (add_log (LOG_DEBUG "bitbang_swd_write_reg" []) s).
Proof.
  intros Hl Hr. unfold bitbang_swd_write_reg, write_reg_entry.
  rewrite Hr. simpl negb. cbv iota.
  by rewrite decide_False by (simpl; intros H; by apply H).
Qed.

Lemma read_reg_skips cmd value d s :
  queued_retval s <> ERROR_OK -> Z.land cmd SWD_CMD_RnW <> 0 ->
  bitbang_swd_read_reg cmd value d s
  = Some (Ret value
            (add_log (LOG_DEBUG "Skip bitbang_swd_read_reg because queued_retval=%d"
                        [ArgZ (queued_retval s)])
               (add_log (LOG_DEBUG "bitbang_swd_read_reg" []) s))).
Proof.
  intros Hl Hr. unfold bitbang_swd_read_reg.
  destruct (Z.eqb_spec (Z.land cmd SWD_CMD_RnW) 0); [done|].
  by rewrite decide_True by done.
Qed.

Lemma write_reg_skips cmd value d s :
  queued_retval s <> ERROR_OK -> Z.land cmd SWD_CMD_RnW = 0 ->
  bitbang_swd_write_reg cmd value d s
  = Some (Ret tt
            (add_log (LOG_DEBUG "Skip bitbang_swd_write_reg because queued_retval=%d"
                        [ArgZ (queued_retval s)])
               (add_log (LOG_DEBUG "bitbang_swd_write_reg" []) s))).
Proof.
  intros Hl Hr. unfold bitbang_swd_write_reg, write_reg_entry.
  rewrite Hr. simpl negb. cbv iota.
  by rewrite decide_True by done.
Qed.

Lemma read_loop_bad_ack fuel cmd value d s cmdf trn s1 :
  (0 < fuel)%nat ->
  read_reg_transfer cmd s = Ret (cmdf, trn) s1 ->
  buf_get_u32 trn 1 3 <> SWD_ACK_OK ->
  buf_get_u32 trn 1 3 <> SWD_ACK_WAIT ->
  read_reg_loop fuel cmd value d s
  = Some (Ret value (latched (buf_get_u32 trn 1 3) s1)).
Proof.
  intros Hf Ht Hok Hwait. destruct fuel as [|fuel]; [lia|].
  cbn [read_reg_loop]. rewrite Ht. cbn [after]. cbv zeta.
  rewrite decide_False by done. rewrite decide_False by done.
  unfold latched, bad_ack_line. by case_decide.
Qed.

Lemma write_loop_bad_ack fuel cmd value d s cmdf trn s1 :
  (0 < fuel)%nat ->
  write_reg_transfer cmd value s = Ret (cmdf, trn) s1 ->
  buf_get_u32 trn 1 3 <> SWD_ACK_OK ->
  buf_get_u32 trn 1 3 <> SWD_ACK_WAIT ->
  write_reg_loop fuel cmd value d s
  = Some (Ret tt (latched (buf_get_u32 trn 1 3) s1)).
Proof.
  intros Hf Ht Hok Hwait. destruct fuel as [|fuel]; [lia|].
  cbn [write_reg_loop]. rewrite Ht. cbn [after]. cbv zeta.
  rewrite decide_False by done. rewrite decide_False by done.
  unfold latched, bad_ack_line. by case_decide.
Qed.

Lemma run_queue_run s :
  bitbang_swd_run_queue s
  = Ret (queued_retval s)
      (add_log (LOG_DEBUG "SWD queue return value: %02x" [ArgZ (queued_retval s)])
         (set_queued_retval ERROR_OK
            (add_tx (sys_usleep 10000)
               (add_tx (sys_write (fd s) (exchange_header 241 false 0 8))
                  (add_log (LOG_DEBUG "bitbang_exchange" [])
                     (add_log (LOG_DEBUG "bitbang_swd_run_queue" []) s)))))).
Proof.
  unfold bitbang_swd_run_queue. rewrite bind_log_debug.
  unfold bind. rewrite exchange_unfold. reflexivity.
Qed.

(** X17: when the acknowledge of a read is neither OK nor WAIT and
    its number is that of [ERROR_OK], the failure leaves no trace in
    the latch: the read returns with the variable behind [value]
    unchanged, and the run-queue operation that follows returns
    [ERROR_OK]. *)
Theorem ack_equal_to_error_ok_is_lost
    (cmd ap_delay_clk : Z) (old : Z) (s : swd_state)
    (cmdf : Z) (trn : list Z) (s1 : swd_state) :
  queued_retval s = ERROR_OK ->
  Z.land cmd SWD_CMD_RnW <> 0 ->
  read_reg_transfer cmd (add_log (LOG_DEBUG "bitbang_swd_read_reg" []) s)
    = Ret (cmdf, trn) s1 ->
  buf_get_u32 trn 1 3 <> SWD_ACK_OK ->
  buf_get_u32 trn 1 3 <> SWD_ACK_WAIT ->
  buf_get_u32 trn 1 3 = ERROR_OK ->
  exists sf sq,
    bitbang_swd_read_reg cmd (Some old) ap_delay_clk s = Some (Ret (Some old) sf) /\
    bitbang_swd_run_queue sf = Ret ERROR_OK sq.
Proof.
  intros Hl Hr Ht Hok Hwait Hz.
  rewrite read_reg_enters by done.
  rewrite (read_loop_bad_ack _ cmd (Some old) ap_delay_clk _ cmdf trn s1) by (done || lia).
  eexists. eexists. split; [reflexivity|].
  rewrite run_queue_run. simpl. by rewrite Hz.
Qed.

Lemma only_logged_refl s : only_logged s s.
Proof. by repeat split. Qed.

Lemma only_logged_add_log l s s' : only_logged s s' -> only_logged s (add_log l s').
Proof. intros (?&?&?&?&?&?). by repeat split. Qed.

Lemma run_calls_skipped calls : forall s0 s,
  queued_retval s0 <> ERROR_OK -> only_logged s0 s ->
  Forall well_directed calls ->
  exists s', run_calls calls s = Some (Ret tt s') /\ only_logged s0 s'.
Proof.
  induction calls as [|c calls IH]; intros s0 s Hl Hs Hd.
  - exists s. done.
  - inversion Hd as [|? ? Hc Hd']; subst.
    assert (Hl' : queued_retval s <> ERROR_OK).
    { destruct Hs as (_ & _ & E & _). by rewrite E. }
    cbn [run_calls]. destruct c as [cmd value d|cmd value d]; cbn [run_call]; simpl in Hc.
    + rewrite read_reg_skips by done. apply IH; [done| |done].
      by do 2 apply only_logged_add_log.
    + rewrite write_reg_skips by done. apply IH; [done| |done].
      by do 2 apply only_logged_add_log.
Qed.

(** X18: once the latch holds an error, any sequence of register
    reads and writes returns with nothing sent, nothing read and the
    latch as it was, and the run-queue operation after them returns
    that first error and clears the latch. *)
Theorem first_error_wins (calls : list swd_call) (s : swd_state) :
  queued_retval s <> ERROR_OK ->
  Forall well_directed calls ->
  exists s' sq,
    run_calls calls s = Some (Ret tt s') /\
    only_logged s s' /\
    bitbang_swd_run_queue s' = Ret (queued_retval s) sq /\
    queued_retval sq = ERROR_OK.
Proof.
  intros Hl Hd.
  destruct (run_calls_skipped calls s s Hl (only_logged_refl s) Hd) as (s' & Hrun & Hs).
  exists s'. eexists. split; [done|]. split; [done|].
  rewrite run_queue_run. destruct Hs as (_ & _ & -> & _). split; reflexivity.
Qed.
(** X19: the loop of a register read does not look at the latch:
    when the read is acknowledged WAIT and the write to the abort
    register that follows gets an acknowledge that is neither OK nor
    WAIT, the read is sent again; acknowledged OK with the right
    parity, it stores the value read and returns, the latch holding
    the acknowledge of the abort write. *)
Theorem read_retries_after_failed_abort_write
    (cmd ap_delay_clk old : Z) (s : swd_state)
    (cmd1 : Z) (trn1 : list Z) (s1 : swd_state)
    (acmd : Z) (atrn : list Z) (s2 : swd_state)
    (cmd2 : Z) (trn2 : list Z) (s3 s4 : swd_state) :
  queued_retval s = ERROR_OK ->
  Z.land cmd SWD_CMD_RnW <> 0 ->
  Z.land (swd_cmd false false DP_ABORT) SWD_CMD_RnW = 0 ->
  SWD_ACK_WAIT <> SWD_ACK_OK ->
  read_reg_transfer cmd (add_log (LOG_DEBUG "bitbang_swd_read_reg" []) s)
    = Ret (cmd1, trn1) s1 ->
  buf_get_u32 trn1 1 3 = SWD_ACK_WAIT ->
  write_reg_transfer (swd_cmd false false DP_ABORT) sticky_clear_value
    (add_log (LOG_DEBUG "bitbang_swd_write_reg" [])
       (add_log (LOG_DEBUG "SWD_ACK_WAIT" []) s1)) = Ret (acmd, atrn) s2 ->
  buf_get_u32 atrn 1 3 <> SWD_ACK_OK ->
  buf_get_u32 atrn 1 3 <> SWD_ACK_WAIT ->
  read_reg_transfer cmd1 (latched (buf_get_u32 atrn 1 3) s2) = Ret (cmd2, trn2) s3 ->
  buf_get_u32 trn2 1 3 = SWD_ACK_OK ->
  buf_get_u32 trn2 (1 + 3 + 32) 1 = parity_u32 (buf_get_u32 trn2 (1 + 3) 32) ->
  ap_delay cmd2 ap_delay_clk s3 = Ret tt s4 ->
  bitbang_swd_read_reg cmd (Some old) ap_delay_clk s
  = Some (Ret (Some (buf_get_u32 trn2 (1 + 3) 32)) s4) /\
  queued_retval s4 = buf_get_u32 atrn 1 3.
Proof.
  intros Hl Hr Habort Hne H1 Hw1 H2 Hbad1 Hbad2 H3 Hok Hpar H4.
  pose proof (keeps_Ret _ _ _ _ _ (step_read_reg_transfer cmd) H1) as St1.
  pose proof (keeps_Ret _ _ _ _ _ (step_read_reg_transfer cmd1) H3) as St3.
  pose proof (keeps_Ret _ _ _ _ _ (step_ap_delay cmd2 ap_delay_clk) H4) as St4.
  pose proof (read_reg_transfer_consumes _ _ _ _ H1) as Hc1. simpl in Hc1.
  split.
  - rewrite read_reg_enters by done.
    cbn [read_reg_loop]. rewrite H1. cbn [after]. cbv zeta.
    rewrite decide_False by congruence. rewrite decide_True by done.
    unfold swd_clear_sticky_errors, clear_sticky_errors_by.
    rewrite write_reg_enters; [|simpl; by rewrite (step_latch _ _ St1)|done].
    fold sticky_clear_value.
    rewrite (write_loop_bad_ack _ _ _ _ _ acmd atrn s2) by (done || lia).
    destruct (length (rx s)) as [|fuel] eqn:E; [simpl in Hc1; lia|].
    cbn [read_reg_loop]. rewrite H3. cbn [after]. cbv zeta.
    rewrite decide_True by done.
    rewrite decide_False by (intros H; by apply H).
    unfold bind. by rewrite H4.
  - by rewrite (step_latch _ _ St4), (step_latch _ _ St3).
Qed.
End Latch.

(** ** Runs of whole commands on the sample surroundings *)

(** From RUN/IDLE through DRSELECT and DRCAPTURE to DRSHIFT. *)
Lemma path_move_follows_walk_witness :
  exists evs s',
    bitbang_path_move (JC := sample_jtag_core)
      [TAP_DRSELECT; TAP_DRCAPTURE; TAP_DRSHIFT] (sample_session TAP_IDLE) = Ret tt s' /\
    pins s' = evs /\
    (forall level, follow (JC := sample_jtag_core) TAP_IDLE (clocked_tms level evs)
                   = [TAP_DRSELECT; TAP_DRCAPTURE; TAP_DRSHIFT]) /\
    cur_state s' = TAP_DRSHIFT /\ end_state s' = TAP_DRSHIFT.
Proof.
  destruct (path_move_follows_walk (JC := sample_jtag_core)
              [TAP_DRSELECT; TAP_DRCAPTURE; TAP_DRSHIFT] (sample_session TAP_IDLE))
    as (evs & s' & H1 & H2 & H3 & _ & _ & _ & H4 & H5).
  - split; [exists true; reflexivity|]. split; [exists false; reflexivity|].
    split; [exists false; reflexivity|exact I].
  - exists evs, s'. split; [exact H1|]. split; [exact H2|].
    split; [exact H3|]. split; [exact H4|exact H5].
Defined.

(** From RUN/IDLE to DRSELECT, from which DRSHIFT is two transitions
    away. *)
Lemma path_move_invalid_edge_exits_witness :
  exists evs s',
    bitbang_path_move (JC := sample_jtag_core)
      ([TAP_DRSELECT] ++ TAP_DRSHIFT :: []) (sample_session TAP_IDLE)
    = Stop ProcessExit s' /\
    pins s' = [] ++ evs /\
    cur_state s' = TAP_DRSELECT /\
    jlog s' = [] ++ [LOG_ERROR "BUG: %s -> %s isn't a valid TAP transition"
                       [ArgS "DRSELECT"; ArgS "DRSHIFT"]].
Proof.
  destruct (path_move_invalid_edge_exits (JC := sample_jtag_core)
              [TAP_DRSELECT] TAP_DRSHIFT [] (sample_session TAP_IDLE))
    as (evs & s' & H1 & H2 & _ & _ & H3 & _ & H4).
  - split; [exists true; reflexivity|exact I].
  - simpl. discriminate.
  - simpl. discriminate.
  - exists evs, s'. split; [exact H1|]. split; [exact H2|]. split; [exact H3|exact H4].
Defined.

(** Two bits of the byte 1: TMS high, then low. *)
Lemma execute_tms_clocks_bits_witness :
  exists evs,
    bitbang_execute_tms (EC := sample_error_codes) 2 [1] (sample_session TAP_IDLE)
    = Ret 0 (advance evs 0 (sample_session TAP_IDLE)) /\
    (forall level, clocked_tms level evs = [true; false]).
Proof.
  destruct (execute_tms_clocks_bits (EC := sample_error_codes) 2 [1]
              (sample_session TAP_IDLE)) as (evs & H1 & H2 & _).
  - simpl. lia.
  - exists evs. split; [exact H1|exact H2].
Defined.

(** Three cycles from RESET, to end in DRPAUSE. *)
Lemma runtest_command_ends_in_end_state_witness :
  exists s',
    execute_command (EC := sample_error_codes) (JC := sample_jtag_core) sample_interface
      (JTAG_RUNTEST 3 TAP_DRPAUSE) 0 (sample_session TAP_RESET) = Ret 0 s' /\
    cur_state s' = TAP_DRPAUSE /\ end_state s' = TAP_DRPAUSE.
Proof.
  destruct (runtest_command_ends_in_end_state (EC := sample_error_codes)
              (JC := sample_jtag_core) sample_interface 3 TAP_DRPAUSE 0
              (sample_session TAP_RESET)) as (s' & H1 & H2 & H3 & _).
  - reflexivity.
  - right. reflexivity.
  - exists s'. split; [exact H1|]. split; [exact H2|exact H3].
Defined.

(** A DR scan of three bits from RUN/IDLE, to end there. *)
Lemma scan_command_ends_in_end_state_witness :
  exists r s',
    execute_command (EC := sample_error_codes) (JC := sample_jtag_core) sample_interface
      (JTAG_SCAN sample_failing_scan) 0 (sample_session TAP_IDLE) = Ret r s' /\
    cur_state s' = TAP_IDLE /\ end_state s' = TAP_IDLE /\ samples s' = 3%nat.
Proof.
  destruct (scan_command_ends_in_end_state (EC := sample_error_codes)
              (JC := sample_jtag_core) sample_interface sample_failing_scan 0
              (sample_session TAP_IDLE)) as (r & s' & H1 & _ & H2 & H3 & _ & H4).
  - reflexivity.
  - right. reflexivity.
  - simpl. lia.
  - exists r, s'. split; [exact H1|]. split; [exact H2|]. split; [exact H3|exact H4].
Defined.

(** Three bits shifted in DRSHIFT, to end in DRSHIFT. *)
Lemma scan_ending_in_shift_state_leaves_tck_high_witness :
  exists buffer' s',
    bitbang_scan (JC := sample_jtag_core) sample_interface false SCAN_IO [5] 3
      (sample_session TAP_DRSHIFT) = Ret buffer' s' /\
    last (pins s') = Some (bb_write 1 1 1) /\
    cur_state s' = TAP_DRSHIFT.
Proof.
  destruct (scan_ending_in_shift_state_leaves_tck_high (JC := sample_jtag_core)
              sample_interface false SCAN_IO [5] 3 (sample_session TAP_DRSHIFT))
    as (buffer' & s' & H1 & H2 & H3).
  - simpl. lia.
  - reflexivity.
  - reflexivity.
  - exists buffer', s'. split; [exact H1|]. split; [exact H2|exact H3].
Defined.

(** A sleep, a run-test that asks to end in DRCAPTURE, and a TMS
    command that is never run. *)
Lemma fatal_command_ends_the_drain_witness :
  exists s1,
    bitbang_execute_queue (EC := sample_error_codes) (JC := sample_jtag_core)
      (Some sample_interface)
      ([JTAG_SLEEP 5] ++ JTAG_RUNTEST 3 TAP_DRCAPTURE :: [JTAG_TMS 2 [1]])
      (sample_session TAP_IDLE)
    = Stop ProcessExit
        (logged (LOG_ERROR "BUG: %i is not a valid end state" [ArgZ 6]) s1) /\
    pins s1 = [bb_blink 1; ev_sleep 5].
Proof.
  eexists. split.
  - apply (fatal_command_ends_the_drain (EC := sample_error_codes)
             (JC := sample_jtag_core) sample_interface [JTAG_SLEEP 5] [JTAG_TMS 2 [1]]
             (JTAG_RUNTEST 3 TAP_DRCAPTURE) _ (sample_session TAP_IDLE) 0).
    + reflexivity.
    + vm_compute. reflexivity.
  - reflexivity.
Defined.

(** A scan whose check fails, then a sleep. *)
Lemma drain_status_is_ok_or_queue_failed_witness :
  exists r s',
    bitbang_execute_queue (EC := sample_error_codes) (JC := sample_jtag_core)
      (Some sample_interface) [JTAG_SCAN sample_failing_scan; JTAG_SLEEP 10]
      (sample_session TAP_IDLE) = Ret r s' /\
    (r = 0 \/ r = -104).
Proof.
  destruct (bitbang_execute_queue (EC := sample_error_codes) (JC := sample_jtag_core)
              (Some sample_interface) [JTAG_SCAN sample_failing_scan; JTAG_SLEEP 10]
              (sample_session TAP_IDLE)) as [r s'|f s'] eqn:E.
  - exists r, s'. split; [reflexivity|].
    exact (drain_status_is_ok_or_queue_failed (EC := sample_error_codes)
             (JC := sample_jtag_core) sample_interface
             [JTAG_SCAN sample_failing_scan; JTAG_SLEEP 10]
             (sample_session TAP_IDLE) r s' E).
  - vm_compute in E. discriminate.
Defined.

(** A scan whose check accepts the bits 1, 0, 1 that the pins answer,
    and nothing else, between a reset and a sleep. *)
Lemma passing_checks_give_ok_witness :
  exists r s',
    bitbang_execute_queue (EC := sample_error_codes) (JC := sample_jtag_core)
      (Some sample_interface)
      [JTAG_RESET 1 0; JTAG_SCAN (sample_checked_scan [5]); JTAG_SLEEP 10]
      (sample_session TAP_IDLE) = Ret r s' /\
    r = 0.
Proof.
  destruct (bitbang_execute_queue (EC := sample_error_codes) (JC := sample_jtag_core)
              (Some sample_interface)
              [JTAG_RESET 1 0; JTAG_SCAN (sample_checked_scan [5]); JTAG_SLEEP 10]
              (sample_session TAP_IDLE)) as [r s'|f s'] eqn:E.
  - exists r, s'. split; [reflexivity|].
    apply (passing_checks_give_ok (EC := sample_error_codes)
             (JC := sample_jtag_core) sample_interface
             [JTAG_RESET 1 0; JTAG_SCAN (sample_checked_scan [5]); JTAG_SLEEP 10]
             (sample_session TAP_IDLE) r s'); [|exact E].
    intros before scan after r1 s1 buffer' s2 Hq Hb Hs.
    destruct before as [|c0 [|c1 [|c2 [|c3 before]]]]; try discriminate Hq.
    injection Hq as <- <- <-.
    vm_compute in Hb. injection Hb as <- <-.
    vm_compute in Hs. injection Hs as <- <-.
    vm_compute. reflexivity.
  - vm_compute in E. discriminate.
Defined.

(** Two TMS bits, a scan whose check wants other bits than the pins
    answer, then a sleep. *)
Lemma failed_check_is_reported_witness :
  exists r s',
    bitbang_execute_queue (EC := sample_error_codes) (JC := sample_jtag_core)
      (Some sample_interface)
      ([JTAG_TMS 2 [0]] ++ JTAG_SCAN (sample_checked_scan [2]) :: [JTAG_SLEEP 10])
      (sample_session TAP_IDLE) = Ret r s' /\
    r = -104.
Proof.
  destruct (bitbang_execute_queue (EC := sample_error_codes) (JC := sample_jtag_core)
              (Some sample_interface)
              ([JTAG_TMS 2 [0]] ++ JTAG_SCAN (sample_checked_scan [2]) :: [JTAG_SLEEP 10])
              (sample_session TAP_IDLE)) as [r s'|f s'] eqn:E.
  - exists r, s'. split; [reflexivity|].
    eapply (failed_check_is_reported (EC := sample_error_codes)
              (JC := sample_jtag_core) sample_interface
              [JTAG_TMS 2 [0]] [JTAG_SLEEP 10] (sample_checked_scan [2])
              (sample_session TAP_IDLE)); [| | | |exact E].
    + vm_compute. reflexivity.
    + vm_compute. reflexivity.
    + vm_compute. discriminate.
    + repeat constructor.
  - vm_compute in E. discriminate.
Defined.

(** ** Runs of the byte stream on the sample surroundings *)

(** The bytes 0x12 and 0xAB into a buffer of four. *)
Lemma assemble_decodes_hex_witness :
  assemble (codes "12AB") 0 [0; 0; 7; 9] = Some (4, [18; 171; 7; 9]).
Proof.
  apply (assemble_decodes_hex [18; 171] [0; 0; 7; 9]).
  - repeat constructor; lia.
  - simpl. lia.
Defined.

(** Seven bits at offset 2, answered by the two bytes 0xA5 and 0x01 in
    four [read()]s, one of them empty. *)
Lemma read_exchange_returns_answer_witness :
  exists b' s',
    bitbang_exchange true (Some [0; 0]) 2 7
      (sample_boot ([codes "A"; []; codes "50"] ++ codes "1" :: [codes "7"]))
    = Ret (Some b') s' /\
    b' = [164; 1] /\ rx s' = [codes "7"].
Proof.
  destruct (read_exchange_returns_answer [0; 0] [165; 1] 2 7
              [codes "A"; []; codes "50"] (codes "1") [codes "7"]
              (sample_boot ([codes "A"; []; codes "50"] ++ codes "1" :: [codes "7"])))
    as (b' & H1 & _).
  - lia.
  - lia.
  - lia.
  - simpl. lia.
  - reflexivity.
  - change (2 <= length (replicate 1024 0))%nat. rewrite length_replicate. lia.
  - repeat constructor; lia.
  - reflexivity.
  - discriminate.
  - reflexivity.
  - exists b'. eexists. split; [exact H1|].
    vm_compute in H1. inversion H1. split; reflexivity.
Defined.

(** A write-exchange answered by four digits at once: the stream runs
    dry with the call still waiting. *)
Lemma exchange_overshoot_never_returns_witness :
  exists f s',
    bitbang_exchange false (Some [0]) 0 8 (sample_boot [codes "0000"; codes "00"])
    = Stop f s'.
Proof.
  destruct (bitbang_exchange false (Some [0]) 0 8
              (sample_boot [codes "0000"; codes "00"])) as [r s'|f s'] eqn:E.
  - exfalso.
    apply (exchange_overshoot_never_returns false [0] 0 8 (codes "0000") [codes "00"]
             (sample_boot [codes "0000"; codes "00"])
             eq_refl ltac:(simpl; lia) r s' E).
  - by exists f, s'.
Defined.

(** ** Runs of the latch on the sample surroundings *)

(** A read that no target answers: the three acknowledge bits are 0. *)
Lemma ack_equal_to_error_ok_is_lost_witness :
  exists sf sq,
    bitbang_swd_read_reg (EC := sample_error_codes) (SC := sample_swd_core) 4 (Some 7) 0
      (sample_boot (sample_read_answer 0 0 0)) = Some (Ret (Some 7) sf) /\
    bitbang_swd_run_queue (EC := sample_error_codes) sf = Ret 0 sq.
Proof.
  eapply (ack_equal_to_error_ok_is_lost (EC := sample_error_codes)
            (SC := sample_swd_core) 4 0 7 (sample_boot (sample_read_answer 0 0 0))).
  - reflexivity.
  - simpl. discriminate.
  - vm_compute. reflexivity.
  - vm_compute. discriminate.
  - vm_compute. discriminate.
  - vm_compute. reflexivity.
Defined.

(** A read and a write queued while the latch holds 4. *)
Lemma first_error_wins_witness :
  exists s' sq,
    run_calls (EC := sample_error_codes) (SC := sample_swd_core)
      [call_read 4 (Some 7) 0; call_write 0 1 0]
      (set_queued_retval 4 (sample_boot (sample_read_answer 1 0 0)))
    = Some (Ret tt s') /\
    tx s' = [] /\
    bitbang_swd_run_queue (EC := sample_error_codes) s' = Ret 4 sq /\
    queued_retval sq = 0.
Proof.
  destruct (first_error_wins (EC := sample_error_codes) (SC := sample_swd_core)
              [call_read 4 (Some 7) 0; call_write 0 1 0]
              (set_queued_retval 4 (sample_boot (sample_read_answer 1 0 0))))
    as (s' & sq & H1 & H2 & H3 & H4).
  - simpl. discriminate.
  - repeat constructor; simpl; discriminate.
  - exists s', sq. split; [exact H1|]. split; [|split; [exact H3|exact H4]].
    by destruct H2 as (_ & _ & _ & _ & _ & ->).
Defined.

(** A read acknowledged WAIT, the write to the abort register
    acknowledged FAULT, and the read, sent again, acknowledged OK with
    0x12345678. *)
Lemma read_retries_after_failed_abort_write_witness :
  exists sf,
    bitbang_swd_read_reg (EC := sample_error_codes) (SC := sample_swd_core) 4 (Some 7) 0
      (sample_boot (sample_read_answer 2 0 0 ++ sample_write_answer 4
                    ++ sample_read_answer 1 305419896 1))
    = Some (Ret (Some 305419896) sf) /\
    queued_retval sf = 4.
Proof.
  eassert (H1 : read_reg_transfer (SC := sample_swd_core) 4
                  (add_log (LOG_DEBUG "bitbang_swd_read_reg" [])
                     (sample_boot (sample_read_answer 2 0 0 ++ sample_write_answer 4
                                   ++ sample_read_answer 1 305419896 1)))
                = Ret (_, _) _) by (vm_compute; reflexivity).
  match type of H1 with
  | _ = Ret (_, _) ?s1 =>
      eassert (H2 : write_reg_transfer (SC := sample_swd_core)
                      (swd_cmd (SwdCore := sample_swd_core) false false
                         (DP_ABORT (SwdCore := sample_swd_core)))
                      (sticky_clear_value (SC := sample_swd_core))
                      (add_log (LOG_DEBUG "bitbang_swd_write_reg" [])
                         (add_log (LOG_DEBUG "SWD_ACK_WAIT" []) s1))
                    = Ret (_, _) _) by (vm_compute; reflexivity)
  end.
  match type of H1 with
  | _ = Ret (?c1, _) _ =>
      match type of H2 with
      | _ = Ret (_, ?at1) ?s2 =>
          eassert (H3 : read_reg_transfer (SC := sample_swd_core) c1
                          (latched (SC := sample_swd_core)
                             (buf_get_u32 (SwdCore := sample_swd_core) at1 1 3) s2)
                        = Ret (_, _) _) by (vm_compute; reflexivity)
      end
  end.
  match type of H3 with
  | _ = Ret (?c2, _) ?s3 =>
      eassert (H4 : ap_delay (SC := sample_swd_core) c2 0 s3 = Ret tt _)
        by (vm_compute; reflexivity)
  end.
  assert (Hl : queued_retval
                 (sample_boot (sample_read_answer 2 0 0 ++ sample_write_answer 4
                               ++ sample_read_answer 1 305419896 1))
               = ERROR_OK (ErrorCodes := sample_error_codes)) by reflexivity.
  assert (Habort : Z.land (swd_cmd (SwdCore := sample_swd_core) false false
                             (DP_ABORT (SwdCore := sample_swd_core)))
                     (SWD_CMD_RnW (SwdCore := sample_swd_core)) = 0) by reflexivity.
  assert (Hne : SWD_ACK_WAIT (SwdCore := sample_swd_core)
                <> SWD_ACK_OK (SwdCore := sample_swd_core)) by (simpl; discriminate).
  assert (Hr : Z.land 4 (SWD_CMD_RnW (SwdCore := sample_swd_core)) <> 0)
    by (simpl; discriminate).
  destruct (read_retries_after_failed_abort_write (EC := sample_error_codes)
              (SC := sample_swd_core) 4 0 7
              (sample_boot (sample_read_answer 2 0 0 ++ sample_write_answer 4
                            ++ sample_read_answer 1 305419896 1))
              _ _ _ _ _ _ _ _ _ _
              Hl Hr Habort Hne
              H1 ltac:(vm_compute; reflexivity) H2
              ltac:(vm_compute; discriminate) ltac:(vm_compute; discriminate)
              H3 ltac:(vm_compute; reflexivity) ltac:(vm_compute; reflexivity) H4)
    as [E1 E2].
  eexists. split; [exact E1|]. rewrite E2. vm_compute. reflexivity.
Defined.

(** * Retries, what goes on the stream, and the latch in a batch *)

(** ** Turns acknowledged WAIT, whatever the abort write does *)

Section TurnLemmas.
Context {EC : ErrorCodes} {SC : SwdCore}.

(** The write to the abort register made from within the write loop
    finishes like any other. *)
Lemma clear_in_loop_finishes fuel s :
  (length (rx s) < fuel)%nat ->
  finishes s (clear_sticky_errors_by (write_reg_entry (write_reg_loop fuel)) s).
Proof.
  intros Hf. unfold clear_sticky_errors_by, write_reg_entry.
  set (s1 := add_log _ s).
  apply (finishes_weaken s s1); [apply engine_step_add_log|].
  destruct (negb _); [apply finishes_Some; [reflexivity|simpl; auto]|].
  destruct (decide (queued_retval s1 <> ERROR_OK)).
  { apply finishes_Some; [apply engine_step_add_log|simpl; auto]. }
  by apply write_reg_loop_finishes.
Qed.

(** Fuel beyond what the stream has pending changes nothing. *)
Lemma write_reg_loop_fuel f1 : forall f2 cmd value d s,
  (length (rx s) < f1)%nat -> (length (rx s) < f2)%nat ->
  write_reg_loop f1 cmd value d s = write_reg_loop f2 cmd value d s.
Proof.
  induction f1 as [|f1 IH]; intros f2 cmd value d s H1 H2; [lia|].
  destruct f2 as [|f2]; [lia|]. cbn [write_reg_loop].
  destruct (write_reg_transfer cmd value s) as [[cmd1 trn] s1|f s1] eqn:E; [|done].
  apply write_reg_transfer_consumes in E. cbn [after].
  destruct (decide (buf_get_u32 trn 1 3 = SWD_ACK_OK)); [done|].
  destruct (decide (buf_get_u32 trn 1 3 = SWD_ACK_WAIT)); [|done].
  set (sw := add_log (LOG_DEBUG "SWD_ACK_WAIT" []) s1).
  assert (Hsw : length (rx sw) = length (rx s1)) by done.
  assert (Ec : clear_sticky_errors_by (write_reg_entry (write_reg_loop f1)) sw
               = clear_sticky_errors_by (write_reg_entry (write_reg_loop f2)) sw).
  { unfold clear_sticky_errors_by, write_reg_entry.
    destruct (negb _); [done|].
    destruct (decide (_ <> _)); [done|].
    apply IH; simpl; lia. }
  rewrite Ec.
  destruct (clear_in_loop_finishes f2 sw) as (o & Eo & St & _); [lia|].
  rewrite Eo. destruct o as [[] s3|f s3]; [|done].
  apply engine_step_rx_length in St. simpl in St.
  apply IH; lia.
Qed.

Lemma clear_in_loop_is_clear fuel s :
  (length (rx s) < fuel)%nat ->
  clear_sticky_errors_by (write_reg_entry (write_reg_loop fuel)) s
  = swd_clear_sticky_errors s.
Proof.
  intros Hf. unfold swd_clear_sticky_errors, clear_sticky_errors_by,
    bitbang_swd_write_reg, write_reg_entry.
  destruct (negb _); [done|].
  destruct (decide (_ <> _)); [done|].
  apply write_reg_loop_fuel; simpl; lia.
Qed.

Lemma clear_keeps_pending s s2 :
  swd_clear_sticky_errors s = Some (Ret tt s2) ->
  (length (rx s2) <= length (rx s))%nat.
Proof.
  intros H. unfold swd_clear_sticky_errors, clear_sticky_errors_by in H.
  destruct (write_reg_finishes (swd_cmd false false DP_ABORT)
              (Z.lor (Z.lor (Z.lor STKCMPCLR STKERRCLR) WDERRCLR) ORUNERRCLR) 0 s)
    as (o & Eo & St & _).
  rewrite Eo in H. inversion H; subst o.
  by apply engine_step_rx_length in St.
Qed.

Lemma read_loop_through_turns n cmd s cmd' s' value d :
  retry_turns read_reg_transfer n cmd s cmd' s' ->
  SWD_ACK_WAIT <> SWD_ACK_OK ->
  forall fuel, (length (rx s) < fuel)%nat ->
  exists fuel', (length (rx s') < fuel')%nat /\
    read_reg_loop fuel cmd value d s = read_reg_loop fuel' cmd' value d s'.
Proof.
  intros Hw Hne.
  induction Hw as [cmd s|n cmd s cmd1 trn s1 s2 cmd' s' Hread Hwait Hclear Hrest IH];
    intros fuel Hfuel.
  - by exists fuel.
  - destruct fuel as [|fuel]; [lia|].
    pose proof (read_reg_transfer_consumes _ _ _ _ Hread) as Hc1.
    pose proof (clear_keeps_pending _ _ Hclear) as Hc2. simpl in Hc2.
    destruct (IH fuel) as (fuel' & Hf' & Hloop); [lia|].
    exists fuel'. split; [done|].
    cbn [read_reg_loop]. rewrite Hread. cbn [after]. cbv zeta.
    rewrite decide_False by congruence. rewrite decide_True by done.
    rewrite Hclear. exact Hloop.
Qed.

Lemma write_loop_through_turns n cmd s cmd' s' value d :
  retry_turns (fun c => write_reg_transfer c value) n cmd s cmd' s' ->
  SWD_ACK_WAIT <> SWD_ACK_OK ->
  forall fuel, (length (rx s) < fuel)%nat ->
  exists fuel', (length (rx s') < fuel')%nat /\
    write_reg_loop fuel cmd value d s = write_reg_loop fuel' cmd' value d s'.
Proof.
  intros Hw Hne.
  induction Hw as [cmd s|n cmd s cmd1 trn s1 s2 cmd' s' Hsend Hwait Hclear Hrest IH];
    intros fuel Hfuel.
  - by exists fuel.
  - destruct fuel as [|fuel]; [lia|].
    pose proof (write_reg_transfer_consumes _ _ _ _ _ Hsend) as Hc1.
    pose proof (clear_keeps_pending _ _ Hclear) as Hc2. simpl in Hc2.
    destruct (IH fuel) as (fuel' & Hf' & Hloop); [lia|].
    exists fuel'. split; [done|].
    cbn [write_reg_loop]. rewrite Hsend. cbn [after].
    rewrite decide_False by congruence. rewrite decide_True by done.
    rewrite clear_in_loop_is_clear by (simpl; lia).
    rewrite Hclear. exact Hloop.
Qed.

(** Every read that returns from its loop returns at a turn that
    [retry_turns] reaches, on an acknowledge that is OK or is not
    WAIT. *)
Lemma read_loop_returns_at_a_turn fuel : forall cmd value d s v sf,
  read_reg_loop fuel cmd value d s = Some (Ret v sf) ->
  exists n cmd' s' cmdf trn s'',
    retry_turns read_reg_transfer n cmd s cmd' s' /\
    read_reg_transfer cmd' s' = Ret (cmdf, trn) s'' /\
    (buf_get_u32 trn 1 3 = SWD_ACK_OK \/ buf_get_u32 trn 1 3 <> SWD_ACK_WAIT).
Proof.
  induction fuel as [|fuel IH]; intros cmd value d s v sf H; [discriminate|].
  cbn [read_reg_loop] in H.
  destruct (read_reg_transfer cmd s) as [[cmd1 trn] s1|f s1] eqn:E; [|discriminate].
  cbn [after] in H. cbv zeta in H.
  destruct (decide (buf_get_u32 trn 1 3 = SWD_ACK_OK)) as [Hok|Hok].
  { exists O, cmd, s, cmd1, trn, s1. split; [constructor|]. split; [done|by left]. }
  destruct (decide (buf_get_u32 trn 1 3 = SWD_ACK_WAIT)) as [Hw|Hw].
  2: { exists O, cmd, s, cmd1, trn, s1. split; [constructor|]. split; [done|by right]. }
  destruct (swd_clear_sticky_errors (add_log (LOG_DEBUG "SWD_ACK_WAIT" []) s1))
    as [[[] s2|f s2]|] eqn:Ec; [|discriminate..].
  apply IH in H as (n & cmd' & s' & cmdf & trn' & s'' & Hn & Ht & Hack).
  exists (Datatypes.S n), cmd', s', cmdf, trn', s''. split; [|done].
  by eapply retry_turns_S.
Qed.

End TurnLemmas.

Section TurnsClaims.
Context {EC : ErrorCodes} {SC : SwdCore}.

(** C7: a register read, entered with the latch clear (else it makes no
    transaction at all), one of whose transactions (the first, or the
    one after any number [n] of turns acknowledged WAIT, whatever the
    abort writes made in between did) is acknowledged OK with a parity
    bit that differs from the parity of the 32 bits received, returns
    right after that transaction: nothing further is sent or read, the
    latch holds [ERROR_FAIL], and the variable behind [value] holds
    what it held before. *)
Theorem read_parity_mismatch_is_latched
    (n : nat) (cmd ap_delay_clk : Z) (value : option Z) (s : swd_state)
    (cmd' : Z) (s' : swd_state) (cmdf : Z) (trn : list Z) (s'' : swd_state) :
  queued_retval s = ERROR_OK ->
  Z.land cmd SWD_CMD_RnW <> 0 ->
  SWD_ACK_WAIT <> SWD_ACK_OK ->
  retry_turns read_reg_transfer n cmd
    (add_log (LOG_DEBUG "bitbang_swd_read_reg" []) s) cmd' s' ->
  read_reg_transfer cmd' s' = Ret (cmdf, trn) s'' ->
  buf_get_u32 trn 1 3 = SWD_ACK_OK ->
  buf_get_u32 trn (1 + 3 + 32) 1 <> parity_u32 (buf_get_u32 trn (1 + 3) 32) ->
  exists sf,
    bitbang_swd_read_reg cmd value ap_delay_clk s = Some (Ret value sf) /\
    sf = set_queued_retval ERROR_FAIL (add_log (LOG_DEBUG "Wrong parity detected" []) s'') /\
    queued_retval sf = ERROR_FAIL /\
    tx sf = tx s'' /\ rx sf = rx s''.
Proof.
  intros Hl Hr Hne Hw Ht Hack Hpar.
  eexists. split; [|by repeat split].
  rewrite read_reg_enters by done.
  destruct (read_loop_through_turns n cmd _ cmd' s' value ap_delay_clk Hw Hne
              (Datatypes.S (length (rx s)))) as (fuel' & Hf' & ->); [simpl; lia|].
  destruct fuel' as [|fuel']; [lia|].
  cbn [read_reg_loop]. rewrite Ht. cbn [after]. cbv zeta.
  rewrite decide_True by done. by rewrite decide_True by done.
Qed.

(** X16: a register read or write, started with the latch clear, whose
    transaction (the first, or the one after any number [n] of turns
    acknowledged WAIT, whatever the abort writes made in between did)
    gets an acknowledge that is neither OK nor WAIT returns right
    after that transaction: the latch holds the acknowledge itself,
    the variable behind [value] of a read holds what it held,
    "SWD_ACK_FAULT" is logged for a FAULT and "No valid acknowledge:
    ack=%d" otherwise, and nothing more is sent or read. *)
Theorem bad_ack_is_latched
    (n : nat) (cmd ap_delay_clk : Z) (s : swd_state)
    (cmd' : Z) (s' : swd_state) (cmdf : Z) (trn : list Z) (s'' : swd_state) :
  queued_retval s = ERROR_OK ->
  SWD_ACK_WAIT <> SWD_ACK_OK ->
  buf_get_u32 trn 1 3 <> SWD_ACK_OK ->
  buf_get_u32 trn 1 3 <> SWD_ACK_WAIT ->
  (forall value,
     Z.land cmd SWD_CMD_RnW <> 0 ->
     retry_turns read_reg_transfer n cmd
       (add_log (LOG_DEBUG "bitbang_swd_read_reg" []) s) cmd' s' ->
     read_reg_transfer cmd' s' = Ret (cmdf, trn) s'' ->
     bitbang_swd_read_reg cmd value ap_delay_clk s
     = Some (Ret value (latched (buf_get_u32 trn 1 3) s''))) /\
  (forall value,
     Z.land cmd SWD_CMD_RnW = 0 ->
     retry_turns (fun c => write_reg_transfer c value) n cmd
       (add_log (LOG_DEBUG "bitbang_swd_write_reg" []) s) cmd' s' ->
     write_reg_transfer cmd' value s' = Ret (cmdf, trn) s'' ->
     bitbang_swd_write_reg cmd value ap_delay_clk s
     = Some (Ret tt (latched (buf_get_u32 trn 1 3) s''))) /\
  queued_retval (latched (buf_get_u32 trn 1 3) s'') = buf_get_u32 trn 1 3 /\
  tx (latched (buf_get_u32 trn 1 3) s'') = tx s'' /\
  rx (latched (buf_get_u32 trn 1 3) s'') = rx s''.
Proof.
  intros Hl Hne Hok Hwait. split; [|split; [|done]].
  - intros value Hr Hw Ht. rewrite read_reg_enters by done.
    destruct (read_loop_through_turns n cmd _ cmd' s' value ap_delay_clk Hw Hne
                (Datatypes.S (length (rx s)))) as (fuel' & Hf' & ->); [simpl; lia|].
    apply (read_loop_bad_ack fuel' cmd' value ap_delay_clk s' cmdf trn s''); [lia|done..].
  - intros value Hr Hw Ht. rewrite write_reg_enters by done.
    destruct (write_loop_through_turns n cmd _ cmd' s' value ap_delay_clk Hw Hne
                (Datatypes.S (length (rx s)))) as (fuel' & Hf' & ->); [simpl; lia|].
    apply (write_loop_bad_ack fuel' cmd' value ap_delay_clk s' cmdf trn s''); [lia|done..].
Qed.
End TurnsClaims.

(** ** What the transactions put on the stream *)

Lemma exchange_sent rnw buf offset bit_cnt s r s' :
  bitbang_exchange rnw buf offset bit_cnt s = Ret r s' ->
  fd s' = fd s /\
  tx s' = tx s ++ exchange_calls (fd s) rnw buf offset bit_cnt.
Proof.
  intros H.
  split; [exact (step_fd _ _ (keeps_Ret _ _ _ _ _ (step_exchange _ _ _ _) H))|].
  rewrite exchange_unfold in H. cbv zeta in H. unfold exchange_calls.
  destruct rnw.
  - destruct buf as [b|]; [|inversion H; subst; simpl; by rewrite <- app_assoc].
    apply bind_Ret in H as (d & s2 & H2 & H).
    apply bind_Ret in H as (b' & s3 & H3 & H). inversion H; subst r s'; clear H.
    pose proof (copy_loop_final (Z.to_nat (u32 (bit_cnt + offset) - offset)) offset b s2) as E.
    unfold for_range in H3. rewrite H3 in E. simpl in E. subst s3.
    by rewrite (keeps_Ret _ _ _ _ _ (same_tx_receive _) H2).
  - apply bind_Ret in H as ([] & s2 & H2 & H).
    apply bind_Ret in H as (d & s3 & H3 & H). inversion H; subst r s'; clear H.
    rewrite (keeps_Ret _ _ _ _ _ (same_tx_receive _) H3).
    destruct buf as [b|].
    + unfold for_range in H2. apply send_loop_Ret in H2 as [-> _]; [|lia].
      simpl. rewrite Z.sub_0_r. by rewrite <- app_assoc.
    + by inversion H2.
Qed.

Lemma drive_run out s :
  bitbang_interface_swdio_drive out s
  = Ret tt (add_tx (sys_write (fd s) [if out then 225 else 224]) s).
Proof. by destruct out. Qed.

Section FrameLemmas.
Context {EC : ErrorCodes} {SC : SwdCore}.

Lemma read_transfer_sent cmd s c trn s1 :
  read_reg_transfer cmd s = Ret (c, trn) s1 ->
  c = command_byte cmd /\ fd s1 = fd s /\ tx s1 = tx s ++ read_frame (fd s) c.
Proof.
  unfold read_reg_transfer. intros H.
  apply bind_Ret in H as (r1 & s2 & H1 & H). apply exchange_sent in H1 as [F1 T1].
  apply bind_Ret in H as ([] & s3 & H2 & H). rewrite drive_run in H2.
  injection H2 as <-.
  apply bind_Ret in H as (r3 & s4 & H3 & H). apply exchange_sent in H3 as [F3 T3].
  apply bind_Ret in H as ([] & s5 & H4 & H). rewrite drive_run in H4.
  injection H4 as <-.
  apply bind_Ret in H as ([] & s6 & H5 & H). injection H5 as <-.
  injection H as <- <- <-. simpl in *.
  split; [done|]. split; [congruence|].
  rewrite T3, T1, F3, F1.
  unfold read_frame, command_calls, exchange_calls, payload_writes.
  rewrite !bool_decide_eq_true_2 by done.
  change (Z.to_nat (DIV_ROUND_UP (8 + 0) 8)) with 1%nat.
  simpl. rewrite <- !app_assoc. reflexivity.
Qed.

Lemma write_transfer_sent cmd value s c trn s1 :
  write_reg_transfer cmd value s = Ret (c, trn) s1 ->
  c = command_byte cmd /\ fd s1 = fd s /\ tx s1 = tx s ++ write_frame (fd s) c trn.
Proof.
  unfold write_reg_transfer. intros H.
  apply bind_Ret in H as (r1 & s2 & H1 & H). apply exchange_sent in H1 as [F1 T1].
  apply bind_Ret in H as ([] & s3 & H2 & H). rewrite drive_run in H2.
  injection H2 as <-.
  apply bind_Ret in H as (r3 & s4 & H3 & H). apply exchange_sent in H3 as [F3 T3].
  apply bind_Ret in H as ([] & s5 & H4 & H). rewrite drive_run in H4.
  injection H4 as <-.
  apply bind_Ret in H as (r5 & s6 & H5 & H). apply exchange_sent in H5 as [F5 T5].
  apply bind_Ret in H as ([] & s7 & H6 & H). injection H6 as <-.
  injection H as <- <- <-. simpl in *.
  split; [done|]. split; [congruence|].
  rewrite T5, T3, T1, F3, F1.
  unfold write_frame, command_calls, exchange_calls, payload_writes.
  rewrite !bool_decide_eq_true_2 by done.
  change (Z.to_nat (DIV_ROUND_UP (8 + 0) 8)) with 1%nat.
  change (Z.to_nat (DIV_ROUND_UP (32 + 1 + (1 + 3 + 1)) 8)) with 5%nat.
  simpl. rewrite <- !app_assoc. reflexivity.
Qed.

Lemma ap_delay_sent c d s s' :
  ap_delay c d s = Ret tt s' ->
  fd s' = fd s /\ tx s' = tx s ++ delay_calls (fd s) c d.
Proof.
  unfold ap_delay, delay_calls. intros H.
  destruct (Z.land c SWD_CMD_APnDP =? 0).
  - inversion H; subst. by rewrite app_nil_r.
  - apply bind_Ret in H as (r & s1 & H1 & H). inversion H; subst s'.
    by apply exchange_sent in H1.
Qed.

Lemma command_byte_twice cmd : command_byte (command_byte cmd) = command_byte cmd.
Proof.
  unfold command_byte, u8. change 256 with (2 ^ 8).
  rewrite <- !Z.land_ones by lia.
  apply Z.bits_inj'. intros i Hi.
  rewrite !Z.land_spec, !Z.lor_spec, !Z.land_spec, !Z.lor_spec.
  destruct (Z.testbit cmd i), (Z.testbit SWD_CMD_START i),
    (Z.testbit (Z.shiftl 1 7) i), (Z.testbit (Z.ones 8) i); reflexivity.
Qed.
End FrameLemmas.

Section WaitFrames.
Context {EC : ErrorCodes} {SC : SwdCore}.

(** What [n] turns acknowledged WAIT, each with its write to the abort
    register acknowledged OK, put on the stream: [n] times the
    transaction and the write to the abort register. *)
Lemma wait_turns_sent (transfer : Z -> W (Z * list Z))
    (frame : Z -> Z -> list Z -> list stream_event) :
  (forall cmd s c trn s1,
     transfer cmd s = Ret (c, trn) s1 ->
     c = command_byte cmd /\ fd s1 = fd s /\ tx s1 = tx s ++ frame (fd s) c trn) ->
  forall n cmd s cmd' s',
    wait_turns transfer n cmd s cmd' s' ->
    exists turns : list (list Z * list Z),
      length turns = n /\ fd s' = fd s /\
      command_byte cmd' = command_byte cmd /\
      Forall (abort_turn transfer) turns /\
      tx s' = tx s ++ flat_map (fun t => frame (fd s) (command_byte cmd) t.1
                                         ++ abort_frame (fd s) t.2) turns.
Proof.
  intros Hframe n cmd s cmd' s' Hw.
  induction Hw as [cmd s|n cmd s cmd1 trn s1 acmd atrn s2 s3 cmd' s'
    Hsend Hwait Hwrite Hok Hdelay Hrest IH].
  - exists []. simpl. split; [done|]. split; [done|]. split; [done|].
    split; [constructor|]. by rewrite app_nil_r.
  - destruct IH as (turns & Hlen & Hfd & Hcmd & Hall & Htx).
    assert (Hturn : abort_turn transfer (trn, atrn)).
    { split; [by exists cmd, s, cmd1, s1|]. split; [done|]. eexists acmd, _, s2. split; [exact Hwrite|exact Hok]. }
    apply Hframe in Hsend as (-> & F1 & T1).
    apply write_transfer_sent in Hwrite as (-> & F2 & T2). simpl in F2, T2.
    apply ap_delay_sent in Hdelay as (F3 & T3).
    exists ((trn, atrn) :: turns). simpl.
    split; [by rewrite Hlen|]. split; [congruence|].
    split; [by rewrite Hcmd, command_byte_twice|].
    split; [by constructor|].
    rewrite Htx, T3, T2, T1, command_byte_twice.
    replace (fd s3) with (fd s) by congruence.
    replace (fd s2) with (fd s) by congruence.
    rewrite F1. unfold abort_frame. by rewrite <- !app_assoc.
Qed.
End WaitFrames.

Section WaitClaim.
Context {EC : ErrorCodes} {SC : SwdCore}.

(** C4, as the code has it: a register read, and likewise a register
    write, started with the latch clear, whose transaction is
    acknowledged WAIT [n] times in a row and then OK (with matching
    parity for a read), the write to the abort register made after
    each WAIT being acknowledged OK at once, returns successfully, the
    latch still clear; what it has put on the stream is, [n] times,
    the whole transaction from its command byte followed by one write
    transaction of the clear value to the abort register, and then the
    whole transaction once more (with the delay clocks, for an AP
    access): one abort write for each WAIT and one completing
    transaction, whatever [n] is.  The log counts [n] calls of
    [bitbang_swd_write_reg] made on the way ([n] and the call itself,
    for a write).  With [n = 2]: two abort writes and one transaction
    that completes. *)
Theorem wait_acks_clear_and_retry
    (n : nat) (cmd ap_delay_clk : Z) (s : swd_state)
    (cmd' : Z) (s' : swd_state) (cmdf : Z) (trn : list Z) (s'' sf : swd_state) :
  queued_retval s = ERROR_OK ->
  Z.land (swd_cmd false false DP_ABORT) SWD_CMD_RnW = 0 ->
  SWD_ACK_WAIT <> SWD_ACK_OK ->
  buf_get_u32 trn 1 3 = SWD_ACK_OK ->
  ap_delay cmdf ap_delay_clk s'' = Ret tt sf ->
  (forall value,
     Z.land cmd SWD_CMD_RnW <> 0 ->
     wait_turns read_reg_transfer n cmd
       (add_log (LOG_DEBUG "bitbang_swd_read_reg" []) s) cmd' s' ->
     read_reg_transfer cmd' s' = Ret (cmdf, trn) s'' ->
     buf_get_u32 trn (1 + 3 + 32) 1 = parity_u32 (buf_get_u32 trn (1 + 3) 32) ->
     bitbang_swd_read_reg cmd value ap_delay_clk s
     = Some (Ret (match value with
                  | Some _ => Some (buf_get_u32 trn (1 + 3) 32)
                  | None => None
                  end) sf) /\
     queued_retval sf = ERROR_OK /\
     write_reg_calls (slog sf) = (write_reg_calls (slog s) + n)%nat /\
     exists turns : list (list Z * list Z),
       length turns = n /\
       Forall (abort_turn read_reg_transfer) turns /\
       tx sf = tx s
               ++ flat_map (fun t => read_frame (fd s) (command_byte cmd)
                                     ++ abort_frame (fd s) t.2) turns
               ++ read_frame (fd s) (command_byte cmd)
               ++ delay_calls (fd s) (command_byte cmd) ap_delay_clk) /\
  (forall value,
     Z.land cmd SWD_CMD_RnW = 0 ->
     wait_turns (fun c => write_reg_transfer c value) n cmd
       (add_log (LOG_DEBUG "bitbang_swd_write_reg" []) s) cmd' s' ->
     write_reg_transfer cmd' value s' = Ret (cmdf, trn) s'' ->
     bitbang_swd_write_reg cmd value ap_delay_clk s = Some (Ret tt sf) /\
     queued_retval sf = ERROR_OK /\
     write_reg_calls (slog sf) = (write_reg_calls (slog s) + 1 + n)%nat /\
     exists turns : list (list Z * list Z),
       length turns = n /\
       Forall (abort_turn (fun c => write_reg_transfer c value)) turns /\
       tx sf = tx s
               ++ flat_map (fun t => write_frame (fd s) (command_byte cmd) t.1
                                     ++ abort_frame (fd s) t.2) turns
               ++ write_frame (fd s) (command_byte cmd) trn
               ++ delay_calls (fd s) (command_byte cmd) ap_delay_clk).
Proof.
  intros Hl Habort Hne Hok Hdelay.
  pose proof (keeps_Ret _ _ _ _ _ (step_ap_delay cmdf ap_delay_clk) Hdelay) as St2.
  apply ap_delay_sent in Hdelay as Hsent. destruct Hsent as [Fd Td].
  split.
  - intros value Hr Hw Hread Hpar.
    set (s0 := add_log (LOG_DEBUG "bitbang_swd_read_reg" []) s) in *.
    destruct (read_loop_through_waits n cmd s0 cmd' s' value ap_delay_clk Hw Hl Habort Hne
                (Datatypes.S (length (rx s0)))) as (fuel' & Hf' & Hloop & Hl' & Hcalls); [lia|].
    pose proof (keeps_Ret _ _ _ _ _ (step_read_reg_transfer cmd') Hread) as St1.
    split; [|split; [|split]].
    + unfold bitbang_swd_read_reg. fold s0.
      destruct (Z.eqb_spec (Z.land cmd SWD_CMD_RnW) 0); [done|].
      rewrite decide_False by (simpl; intros H; by apply H).
      rewrite Hloop. destruct fuel' as [|fuel']; [lia|].
      simpl. rewrite Hread. simpl.
      rewrite decide_True by done.
      rewrite decide_False by (intros H; by apply H).
      unfold bind. by rewrite Hdelay.
    + rewrite (step_latch _ _ St2), (step_latch _ _ St1). exact Hl'.
    + rewrite (step_calls _ _ St2), (step_calls _ _ St1), Hcalls.
      unfold s0. simpl. rewrite write_reg_calls_app.
      unfold write_reg_calls at 2. rewrite filter_cons_False by done. simpl. lia.
    + destruct (wait_turns_sent read_reg_transfer (fun fd c _ => read_frame fd c)
                  (fun cmd s c trn s1 H => read_transfer_sent cmd s c trn s1 H)
                  n cmd s0 cmd' s' Hw) as (turns & Hlen & Hfd & Hcmd & Hall & Htx).
      apply read_transfer_sent in Hread as (-> & F1 & T1).
      exists turns. split; [done|]. split; [done|].
      rewrite Td, T1, Htx, Hcmd. simpl.
      replace (fd s'') with (fd s) by (simpl in *; congruence).
      replace (fd s') with (fd s) by (simpl in *; congruence).
      by rewrite <- !app_assoc.
  - intros value Hr Hw Hsend.
    set (s0 := add_log (LOG_DEBUG "bitbang_swd_write_reg" []) s) in *.
    destruct (write_loop_through_waits n cmd s0 cmd' s' value ap_delay_clk Hw Hl Habort Hne
                (Datatypes.S (length (rx s0)))) as (fuel' & Hf' & Hloop & Hl' & Hcalls); [lia|].
    pose proof (keeps_Ret _ _ _ _ _ (step_write_reg_transfer cmd' value) Hsend) as St1.
    split; [|split; [|split]].
    + unfold bitbang_swd_write_reg, write_reg_entry. fold s0.
      rewrite Hr. simpl negb. cbv iota.
      rewrite decide_False by (simpl; intros H; by apply H).
      change (rx s) with (rx s0). rewrite Hloop. destruct fuel' as [|fuel']; [lia|].
      cbn [write_reg_loop]. rewrite Hsend. cbn [after].
      rewrite decide_True by done. by rewrite Hdelay.
    + rewrite (step_latch _ _ St2), (step_latch _ _ St1). exact Hl'.
    + rewrite (step_calls _ _ St2), (step_calls _ _ St1), Hcalls.
      unfold s0. rewrite write_reg_calls_enter. lia.
    + destruct (wait_turns_sent (fun c => write_reg_transfer c value) write_frame
                  (fun cmd s c trn s1 H => write_transfer_sent cmd value s c trn s1 H)
                  n cmd s0 cmd' s' Hw) as (turns & Hlen & Hfd & Hcmd & Hall & Htx).
      apply write_transfer_sent in Hsend as (-> & F1 & T1).
      exists turns. split; [done|]. split; [done|].
      rewrite Td, T1, Htx, Hcmd. simpl.
      replace (fd s'') with (fd s) by (simpl in *; congruence).
      replace (fd s') with (fd s) by (simpl in *; congruence).
      by rewrite <- !app_assoc.
Qed.
End WaitClaim.

(** A read acknowledged WAIT, WAIT, OK: the read transaction and a write
    to the abort register twice, then the read transaction once more;
    two calls of [bitbang_swd_write_reg], and the value read is stored. *)
Lemma wait_acks_clear_and_retry_witness :
  exists sf turns,
    bitbang_swd_read_reg (EC := sample_error_codes) (SC := sample_swd_core) 4 (Some 7) 0
      (sample_boot sample_wait_wait_ok)
    = Some (Ret (Some 305419896) sf) /\
    queued_retval sf = 0 /\
    write_reg_calls (slog sf) = 2%nat /\
    length turns = 2%nat /\
    tx sf = flat_map (fun t : list Z * list Z =>
                        read_frame 0 133
                        ++ abort_frame (SC := sample_swd_core) 0 t.2) turns
            ++ read_frame 0 133.
Proof.
  eassert (Hchain : wait_turns (SC := sample_swd_core)
                      (read_reg_transfer (SC := sample_swd_core)) 2 4
                      (add_log (LOG_DEBUG "bitbang_swd_read_reg" [])
                         (sample_boot sample_wait_wait_ok)) _ _).
  { eapply wait_turns_S; [vm_compute; reflexivity..|].
    eapply wait_turns_S; [vm_compute; reflexivity..|].
    apply wait_turns_O. }
  match type of Hchain with
  | wait_turns _ _ _ _ ?c ?s1 =>
      eassert (Hfinal : read_reg_transfer (SC := sample_swd_core) c s1 = Ret (_, _) _)
        by (vm_compute; reflexivity)
  end.
  match type of Hfinal with
  | _ = Ret (?cf, ?t) ?s2 =>
      eassert (Hdelay : ap_delay (SC := sample_swd_core) cf 0 s2 = Ret tt _)
        by (vm_compute; reflexivity);
      assert (Hok : buf_get_u32 (SwdCore := sample_swd_core) t 1 3
                    = SWD_ACK_OK (SwdCore := sample_swd_core))
        by (vm_compute; reflexivity);
      assert (Hpar : buf_get_u32 (SwdCore := sample_swd_core) t (1 + 3 + 32) 1
                     = parity_u32 (SwdCore := sample_swd_core)
                         (buf_get_u32 (SwdCore := sample_swd_core) t (1 + 3) 32))
        by (vm_compute; reflexivity)
  end.
  assert (Hl : queued_retval (sample_boot sample_wait_wait_ok)
               = ERROR_OK (ErrorCodes := sample_error_codes)) by reflexivity.
  assert (Habort : Z.land (swd_cmd (SwdCore := sample_swd_core) false false
                             (DP_ABORT (SwdCore := sample_swd_core)))
                     (SWD_CMD_RnW (SwdCore := sample_swd_core)) = 0) by reflexivity.
  assert (Hne : SWD_ACK_WAIT (SwdCore := sample_swd_core)
                <> SWD_ACK_OK (SwdCore := sample_swd_core)) by (simpl; discriminate).
  assert (Hr : Z.land 4 (SWD_CMD_RnW (SwdCore := sample_swd_core)) <> 0)
    by (simpl; discriminate).
  destruct (proj1 (wait_acks_clear_and_retry (EC := sample_error_codes)
                     (SC := sample_swd_core) 2 4 0 (sample_boot sample_wait_wait_ok)
                     _ _ _ _ _ _ Hl Habort Hne Hok Hdelay)
              (Some 7) Hr Hchain Hfinal Hpar) as (E1 & E2 & E3 & turns & E4 & _ & E5).
  eexists. exists turns.
  split; [exact E1|]. split; [exact E2|]. split; [exact E3|]. split; [exact E4|].
  rewrite E5. reflexivity.
Defined.

(** C4 as stated fails: a read acknowledged WAIT, WAIT, OK whose first
    write to the abort register is acknowledged FAULT.  The fault is
    latched by that write, so the write that the second WAIT asks for
    is skipped: the read transaction is on the stream three times and
    the write to the abort register once, for two acknowledgements WAIT;
    the value read is stored and the latch holds the fault. *)
Lemma wait_without_abort_write_counterexample :
  exists sf,
    bitbang_swd_read_reg (EC := sample_error_codes) (SC := sample_swd_core) 4 (Some 7) 0
      (sample_boot sample_wait_fault_wait_ok)
    = Some (Ret (Some 305419896) sf) /\
    length (filter (fun l => l = LOG_DEBUG "SWD_ACK_WAIT" []) (slog sf)) = 2%nat /\
    tx sf = read_frame 0 133
            ++ write_frame 0 129 [200; 3; 0; 0; 128]
            ++ read_frame 0 133
            ++ read_frame 0 133 /\
    In (LOG_DEBUG "Skip bitbang_swd_write_reg because queued_retval=%d" [ArgZ 4]) (slog sf) /\
    queued_retval sf = 4.
Proof.
  eexists. split; [vm_compute; reflexivity|].
  split; [vm_compute; reflexivity|]. split; [vm_compute; reflexivity|].
  split; [|reflexivity]. simpl. tauto.
Qed.

(** A read acknowledged WAIT and then OK with the parity bit wrong:
    ERROR_FAIL is latched and the caller's 7 is not replaced. *)
Lemma read_parity_mismatch_is_latched_witness :
  exists sf,
    bitbang_swd_read_reg (EC := sample_error_codes) (SC := sample_swd_core) 4 (Some 7) 0
      (sample_boot (sample_read_answer 2 0 0 ++ sample_write_answer 1
                    ++ sample_read_answer 1 305419896 0))
    = Some (Ret (Some 7) sf) /\
    queued_retval sf = -4 /\
    tx sf = read_frame 0 133
            ++ abort_frame (SC := sample_swd_core) 0 [194; 3; 0; 0; 128]
            ++ read_frame 0 133.
Proof.
  eassert (Hchain : retry_turns (EC := sample_error_codes) (SC := sample_swd_core)
                      (read_reg_transfer (SC := sample_swd_core)) 1 4
                      (add_log (LOG_DEBUG "bitbang_swd_read_reg" [])
                         (sample_boot (sample_read_answer 2 0 0 ++ sample_write_answer 1
                                       ++ sample_read_answer 1 305419896 0))) _ _).
  { eapply retry_turns_S; [vm_compute; reflexivity..|]. apply retry_turns_O. }
  match type of Hchain with
  | retry_turns _ _ _ _ ?c ?s1 =>
      eassert (Hfinal : read_reg_transfer (SC := sample_swd_core) c s1 = Ret (_, _) _)
        by (vm_compute; reflexivity)
  end.
  match type of Hfinal with
  | _ = Ret (?cf, ?t) ?s2 =>
      assert (Hok : buf_get_u32 (SwdCore := sample_swd_core) t 1 3
                    = SWD_ACK_OK (SwdCore := sample_swd_core))
        by (vm_compute; reflexivity);
      assert (Hpar : buf_get_u32 (SwdCore := sample_swd_core) t (1 + 3 + 32) 1
                     <> parity_u32 (SwdCore := sample_swd_core)
                         (buf_get_u32 (SwdCore := sample_swd_core) t (1 + 3) 32))
        by (vm_compute; discriminate)
  end.
  assert (Hl : queued_retval (sample_boot (sample_read_answer 2 0 0 ++ sample_write_answer 1
                                           ++ sample_read_answer 1 305419896 0))
               = ERROR_OK (ErrorCodes := sample_error_codes)) by reflexivity.
  assert (Hne : SWD_ACK_WAIT (SwdCore := sample_swd_core)
                <> SWD_ACK_OK (SwdCore := sample_swd_core)) by (simpl; discriminate).
  assert (Hr : Z.land 4 (SWD_CMD_RnW (SwdCore := sample_swd_core)) <> 0)
    by (simpl; discriminate).
  destruct (read_parity_mismatch_is_latched (EC := sample_error_codes)
              (SC := sample_swd_core) 1 4 0 (Some 7)
              (sample_boot (sample_read_answer 2 0 0 ++ sample_write_answer 1
                            ++ sample_read_answer 1 305419896 0))
              _ _ _ _ _ Hl Hr Hne Hchain Hfinal Hok Hpar) as (sf & E1 & E2 & E3 & E4 & E5).
  exists sf. split; [exact E1|]. split; [exact E3|].
  rewrite E4. reflexivity.
Defined.

(** A write acknowledged WAIT and then FAULT: the fault is latched. *)
Lemma bad_ack_is_latched_witness :
  exists sf,
    bitbang_swd_write_reg (EC := sample_error_codes) (SC := sample_swd_core) 8 99 0
      (sample_boot (sample_write_answer 2 ++ sample_write_answer 1
                    ++ sample_write_answer 4))
    = Some (Ret tt sf) /\
    queued_retval sf = 4.
Proof.
  eassert (Hchain : retry_turns (EC := sample_error_codes) (SC := sample_swd_core)
                      (fun c => write_reg_transfer (SC := sample_swd_core) c 99) 1 8
                      (add_log (LOG_DEBUG "bitbang_swd_write_reg" [])
                         (sample_boot (sample_write_answer 2 ++ sample_write_answer 1
                                       ++ sample_write_answer 4))) _ _).
  { eapply retry_turns_S; [vm_compute; reflexivity..|]. apply retry_turns_O. }
  match type of Hchain with
  | retry_turns _ _ _ _ ?c ?s1 =>
      eassert (Hfinal : write_reg_transfer (SC := sample_swd_core) c 99 s1 = Ret (_, _) _)
        by (vm_compute; reflexivity)
  end.
  match type of Hfinal with
  | _ = Ret (?cf, ?t) ?s2 =>
      assert (Hok : buf_get_u32 (SwdCore := sample_swd_core) t 1 3
                    <> SWD_ACK_OK (SwdCore := sample_swd_core))
        by (vm_compute; discriminate);
      assert (Hwait : buf_get_u32 (SwdCore := sample_swd_core) t 1 3
                    <> SWD_ACK_WAIT (SwdCore := sample_swd_core))
        by (vm_compute; discriminate)
  end.
  assert (Hl : queued_retval (sample_boot (sample_write_answer 2 ++ sample_write_answer 1
                                           ++ sample_write_answer 4))
               = ERROR_OK (ErrorCodes := sample_error_codes)) by reflexivity.
  assert (Hne : SWD_ACK_WAIT (SwdCore := sample_swd_core)
                <> SWD_ACK_OK (SwdCore := sample_swd_core)) by (simpl; discriminate).
  assert (Hr : Z.land 8 (SWD_CMD_RnW (SwdCore := sample_swd_core)) = 0) by reflexivity.
  match type of Hchain with
  | retry_turns _ _ _ _ ?c ?s1 =>
      match type of Hfinal with
      | _ = Ret (?cf, ?t) ?s2 =>
          destruct (bad_ack_is_latched (EC := sample_error_codes)
                      (SC := sample_swd_core) 1 8 0
                      (sample_boot (sample_write_answer 2 ++ sample_write_answer 1
                                    ++ sample_write_answer 4))
                      c s1 cf t s2 Hl Hne Hok Hwait) as (_ & E2 & E3 & _)
      end
  end.
  eexists. split; [exact (E2 99 Hr Hchain Hfinal)|exact E3].
Defined.

Section LatchClaim.
Context {EC : ErrorCodes} {SC : SwdCore}.

End LatchClaim.



(** The digits are those of the low byte. *)
Lemma two_hex_digits_low_byte n : two_hex_digits (n mod 256) = two_hex_digits n.
Proof.
  unfold two_hex_digits.
  replace (n mod 256 / 16 mod 16) with (n / 16 mod 16) by lia.
  replace (n mod 256 mod 16) with (n mod 16) by lia.
  reflexivity.
Qed.

(** C6, as the code has it: a read-exchange request for [bit_cnt] bits
    at [offset] with a capture buffer sends, whether or not the answer
    ever comes, exactly one run of 7 bytes: 0xF1, then two upper-case
    hex digits for the low byte of [bit_cnt], two for the low byte of
    [offset] and two for the low byte of the payload length, which is
    [(bit_cnt + offset + 7) / 8] in [unsigned int]: the least number of
    bytes that hold [bit_cnt + offset] bits.  The two digits of a byte
    [n] are the digits [hi], [lo] of [n = 16 * hi + lo], zero-padded, so
    a field below 256 is written as it is and a larger one loses all but
    its low byte.  Without a capture buffer the length field is "00",
    and the call sends the request, sleeps 10000 microseconds and
    returns with the stream unread; and three bits at offset 2 without
    a buffer give the count field "03", the request being 0xF1
    "030200". *)
Theorem read_exchange_request (offset bit_cnt : Z) (s : swd_state) :
  (forall b,
     tx (final (bitbang_exchange true (Some b) offset bit_cnt s)) =
     tx s ++ [sys_write (fd s)
                (241 :: two_hex_digits (bit_cnt mod 256)
                     ++ two_hex_digits (offset mod 256)
                     ++ two_hex_digits ((bit_cnt + offset + 7) mod 2 ^ 32 / 8 mod 256))]) /\
  (0 <= bit_cnt -> 0 <= offset -> bit_cnt + offset + 7 < 2 ^ 32 ->
   8 * ((bit_cnt + offset + 7) mod 2 ^ 32 / 8) - 8 < bit_cnt + offset
     <= 8 * ((bit_cnt + offset + 7) mod 2 ^ 32 / 8)) /\
  (forall n, 0 <= n < 256 ->
     n mod 256 = n /\
     exists hi lo, 0 <= hi < 16 /\ 0 <= lo < 16 /\ n = 16 * hi + lo /\
                   two_hex_digits n = [hex_digit hi; hex_digit lo]) /\
  map hex_digit [0; 1; 2; 3; 4; 5; 6; 7; 8; 9; 10; 11; 12; 13; 14; 15]
    = codes "0123456789ABCDEF" /\
  bitbang_exchange true None offset bit_cnt s =
    Ret None
      (add_tx (sys_usleep 10000)
         (add_tx (sys_write (fd s)
                    (241 :: two_hex_digits (bit_cnt mod 256)
                         ++ two_hex_digits (offset mod 256) ++ codes "00"))
            (add_log (LOG_DEBUG "bitbang_exchange" []) s))) /\
  (bit_cnt = 3 -> offset = 2 ->
   two_hex_digits (bit_cnt mod 256) = codes "03" /\
   exchange_header 241 false offset bit_cnt = 241 :: codes "030200").
Proof.
  assert (Hh : forall has_buf,
             exchange_header 241 has_buf offset bit_cnt
             = 241 :: two_hex_digits (bit_cnt mod 256) ++ two_hex_digits (offset mod 256)
                   ++ (if has_buf
                       then two_hex_digits ((bit_cnt + offset + 7) mod 2 ^ 32 / 8 mod 256)
                       else codes "00")).
  { intros has_buf. unfold exchange_header.
    rewrite !GET_UPPER_HEX_digit, !GET_LOWER_HEX_digit.
    rewrite !two_hex_digits_low_byte. unfold two_hex_digits, DIV_ROUND_UP, u32.
    replace (bit_cnt + offset + 8 - 1) with (bit_cnt + offset + 7) by lia.
    by destruct has_buf. }
  split; [|split; [|split; [|split; [|split]]]].
  - intros b. rewrite exchange_unfold. cbv zeta.
    rewrite bool_decide_eq_true_2 by done. rewrite (Hh true).
    match goal with |- tx (final (?m ?s1)) = _ =>
      change (tx s ++ _) with (tx s1); cut (keeps same_tx m); [intros K; apply K|]
    end.
    apply (keeps_bind _); [apply same_tx_receive|]. intros _.
    apply (keeps_bind _).
    + intros s2. unfold for_range. by rewrite copy_loop_final.
    + intros b'. apply (keeps_ret _).
  - intros Hb Ho Hsum. rewrite Z.mod_small by lia. lia.
  - intros n Hn. split; [by rewrite Z.mod_small|].
    exists (n / 16), (n mod 16). unfold two_hex_digits.
    replace (n / 16 mod 16) with (n / 16) by lia.
    repeat split; lia.
  - reflexivity.
  - rewrite exchange_unfold. cbv zeta.
    change (bool_decide (None <> None)) with false.
    rewrite (Hh false). reflexivity.
  - intros -> ->. split; reflexivity.
Qed.

(** C6 as stated fails: the fields hold one byte.  A request for 300
    bits with a buffer of 38 bytes, answered in full, is 0xF1 "2C0026":
    its count field reads back as 44, and the call returns. *)
Lemma read_exchange_wide_count_counterexample :
  exists s' hi lo,
    bitbang_exchange true (Some (replicate 38 0)) 0 300
      (sample_boot [hex_of_bytes (replicate 38 0)])
    = Ret (Some (replicate 38 0)) s' /\
    tx s' = [sys_write 0 (241 :: [hi; lo] ++ codes "0026")] /\
    [hi; lo] = codes "2C" /\
    16 * HEX_TO_INT hi + HEX_TO_INT lo = 44.
Proof.
  do 3 eexists. split; [vm_compute; reflexivity|].
  split; [reflexivity|]. split; reflexivity.
Qed.

(** ** What an operation sends whatever the stream answers *)

Lemma final_bind_sent {A B} (m : W A) (k : A -> W B) s :
  (forall a, keeps transport_step (k a)) ->
  exists more, tx (final (bind m k s)) = tx (final (m s)) ++ more.
Proof.
  intros Hk. unfold bind. destruct (m s) as [a s1|f s1]; simpl.
  - apply (step_tx _ _ (Hk a s1)).
  - exists []. by rewrite app_nil_r.
Qed.

Lemma exchange_sends_request rnw buf offset bit_cnt s :
  exists more,
    tx (final (bitbang_exchange rnw buf offset bit_cnt s))
    = tx s ++ sys_write (fd s) (exchange_header (if rnw then 241 else 240)
                                  (bool_decide (buf <> None)) offset bit_cnt) :: more.
Proof.
  rewrite exchange_unfold. cbv zeta. destruct rnw.
  - destruct buf as [b|].
    + match goal with |- context [final (?m ?s1)] =>
        assert (K : keeps transport_step m)
      end.
      { apply (keeps_bind _); [apply step_receive|]. intros _.
        apply (keeps_bind _).
        - intros s2. unfold for_range. rewrite copy_loop_final. reflexivity.
        - intros b'. apply (keeps_ret _). }
      match goal with |- context [final (_ ?s1)] =>
        destruct (step_tx _ _ (K s1)) as [more ->]
      end.
      exists more. simpl. by rewrite <- app_assoc.
    + exists [sys_usleep 10000]. simpl. by rewrite <- app_assoc.
  - match goal with |- context [final (?m ?s1)] =>
      assert (K : keeps transport_step m)
    end.
    { apply (keeps_bind _).
      - destruct buf as [b|]; [|apply (keeps_ret _)].
        unfold for_range. apply (keeps_iter _). intros i u. apply step_send_byte.
      - intros _. apply (keeps_bind _); [apply step_receive|]. intros _.
        apply (keeps_ret _). }
    match goal with |- context [final (_ ?s1)] =>
      destruct (step_tx _ _ (K s1)) as [more ->]
    end.
    exists more. simpl. by rewrite <- app_assoc.
Qed.

Lemma command_exchange_sent c s :
  exists more,
    tx (final (bitbang_exchange false (Some [c]) 0 8 s))
    = tx s ++ command_calls (fd s) c ++ more.
Proof.
  rewrite exchange_unfold. cbv zeta.
  change (DIV_ROUND_UP (8 + 0) 8) with 1.
  rewrite bool_decide_eq_true_2 by done.
  unfold for_range. change (Z.to_nat (1 - 0)) with 1%nat.
  cbn [iter_from]. unfold bind at 2. unfold send_byte at 1.
  change (at_index [c] 0) with (Some c). unfold fd_write at 1.
  unfold ret at 1. unfold bind at 1.
  match goal with |- context [final (?m ?s1)] =>
    assert (K : keeps transport_step m)
  end.
  { apply (keeps_bind _); [apply step_receive|]. intros _. apply (keeps_ret _). }
  match goal with |- context [final (_ ?s1)] =>
    destruct (step_tx _ _ (K s1)) as [more ->]
  end.
  exists more. unfold command_calls, byte_write. simpl. by rewrite <- !app_assoc.
Qed.

Section FirstRequest.
Context {EC : ErrorCodes} {SC : SwdCore}.

Lemma read_transfer_sends_command cmd s :
  exists more,
    tx (final (read_reg_transfer cmd s))
    = tx s ++ command_calls (fd s) (command_byte cmd) ++ more.
Proof.
  unfold read_reg_transfer. cbv zeta. fold (command_byte cmd).
  match goal with |- context [final (bind ?m ?k s)] =>
    destruct (final_bind_sent m k s) as [more1 ->]
  end.
  { intros _.
    apply (keeps_bind _); [apply step_drive|]. intros _.
    apply (keeps_bind _); [apply step_exchange|]. intros r.
    apply (keeps_bind _); [apply step_drive|]. intros _.
    apply (keeps_bind _); [apply step_log_transfer|]. intros _.
    apply (keeps_ret _). }
  destruct (command_exchange_sent (command_byte cmd) s) as [more ->].
  exists (more ++ more1). by rewrite <- !app_assoc.
Qed.

Lemma write_transfer_sends_command cmd value s :
  exists more,
    tx (final (write_reg_transfer cmd value s))
    = tx s ++ command_calls (fd s) (command_byte cmd) ++ more.
Proof.
  unfold write_reg_transfer. cbv zeta. fold (command_byte cmd).
  match goal with |- context [final (bind ?m ?k s)] =>
    destruct (final_bind_sent m k s) as [more1 ->]
  end.
  { intros _.
    apply (keeps_bind _); [apply step_drive|]. intros _.
    apply (keeps_bind _); [apply step_exchange|]. intros r.
    apply (keeps_bind _); [apply step_drive|]. intros _.
    apply (keeps_bind _); [apply step_exchange|]. intros _.
    apply (keeps_bind _); [apply step_log_transfer|]. intros _.
    apply (keeps_ret _). }
  destruct (command_exchange_sent (command_byte cmd) s) as [more ->].
  exists (more ++ more1). by rewrite <- !app_assoc.
Qed.

(** Either loop, given the fuel, hands back an outcome that the state
    after its first transaction leads to. *)
Lemma read_reg_loop_after_transfer fuel cmd value d s :
  (length (rx s) < Datatypes.S fuel)%nat ->
  exists o, read_reg_loop (Datatypes.S fuel) cmd value d s = Some o /\
            engine_step (final (read_reg_transfer cmd s)) (final o) /\ ~ exits o.
Proof.
  intros Hlen. pose proof (read_reg_loop_finishes fuel) as IH.
  cbn [read_reg_loop].
  pose proof (never_exits_read_reg_transfer cmd s) as Hx.
  destruct (read_reg_transfer cmd s) as [[cmd1 trn] s1|f s1] eqn:E; cbn [after final] in *.
  2: { exists (Stop f s1). split; [done|]. split; [reflexivity|done]. }
  apply read_reg_transfer_consumes in E.
  match goal with |- exists o, ?r = Some o /\ _ /\ _ => change (finishes s1 r) end.
  cbv zeta.
  destruct (decide (buf_get_u32 trn 1 3 = SWD_ACK_OK)).
  { destruct (decide (_ <> _)).
    - apply finishes_Some; [|simpl; auto]. simpl.
      etransitivity; [apply engine_step_add_log|apply engine_step_set_latch].
    - apply finishes_Some.
      + apply transport_engine_step.
        apply (keeps_bind _); [apply step_ap_delay|]. intros _. apply (keeps_ret _).
      + apply never_exits_bind; [apply never_exits_ap_delay|].
        intros _. apply never_exits_ret. }
  destruct (decide (buf_get_u32 trn 1 3 = SWD_ACK_WAIT)).
  2: { destruct (decide (buf_get_u32 trn 1 3 = SWD_ACK_FAULT));
       (apply finishes_Some; [|simpl; auto]); simpl;
       (etransitivity; [apply engine_step_add_log|apply engine_step_set_latch]). }
  set (s2 := add_log _ s1).
  apply (finishes_weaken s1 s2); [apply engine_step_add_log|].
  destruct (write_reg_finishes (swd_cmd false false DP_ABORT)
              (Z.lor (Z.lor (Z.lor STKCMPCLR STKERRCLR) WDERRCLR) ORUNERRCLR) 0 s2)
    as (o & Eo & Sto & Hxo).
  unfold swd_clear_sticky_errors, clear_sticky_errors_by. rewrite Eo.
  destruct o as [[] s3|f s3]; simpl in *.
  - apply (finishes_weaken s2 s3); [done|]. apply IH.
    apply engine_step_rx_length in Sto. simpl in Sto. lia.
  - by apply finishes_Some.
Qed.

Lemma write_reg_loop_after_transfer fuel cmd value d s :
  (length (rx s) < Datatypes.S fuel)%nat ->
  exists o, write_reg_loop (Datatypes.S fuel) cmd value d s = Some o /\
            engine_step (final (write_reg_transfer cmd value s)) (final o) /\ ~ exits o.
Proof.
  intros Hlen. pose proof (write_reg_loop_finishes fuel) as IH.
  cbn [write_reg_loop].
  pose proof (never_exits_write_reg_transfer cmd value s) as Hx.
  destruct (write_reg_transfer cmd value s) as [[cmd1 trn] s1|f s1] eqn:E;
    cbn [after final] in *.
  2: { exists (Stop f s1). split; [done|]. split; [reflexivity|done]. }
  apply write_reg_transfer_consumes in E.
  match goal with |- exists o, ?r = Some o /\ _ /\ _ => change (finishes s1 r) end.
  destruct (decide (buf_get_u32 trn 1 3 = SWD_ACK_OK)).
  { apply finishes_Some; [apply transport_engine_step, step_ap_delay
                         |apply never_exits_ap_delay]. }
  destruct (decide (buf_get_u32 trn 1 3 = SWD_ACK_WAIT)).
  2: { destruct (decide (buf_get_u32 trn 1 3 = SWD_ACK_FAULT));
       (apply finishes_Some; [|simpl; auto]); simpl;
       (etransitivity; [apply engine_step_add_log|apply engine_step_set_latch]). }
  unfold clear_sticky_errors_by, write_reg_entry.
  set (s2 := add_log _ (add_log _ s1)).
  assert (St2 : engine_step s1 s2).
  { etransitivity; apply engine_step_add_log. }
  assert (Hl2 : length (rx s2) = length (rx s1)) by done.
  apply (finishes_weaken s1 s2); [done|].
  destruct (negb _).
  { apply finishes_Some; [reflexivity|simpl; auto]. }
  destruct (decide (queued_retval s2 <> ERROR_OK)).
  { eapply finishes_weaken; [apply engine_step_add_log|].
    apply IH. simpl. lia. }
  destruct (IH (swd_cmd false false DP_ABORT)
              (Z.lor (Z.lor (Z.lor STKCMPCLR STKERRCLR) WDERRCLR) ORUNERRCLR) 0 s2)
    as (o & -> & Sto & Hxo); [rewrite Hl2; lia|].
  destruct o as [[] s3|f s3]; simpl in *.
  - apply (finishes_weaken s2 s3); [done|]. apply IH.
    apply engine_step_rx_length in Sto. simpl in *. lia.
  - by apply finishes_Some.
Qed.

(** A read entered with the latch clear sends its command, whatever
    the stream answers. *)
Lemma read_reg_sends_command cmd value d s :
  Z.land cmd SWD_CMD_RnW <> 0 -> queued_retval s = ERROR_OK ->
  exists o more,
    bitbang_swd_read_reg cmd value d s = Some o /\ ~ exits o /\
    fd (final o) = fd s /\
    tx (final o) = tx s ++ command_calls (fd s) (command_byte cmd) ++ more.
Proof.
  intros Hr Hl. unfold bitbang_swd_read_reg. cbv zeta.
  destruct (Z.eqb_spec (Z.land cmd SWD_CMD_RnW) 0); [done|].
  rewrite decide_False by (simpl; intros H; by apply H).
  set (s0 := add_log _ s).
  destruct (read_reg_loop_after_transfer (length (rx s0)) cmd value d s0)
    as (o & E & St & Hx); [lia|].
  destruct (read_transfer_sends_command cmd s0) as [more Hm].
  destruct (eng_tx _ _ St) as [more' Hm'].
  pose proof (step_fd _ _ (step_read_reg_transfer cmd s0)) as Hfd.
  exists o, (more ++ more'). split; [done|]. split; [done|].
  split; [rewrite (eng_fd _ _ St); exact Hfd|].
  rewrite Hm', Hm. simpl. by rewrite <- !app_assoc.
Qed.

Lemma write_reg_sends_command cmd value d s :
  Z.land cmd SWD_CMD_RnW = 0 -> queued_retval s = ERROR_OK ->
  exists o more,
    bitbang_swd_write_reg cmd value d s = Some o /\ ~ exits o /\
    fd (final o) = fd s /\
    tx (final o) = tx s ++ command_calls (fd s) (command_byte cmd) ++ more.
Proof.
  intros Hr Hl. unfold bitbang_swd_write_reg, write_reg_entry. cbv zeta.
  rewrite Hr. cbn [Z.eqb negb].
  rewrite decide_False by (simpl; intros H; by apply H).
  set (s0 := add_log _ s).
  destruct (write_reg_loop_after_transfer (length (rx s)) cmd value d s0)
    as (o & E & St & Hx); [simpl; lia|].
  destruct (write_transfer_sends_command cmd value s0) as [more Hm].
  destruct (eng_tx _ _ St) as [more' Hm'].
  pose proof (step_fd _ _ (step_write_reg_transfer cmd value s0)) as Hfd.
  exists o, (more ++ more'). split; [done|]. split; [done|].
  split; [rewrite (eng_fd _ _ St); exact Hfd|].
  rewrite Hm', Hm. simpl. by rewrite <- !app_assoc.
Qed.

Lemma switch_seq_sends_request seq s :
  ~ exits (bitbang_swd_switch_seq seq s) /\
  match switch_seq_request seq with
  | Some request =>
      exists more,
        tx (final (bitbang_swd_switch_seq seq s)) = tx s ++ sys_write (fd s) request :: more
  | None =>
      exists n,
        seq = SEQ_OTHER n /\
        bitbang_swd_switch_seq seq s
        = Ret ERROR_FAIL
            (add_log (LOG_ERROR "Sequence %d not supported" [ArgZ n])
               (add_log (LOG_DEBUG "bitbang_swd_switch_seq" []) s))
  end.
Proof.
  split.
  - revert s. change (never_exits (bitbang_swd_switch_seq seq)).
    unfold bitbang_swd_switch_seq.
    apply never_exits_bind; [apply never_exits_log_debug|]. intros _.
    destruct seq;
      (apply never_exits_bind; [intros s; simpl; auto|]); intros _;
      try apply never_exits_ret;
      (apply never_exits_bind; [apply never_exits_exchange|]); intros _;
      apply never_exits_ret.
  - unfold bitbang_swd_switch_seq. rewrite bind_log_debug.
    destruct seq as [| | |n]; cbn [switch_seq_request];
      [rewrite bind_log_debug..|by exists n];
      (match goal with |- context [final (bind (bitbang_exchange false ?b 0 ?n) ?k ?s1)] =>
         destruct (final_bind_sent (bitbang_exchange false b 0 n) k s1) as [more1 ->];
         [intros _; apply (keeps_ret _)|];
         destruct (exchange_sends_request false b 0 n s1) as [more ->]
       end;
       exists (more ++ more1); simpl; by rewrite <- !app_assoc).
Qed.
End FirstRequest.

Section InitializationClaim.
Context {F : Type} {EC : ErrorCodes} {JC : JtagCore F} {SC : SwdCore}.

(** C9, as the code has it: in whatever state it is called, the state
    before [bitbang_swd_init] included, no SWD operation ends the
    process through [exit()], and each goes on to its transport I/O on
    the descriptor as it stands.  A register read and a register write
    finish; called with the direction bit its assertion asks for and
    the latch clear, each first writes the request for its command and
    the command byte to that descriptor.  A switch sequence that the
    [switch] has a case for first writes the request for its bits to
    that descriptor; any other is logged as not supported and returns
    [ERROR_FAIL] with nothing sent.  The run-queue operation writes its
    request for 8 idle clocks to that descriptor, sleeps and returns
    the latch.  The operation that logs and exits at once when called
    too early is the queue executor, while [bitbang_interface] is
    null. *)
Theorem swd_operations_run_uninitialized (s : swd_state)
    (queue : list (jtag_command F)) (j : jtag_state) :
  (forall cmd value d,
     exists o, bitbang_swd_read_reg cmd value d s = Some o /\ ~ exits o /\
       (Z.land cmd SWD_CMD_RnW <> 0 -> queued_retval s = ERROR_OK ->
        fd (final o) = fd s /\
        exists more,
          tx (final o) = tx s ++ command_calls (fd s) (command_byte cmd) ++ more)) /\
  (forall cmd value d,
     exists o, bitbang_swd_write_reg cmd value d s = Some o /\ ~ exits o /\
       (Z.land cmd SWD_CMD_RnW = 0 -> queued_retval s = ERROR_OK ->
        fd (final o) = fd s /\
        exists more,
          tx (final o) = tx s ++ command_calls (fd s) (command_byte cmd) ++ more)) /\
  (forall seq,
     ~ exits (bitbang_swd_switch_seq seq s) /\
     match switch_seq_request seq with
     | Some request =>
         exists more,
           tx (final (bitbang_swd_switch_seq seq s))
           = tx s ++ sys_write (fd s) request :: more
     | None =>
         exists n,
           seq = SEQ_OTHER n /\
           bitbang_swd_switch_seq seq s
           = Ret ERROR_FAIL
               (add_log (LOG_ERROR "Sequence %d not supported" [ArgZ n])
                  (add_log (LOG_DEBUG "bitbang_swd_switch_seq" []) s))
     end) /\
  (exists s',
     bitbang_swd_run_queue s = Ret (queued_retval s) s' /\
     fd s' = fd s /\ swd_mode s' = swd_mode s /\
     tx s' = tx s ++ [sys_write (fd s) (exchange_header 241 false 0 8);
                      sys_usleep 10000]) /\
  bitbang_execute_queue None queue j =
    Stop ProcessExit
      {| cur_state := cur_state j; end_state := end_state j; pins := pins j;
         samples := samples j;
         jlog := jlog j ++
           [LOG_ERROR "BUG: Bitbang interface called, but not yet initialized" []] |}.
Proof.
  split; [|split; [|split; [|split]]].
  - intros cmd value d.
    destruct (read_reg_finishes cmd value d s) as (o & E & _ & Hx).
    exists o. split; [done|]. split; [done|]. intros Hr Hl.
    destruct (read_reg_sends_command cmd value d s Hr Hl) as (o' & more & E' & _ & Hfd & Htx).
    rewrite E in E'. inversion E'; subst o'. split; [done|]. by exists more.
  - intros cmd value d.
    destruct (write_reg_finishes cmd value d s) as (o & E & _ & Hx).
    exists o. split; [done|]. split; [done|]. intros Hr Hl.
    destruct (write_reg_sends_command cmd value d s Hr Hl) as (o' & more & E' & _ & Hfd & Htx).
    rewrite E in E'. inversion E'; subst o'. split; [done|]. by exists more.
  - intros seq. apply switch_seq_sends_request.
  - rewrite run_queue_run. eexists. split; [reflexivity|].
    split; [reflexivity|]. split; [reflexivity|]. simpl. by rewrite <- app_assoc.
  - reflexivity.
Qed.
End InitializationClaim.
